(** * skynet-js: identifier codec, URL composer and SkyDB registry protocol

    A shallow embedding of [src/utils.ts], of the URL builders of the
    download module, of [ensureFileObjectConsistency] (upload module) and
    of [src/skydb.ts], followed by the properties the specification states
    about them and by further properties of the sources.

    JavaScript strings are modelled as lists of 8-bit code units
    ([list ascii]); string literals are read through the coercion below. *)

From Stdlib Require Import String Ascii List ZArith Lia Bool Arith.
From Stdlib Require Import DecimalString DecimalZ.
Import ListNotations.

Set Warnings "-register-all".

Arguments Ascii.eqb : simpl never.

Open Scope string_scope.
Open Scope list_scope.
Open Scope nat_scope.

Definition jsstring := list ascii.
Coercion list_ascii_of_string : string >-> list.

(** ** Outcome of a call that may throw *)

Inductive result (A : Type) : Type :=
| Return (a : A)
| Throw (msg : jsstring).
Arguments Return {A} a.
Arguments Throw {A} msg.

(** ** The String.prototype methods used by the sources *)

Module JS.

Definition code (c : ascii) : nat := nat_of_ascii c.

Definition in_range (lo hi : ascii) (c : ascii) : bool :=
  (code lo <=? code c) && (code c <=? code hi).

Fixpoint str_eqb (a b : jsstring) : bool :=
  match a, b with
  | [], [] => true
  | x :: a', y :: b' => Ascii.eqb x y && str_eqb a' b'
  | _, _ => false
  end.

(** [str.startsWith(p)] *)
Fixpoint startsWith (str p : jsstring) : bool :=
  match p, str with
  | [], _ => true
  | c :: p', d :: str' => Ascii.eqb c d && startsWith str' p'
  | _ :: _, [] => false
  end.

(** [str.endsWith(p)] *)
Definition endsWith (str p : jsstring) : bool :=
  startsWith (rev str) (rev p).

(** [str.slice(n)] for [0 <= n] *)
Definition slice (str : jsstring) (n : nat) : jsstring := skipn n str.

(** [str.substring(0, n)] / [str.slice(0, n)] for [0 <= n] *)
Definition substring0 (str : jsstring) (n : nat) : jsstring := firstn n str.

(** [str.indexOf(c)] for a one-character needle; [None] stands for -1 *)
Fixpoint indexOf (str : jsstring) (c : ascii) : option nat :=
  match str with
  | [] => None
  | d :: str' =>
      if Ascii.eqb d c then Some 0
      else match indexOf str' c with
           | Some i => Some (S i)
           | None => None
           end
  end.

(** [str.replace(c, d)] with string arguments: the first occurrence only *)
Fixpoint replaceFirst (str : jsstring) (c d : ascii) : jsstring :=
  match str with
  | [] => []
  | x :: str' => if Ascii.eqb x c then d :: str' else x :: replaceFirst str' c d
  end.

(** [str.toLowerCase()] on 8-bit code units: A-Z, and the Latin-1
    capitals U+00C0..U+00DE without the multiplication sign. *)
Definition lower (c : ascii) : ascii :=
  if in_range "A" "Z" c then ascii_of_nat (code c + 32)
  else if (192 <=? code c) && (code c <=? 222) && negb (code c =? 215)
       then ascii_of_nat (code c + 32)
       else c.

Definition toLowerCase (str : jsstring) : jsstring := map lower str.

(** [str.padEnd(n, "=")] *)
Definition padEnd (str : jsstring) (n : nat) (c : ascii) : jsstring :=
  str ++ repeat c (n - length str).

(** [str.split(sep)] for a one-character separator *)
Fixpoint split (str : jsstring) (sep : ascii) : list jsstring :=
  match str with
  | [] => [[]]
  | c :: str' =>
      if Ascii.eqb c sep then [] :: split str' sep
      else match split str' sep with
           | seg :: segs => (c :: seg) :: segs
           | [] => [[c]]
           end
  end.

(** [arr.join(sep)] *)
Fixpoint join (arr : list jsstring) (sep : jsstring) : jsstring :=
  match arr with
  | [] => []
  | [seg] => seg
  | seg :: arr' => seg ++ sep ++ join arr' sep
  end.

(** The line terminators excluded by [.] in a regular expression that
    fit in a code unit below 256. *)
Definition isLineTerminator (c : ascii) : bool :=
  (code c =? 10) || (code c =? 13).

Definition isDigit (c : ascii) : bool := in_range "0" "9" c.
Definition isLowerAlpha (c : ascii) : bool := in_range "a" "z" c.
Definition isUpperAlpha (c : ascii) : bool := in_range "A" "Z" c.
Definition isAlpha (c : ascii) : bool := isLowerAlpha c || isUpperAlpha c.

(** Longest prefix of [str] whose characters satisfy [p], and the rest. *)
Fixpoint span (p : ascii -> bool) (str : jsstring) : jsstring * jsstring :=
  match str with
  | [] => ([], [])
  | c :: str' =>
      if p c then let (a, b) := span p str' in (c :: a, b)
      else ([], str)
  end.

End JS.

(** ** The part of the [url-parse] package that [utils.ts] relies on

    [parse(address, {})] of url-parse 1.4.x, called with an empty object as
    the base location: the base has neither slashes nor a pathname, so no
    field is inherited and no relative path is resolved.  Only [pathname]
    and [hostname] are read by the callers; the instructions of the
    package's rule table are followed in order. *)

Module UrlParse.

Record Url := {
  protocol : jsstring;
  slashes  : bool;
  hash     : jsstring;
  query    : jsstring;
  pathname : jsstring;
  auth     : jsstring;
  host     : jsstring;
  port     : jsstring;
  hostname : jsstring
}.

(** The 8-bit members of the package's [whitespace] class. *)
Definition isWhitespace (c : ascii) : bool :=
  let n := JS.code c in
  ((9 <=? n) && (n <=? 13)) || (n =? 32) || (n =? 160).

(** [str.replace(/^whitespace+/, '')] *)
Fixpoint trimLeft (str : jsstring) : jsstring :=
  match str with
  | c :: str' => if isWhitespace c then trimLeft str' else str
  | [] => []
  end.

(** [[a-z0-9.+-]] under the [i] flag *)
Definition isSchemeChar (c : ascii) : bool :=
  JS.isAlpha c || JS.isDigit c
  || Ascii.eqb c "." || Ascii.eqb c "+" || Ascii.eqb c "-".

(** The optional first group of the package's protocol expression, a
    letter followed by letters, digits, dots, pluses or dashes and then a
    colon, matched without regard to case: the scheme with its colon when
    there is one, and what follows it. *)
Definition matchScheme (address : jsstring) : option jsstring * jsstring :=
  match address with
  | c :: address' =>
      if JS.isAlpha c then
        let (run, after) := JS.span isSchemeChar address' in
        match after with
        | d :: after' =>
            if Ascii.eqb d ":" then (Some (c :: run ++ [d]), after')
            else (None, address)
        | [] => (None, address)
        end
      else (None, address)
  | [] => (None, address)
  end.

Record Extracted := {
  ex_protocol : jsstring;
  ex_slashes  : bool;
  ex_rest     : jsstring
}.

Definition extractProtocol (address : jsstring) : Extracted :=
  let address := trimLeft address in
  let (scheme, after) := matchScheme address in
  let proto := match scheme with
               | Some p => JS.toLowerCase p
               | None => []
               end in
  if JS.startsWith after "//"
  then {| ex_protocol := proto; ex_slashes := true;
          ex_rest := JS.slice after 2 |}
  else {| ex_protocol := proto; ex_slashes := false; ex_rest := after |}.

Definition backslash : ascii := ascii_of_nat 92.

(** An instruction [[c, key]]: the field is cut off the back at the first
    occurrence of [c].  Returns the field and the remaining address. *)
Definition cutBack (address : jsstring) (c : ascii) : jsstring * jsstring :=
  match JS.indexOf address c with
  | Some i => (JS.slice address i, JS.substring0 address i)
  | None => ([], address)
  end.

(** The instruction [['@', 'auth', 1]]: the field is cut off the front. *)
Definition cutFront (address : jsstring) (c : ascii) : jsstring * jsstring :=
  match JS.indexOf address c with
  | Some i => (JS.substring0 address i, JS.slice address (i + 1))
  | None => ([], address)
  end.

(** The instruction that replaces the pathname rule when the address has
    no authority (a capture of any run of characters other than line
    terminators): the first line of the address. *)
Definition firstLine (address : jsstring) : jsstring :=
  fst (JS.span (fun c => negb (JS.isLineTerminator c)) address).

(** The instruction [[/:(\d+)$/, 'port']]: a final colon followed by one or
    more digits.  Returns the digits and the address before the colon. *)
Definition cutPort (address : jsstring) : jsstring * jsstring :=
  let (digits_rev, before_rev) := JS.span JS.isDigit (rev address) in
  match digits_rev, before_rev with
  | _ :: _, c :: before_rev' =>
      if Ascii.eqb c ":" then (rev digits_rev, rev before_rev')
      else ([], address)
  | _, _ => ([], address)
  end.

Definition parse (address : jsstring) : Url :=
  let address := trimLeft address in
  let ex := extractProtocol address in
  let address := ex_rest ex in
  let (hash, address) := cutBack address "#" in
  let (query, address) := cutBack address "?" in
  let address := JS.replaceFirst address backslash "/" in
  let (pathname, address) :=
    if ex_slashes ex then cutBack address "/"
    else (firstLine address, []) in
  let (auth, address) := cutFront address "@" in
  let host := JS.toLowerCase address in
  let (port, address) := cutPort address in
  let hostname := JS.toLowerCase address in
  {| protocol := ex_protocol ex; slashes := ex_slashes ex;
     hash := hash; query := query; pathname := pathname; auth := auth;
     host := host; port := port; hostname := hostname |}.

End UrlParse.

(** ** src/utils.ts *)

Definition uriHandshakePrefix : jsstring := "hns:".
Definition uriHandshakeResolverPrefix : jsstring := "hnsres:".
Definition uriSkynetPrefix : jsstring := "sia:".

(** The [while] loops of [trimPrefix] and [trimSuffix] run on fuel.  Each
    turn removes [length prefix] characters, so [length str] turns are
    enough whenever the prefix is not empty (with the empty prefix the
    source loops for ever; it is only ever called with ["/"]). *)

Fixpoint trimPrefix_loop (fuel : nat) (str prefix : jsstring) : jsstring :=
  match fuel with
  | O => str
  | S fuel' =>
      if JS.startsWith str prefix
      then trimPrefix_loop fuel' (JS.slice str (length prefix)) prefix
      else str
  end.

Definition trimPrefix (str prefix : jsstring) : jsstring :=
  trimPrefix_loop (length str) str prefix.

Fixpoint trimSuffix_loop (fuel : nat) (str suffix : jsstring) : jsstring :=
  match fuel with
  | O => str
  | S fuel' =>
      if JS.endsWith str suffix
      then trimSuffix_loop fuel'
             (JS.substring0 str (length str - length suffix)) suffix
      else str
  end.

Definition trimSuffix (str suffix : jsstring) : jsstring :=
  trimSuffix_loop (length str) str suffix.

Definition trimForwardSlash (str : jsstring) : jsstring :=
  trimPrefix (trimSuffix str "/") "/".

Definition trimUriPrefix (str prefix : jsstring) : jsstring :=
  let longPrefix := prefix ++ "//" in
  if JS.startsWith str longPrefix then JS.slice str (length longPrefix)
  else if JS.startsWith str prefix then JS.slice str (length prefix)
  else str.

(** [[a-zA-Z0-9_-]] *)
Definition isSkylinkChar (c : ascii) : bool :=
  JS.isAlpha c || JS.isDigit c || Ascii.eqb c "_" || Ascii.eqb c "-".

(** [[a-z0-9_-]] *)
Definition isSubdomainChar (c : ascii) : bool :=
  JS.isLowerAlpha c || JS.isDigit c || Ascii.eqb c "_" || Ascii.eqb c "-".

Definition noLineTerminator (str : jsstring) : bool :=
  forallb (fun c => negb (JS.isLineTerminator c)) str.

(** [str.match(SKYLINK_DIRECT_REGEX)], [^([a-zA-Z0-9_-]{46})$]:
    group 1 on a match. *)
Definition matchDirect (str : jsstring) : option jsstring :=
  if (length str =? 46) && forallb isSkylinkChar str then Some str else None.

(** [str.match(SKYLINK_PATHNAME_REGEX)]: an optional slash, group 1 of 46
    skylink characters, then group 2, which is empty or a slash followed by
    characters other than line terminators up to the end.  Groups 1 and 2
    on a match.  A leading slash is always consumed by the optional slash,
    since it cannot start group 1. *)
Definition matchPathname (str : jsstring) : option (jsstring * jsstring) :=
  let str' := match str with
              | c :: t => if Ascii.eqb c "/" then t else str
              | [] => str
              end in
  let id := firstn 46 str' in
  let rest := skipn 46 str' in
  if (length id =? 46) && forallb isSkylinkChar id
     && match rest with
        | [] => true
        | c :: r => Ascii.eqb c "/" && noLineTerminator r
        end
  then Some (id, rest) else None.

(** [str.match(SKYLINK_SUBDOMAIN_REGEX)]: group 1 of 55 subdomain
    characters, then the end or a dot followed by characters other than
    line terminators up to the end.  Group 1 on a match. *)
Definition matchSubdomain (str : jsstring) : option jsstring :=
  let id := firstn 55 str in
  let rest := skipn 55 str in
  if (length id =? 55) && forallb isSubdomainChar id
     && match rest with
        | [] => true
        | c :: r => Ascii.eqb c "." && noLineTerminator r
        end
  then Some id else None.

(** The option bag of [parseSkylink]; a field is [true] when it is truthy. *)
Record ParseOpts := {
  onlyPath      : bool;
  includePath   : bool;
  fromSubdomain : bool
}.

Definition defaultOpts : ParseOpts :=
  {| onlyPath := false; includePath := false; fromSubdomain := false |}.
Definition optsOnlyPath : ParseOpts :=
  {| onlyPath := true; includePath := false; fromSubdomain := false |}.
Definition optsIncludePath : ParseOpts :=
  {| onlyPath := false; includePath := true; fromSubdomain := false |}.
Definition optsFromSubdomain : ParseOpts :=
  {| onlyPath := false; includePath := false; fromSubdomain := true |}.

(** [null] is [None]. *)
Definition parseSkylinkBase32 (skylinkStr : jsstring) (opts : ParseOpts)
  : option jsstring :=
  let parsed := UrlParse.parse skylinkStr in
  match matchSubdomain (UrlParse.hostname parsed) with
  | Some m =>
      if onlyPath opts then Some (UrlParse.pathname parsed)
      else Some m
  | None => None
  end.

(** The argument is a string by its type, so the [typeof] guard of the
    source never fires. *)
Definition parseSkylink (skylinkStr : jsstring) (opts : ParseOpts)
  : result (option jsstring) :=
  if includePath opts && onlyPath opts
  then Throw "The includePath and onlyPath options cannot both be set"
  else if includePath opts && fromSubdomain opts
  then Throw "The includePath and fromSubdomain options cannot both be set"
  else if fromSubdomain opts
  then Return (parseSkylinkBase32 skylinkStr opts)
  else
    let skylinkStr := trimUriPrefix skylinkStr uriSkynetPrefix in
    match matchDirect skylinkStr with
    | Some m =>
        if onlyPath opts then Return (Some [])
        else Return (Some m)
    | None =>
        let parsed := UrlParse.parse skylinkStr in
        let skylinkAndPath := trimSuffix (UrlParse.pathname parsed) "/" in
        match matchPathname skylinkAndPath with
        | None => Return None
        | Some (m1, m2) =>
            let path := if JS.str_eqb m2 "/" then [] else m2 in
            if includePath opts
            then Return (Some (trimForwardSlash skylinkAndPath))
            else if onlyPath opts then Return (Some path)
            else Return (Some m1)
        end
    end.

(** *** 32-bit integer operators of the language, on [Z] *)

Module Int32.

Local Open Scope Z_scope.

Definition two32 : Z := 4294967296.
Definition two31 : Z := 2147483648.

(** ToUint32 and ToInt32 *)
Definition toUint32 (z : Z) : Z := z mod two32.
Definition toInt32 (z : Z) : Z :=
  let u := z mod two32 in
  if u <? two31 then u else u - two32.

(** [a << n], [a >> n], [a >>> n], [a | b], [a & b] *)
Definition shl (a n : Z) : Z := toInt32 (Z.shiftl (toInt32 a) (n mod 32)).
Definition sar (a n : Z) : Z := Z.shiftr (toInt32 a) (n mod 32).
Definition shr (a n : Z) : Z := Z.shiftr (toUint32 a) (n mod 32).
Definition or (a b : Z) : Z := Z.lor (toInt32 a) (toInt32 b).
Definition and (a b : Z) : Z := Z.land (toInt32 a) (toInt32 b).

End Int32.

(** *** [toByteArray] of the [base64-js] package *)

Module Base64.

Definition code : jsstring :=
  "ABCDEFGHIJKLMNOPQRSTUVWXYZabcdefghijklmnopqrstuvwxyz0123456789+/".

(** [revLookup[c]]: the position of [c] in [code], with ['-'] and ['_']
    added for the URL-safe alphabet; [None] is [undefined]. *)
Definition revLookup (c : ascii) : option Z :=
  if Ascii.eqb c "-" then Some 62%Z
  else if Ascii.eqb c "_" then Some 63%Z
  else match JS.indexOf code c with
       | Some i => Some (Z.of_nat i)
       | None => None
       end.

(** ToInt32 of a table entry: [undefined] counts as 0 in a bit operation;
    so does the entry at an index past the end of the string. *)
Definition rev (b64 : jsstring) (i : nat) : Z :=
  match nth_error b64 i with
  | Some c => match revLookup c with Some v => v | None => 0%Z end
  | None => 0%Z
  end.

(** One turn of the main loop: the three bytes of four characters. *)
Definition quad (b64 : jsstring) (i : nat) : list Z :=
  let tmp :=
    Int32.or (Int32.or (Int32.or (Int32.shl (rev b64 i) 18)
                                 (Int32.shl (rev b64 (i + 1)) 12))
                       (Int32.shl (rev b64 (i + 2)) 6))
             (rev b64 (i + 3)) in
  [Int32.and (Int32.sar tmp 16) 255;
   Int32.and (Int32.sar tmp 8) 255;
   Int32.and tmp 255].

(** [for (i = 0; i < len; i += 4)], on fuel; returns the bytes written
    and the final value of [i]. *)
Fixpoint mainLoop (fuel : nat) (b64 : jsstring) (i len : nat)
  : list Z * nat :=
  match fuel with
  | O => ([], i)
  | S fuel' =>
      if i <? len then
        let (bytes, i') := mainLoop fuel' b64 (i + 4) len in
        (quad b64 i ++ bytes, i')
      else ([], i)
  end.

(** The bytes the function writes, in order.  The package allocates the
    array beforehand; the two differ only when there are four placeholders
    (the first ["="] at an index that is a multiple of four), where the
    array ends in two more zero bytes and cannot be allocated when the
    string starts with ["="]; no property below depends on the bytes of
    that case. *)
Definition toByteArray (b64 : jsstring) : result (list Z) :=
  let len := length b64 in
  if 0 <? len mod 4
  then Throw "Invalid string. Length must be a multiple of 4"
  else
    let validLen := match JS.indexOf b64 "=" with
                    | Some i => i
                    | None => len
                    end in
    let placeHoldersLen :=
      if validLen =? len then 0 else 4 - validLen mod 4 in
    let len' := if 0 <? placeHoldersLen then validLen - 4 else validLen in
    let (bytes, i) := mainLoop len b64 0 len' in
    let tail2 :=
      if placeHoldersLen =? 2 then
        let tmp := Int32.or (Int32.shl (rev b64 i) 2)
                            (Int32.sar (rev b64 (i + 1)) 4) in
        [Int32.and tmp 255]
      else [] in
    let tail1 :=
      if placeHoldersLen =? 1 then
        let tmp := Int32.or (Int32.or (Int32.shl (rev b64 i) 10)
                                      (Int32.shl (rev b64 (i + 1)) 4))
                            (Int32.sar (rev b64 (i + 2)) 2) in
        [Int32.and (Int32.sar tmp 8) 255; Int32.and tmp 255]
      else [] in
    Return (bytes ++ tail2 ++ tail1).

End Base64.

(** *** [base32Encode] of the [base32-encode] package *)

Module Base32.

(** The alphabet of the variant ["RFC4648-HEX"]. *)
Definition alphabet : jsstring := "0123456789ABCDEFGHIJKLMNOPQRSTUV".

(** [alphabet[k]]; the index is always below 32. *)
Definition at_ (k : Z) : jsstring :=
  match nth_error alphabet (Z.to_nat k) with
  | Some c => [c]
  | None => "undefined"
  end.

(** [while (bits >= 5)], on fuel. *)
Fixpoint drain (fuel bits : nat) (value : Z) (output : jsstring)
  : nat * jsstring :=
  match fuel with
  | O => (bits, output)
  | S fuel' =>
      if 5 <=? bits then
        drain fuel' (bits - 5) value
          (output ++ at_ (Int32.and (Int32.shr value (Z.of_nat (bits - 5))) 31))
      else (bits, output)
  end.

(** [for (i = 0; i < length; i++)] over the bytes of the view. *)
Fixpoint encodeLoop (view : list Z) (bits : nat) (value : Z)
  (output : jsstring) : nat * Z * jsstring :=
  match view with
  | [] => (bits, value, output)
  | b :: view' =>
      let value := Int32.or (Int32.shl value 8) b in
      let bits := bits + 8 in
      let (bits, output) := drain bits bits value output in
      encodeLoop view' bits value output
  end.

(** [base32Encode(buffer, "RFC4648-HEX", { padding: false })] *)
Definition base32Encode (buffer : list Z) : jsstring :=
  let '(bits, value, output) := encodeLoop buffer 0 0%Z [] in
  if 0 <? bits
  then output ++ at_ (Int32.and (Int32.shl value (Z.of_nat (5 - bits))) 31)
  else output.

End Base32.

Definition convertSkylinkToBase32 (input : jsstring) : result jsstring :=
  match Base64.toByteArray
          (JS.padEnd input (length input + 4 - length input mod 4) "=") with
  | Return decoded => Return (JS.toLowerCase (Base32.base32Encode decoded))
  | Throw e => Throw e
  end.

(** ** getSkylinkUrl (download module) *)

(** *** [encodeURIComponent] on 8-bit code units *)

Module URI.

Definition hexDigits : jsstring := "0123456789ABCDEF".

Definition hexDigit (n : nat) : ascii := nth n hexDigits "0"%char.

(** ["%XX"] for one octet *)
Definition percent (octet : nat) : jsstring :=
  ["%"%char; hexDigit (octet / 16); hexDigit (octet mod 16)].

(** uriUnreserved: letters, digits and [- _ . ! ~ * ' ( )] *)
Definition isUnreserved (c : ascii) : bool :=
  JS.isAlpha c || JS.isDigit c
  || existsb (Ascii.eqb c) ("-_.!~*'()" : jsstring).

(** The UTF-8 octets of a code point below 256. *)
Definition utf8 (c : ascii) : list nat :=
  let n := JS.code c in
  if n <? 128 then [n] else [192 + n / 64; 128 + n mod 64].

Definition encodeChar (c : ascii) : jsstring :=
  if isUnreserved c then [c] else flat_map percent (utf8 c).

Definition encodeURIComponent (str : jsstring) : jsstring :=
  flat_map encodeChar str.

End URI.

(** The value of [opts.path]. *)
Inductive PathOption : Type :=
| PathUndefined
| PathString (p : jsstring)
| PathOther (truthy : bool) (typeofName : jsstring).

Definition Query := list (jsstring * jsstring).

Fixpoint setQuery (q : Query) (k v : jsstring) : Query :=
  match q with
  | [] => [(k, v)]
  | (k', v') :: q' =>
      if JS.str_eqb k' k then (k, v) :: q' else (k', v') :: setQuery q' k v
  end.

(** The merged options read by [getSkylinkUrl]. *)
Record DownloadOpts := {
  endpointPath : jsstring;
  path         : PathOption;
  query        : option Query;
  subdomain    : bool;
  download     : bool
}.

(** The block of [getSkylinkUrl] under the comment "URL-encode the path":
    the value of the local [path]. *)
Definition encodePathOption (p : PathOption) : result jsstring :=
  match p with
  | PathUndefined => Return []
  | PathString [] => Return []
  | PathString str =>
      Return (JS.join (map URI.encodeURIComponent (JS.split str "/")) "/")
  | PathOther false _ => Return []
  | PathOther true ty =>
      Throw ("opts.path has to be a string, " ++ ty ++ " provided")
  end.

Definition couldNotGetSkylink (skylinkStr : jsstring) : jsstring :=
  "Could not get skylink out of input '" ++ skylinkStr ++ "'".

Section Download.

(** The packages behind [makeUrl] and [addUrlQuery] ([url-join], and
    [url-parse] with its query stringifier) stay abstract.  So does the
    [URL] class of the platform, which [addSubdomain] uses: its
    constructor, which throws a TypeError on a string that is not an
    absolute URL, the [hostname] accessors and [toString]. *)
Variable urljoin : jsstring -> jsstring -> jsstring.
Variable addUrlQuery : jsstring -> Query -> jsstring.
Variable URL : Type.
Variable URL_new : jsstring -> result URL.
Variable URL_hostname : URL -> jsstring.
Variable URL_setHostname : URL -> jsstring -> URL.
Variable URL_toString : URL -> jsstring.

(** [addSubdomain] of src/utils.ts *)
Definition addSubdomain (url subdomain : jsstring) : result jsstring :=
  match URL_new url with
  | Throw e => Throw e
  | Return urlObj =>
      let urlObj :=
        URL_setHostname urlObj (subdomain ++ "." ++ URL_hostname urlObj) in
      let str := URL_toString urlObj in
      if JS.endsWith str "/"
      then Return (JS.substring0 str (length str - 1))
      else Return str
  end.

(** [args.reduce((acc, cur) => urljoin(acc, cur))]; [reduce] throws on an
    empty array, which no caller passes. *)
Definition makeUrl (args : list jsstring) : jsstring :=
  match args with
  | [] => []
  | a :: args' => fold_left urljoin args' a
  end.

Definition getSkylinkUrl (portalUrl skylinkStr : jsstring)
  (opts : DownloadOpts) : result jsstring :=
  let query0 := match query opts with Some q => q | None => [] end in
  let query1 := if download opts then setQuery query0 "attachment" "true"
                else query0 in
  match encodePathOption (path opts) with
  | Throw e => Throw e
  | Return path =>
      if subdomain opts then
        match parseSkylink skylinkStr optsOnlyPath with
        | Throw e => Throw e
        | Return skylinkPath =>
            match parseSkylink skylinkStr defaultOpts with
            | Throw e => Throw e
            | Return None => Throw (couldNotGetSkylink skylinkStr)
            | Return (Some skylink) =>
                match convertSkylinkToBase32 skylink with
                | Throw e => Throw e
                | Return skylink32 =>
                    match addSubdomain portalUrl skylink32 with
                    | Throw e => Throw e
                    | Return url =>
                        (* a null path comes with a null skylink only *)
                        let skylinkPath := match skylinkPath with
                                           | Some sp => sp
                                           | None => "null" : jsstring
                                           end in
                        let url := makeUrl [url; skylinkPath; path] in
                        Return (addUrlQuery url query1)
                    end
                end
            end
        end
      else
        match parseSkylink skylinkStr optsIncludePath with
        | Throw e => Throw e
        | Return None => Throw (couldNotGetSkylink skylinkStr)
        | Return (Some skylink) =>
            let url := makeUrl [portalUrl; endpointPath opts; skylink; path] in
            Return (addUrlQuery url query1)
        end
  end.

End Download.

(** ** src/skydb.ts *)

Definition bytes := list ascii.

(** Numbers are integers or NaN. *)
Inductive jsnum : Type :=
| NaN
| Num (z : Z).

(** The values that occur in a registry entry. *)
Inductive jsval : Type :=
| VUndefined
| VNumber (n : jsnum)
| VString (s : jsstring)
| VBytes (b : bytes)
| VObject (fields : list (jsstring * jsval)).

Definition jsobject := list (jsstring * jsval).

Module Value.

(** [n.toString()] of an integer below 10^21 in absolute value, where
    the language prints all the digits. *)
Definition ZtoString (z : Z) : jsstring :=
  NilZero.string_of_int (Z.to_int z).

(** [n.toString()] *)
Definition numToString (n : jsnum) : jsstring :=
  match n with
  | NaN => "NaN"
  | Num z => ZtoString z
  end.

(** ToNumber.  Of the numeric literals a string may hold, the model of
    numbers can only represent the decimal integers: a string in another
    notation (hexadecimal, with an exponent, a sign or white space) reads
    as [NaN] here. *)
Definition toNumber (v : jsval) : jsnum :=
  match v with
  | VUndefined => NaN
  | VNumber n => n
  | VString [] => Num 0
  | VString s =>
      match NilZero.int_of_string (string_of_list_ascii s) with
      | Some d => Num (Z.of_int d)
      | None => NaN
      end
  | VBytes _ => NaN
  | VObject _ => NaN
  end.

Definition succ (n : jsnum) : jsnum :=
  match n with
  | NaN => NaN
  | Num z => Num (z + 1)
  end.

(** [obj[k]]: an absent property reads as [undefined]. *)
Fixpoint getProp (obj : jsobject) (k : jsstring) : jsval :=
  match obj with
  | [] => VUndefined
  | (k', v) :: obj' => if JS.str_eqb k' k then v else getProp obj' k
  end.

(** [obj[k] = v] *)
Fixpoint setProp (obj : jsobject) (k : jsstring) (v : jsval) : jsobject :=
  match obj with
  | [] => [(k, v)]
  | (k', v') :: obj' =>
      if JS.str_eqb k' k then (k, v) :: obj'
      else (k', v') :: setProp obj' k v
  end.

(** [v.k] on a value: reading a property of [undefined] throws. *)
Definition member (v : jsval) (k : jsstring) : result jsval :=
  match v with
  | VUndefined =>
      Throw ("Cannot read property '" ++ k ++ "' of undefined")
  | VObject obj => Return (getProp obj k)
  | _ => Return VUndefined
  end.

(** [obj.k++]: the old value converted to a number, and the object with
    the property set to that number plus one. *)
Definition postIncrement (obj : jsobject) (k : jsstring)
  : jsnum * jsobject :=
  let oldValue := toNumber (getProp obj k) in
  (oldValue, setProp obj k (VNumber (succ oldValue))).

End Value.

Definition FILEID_V1 : Z := 1%Z.

Inductive FileType : Type :=
| Invalid
| PublicUnencrypted.

Definition FileType_value (t : FileType) : Z :=
  match t with
  | Invalid => 0%Z
  | PublicUnencrypted => 1%Z
  end.

Record FileID := {
  version       : Z;
  applicationID : jsstring;
  fileType      : FileType;
  filename      : jsstring
}.

Definition NewFileID (applicationID : jsstring) (fileType : FileType)
  (filename : jsstring) : FileID :=
  {| version := FILEID_V1; applicationID := applicationID;
     fileType := fileType; filename := filename |}.

Record RegistryValue := {
  tweak    : bytes;
  data     : jsstring;
  revision : jsnum
}.

Record SignedRegistryValue := {
  value     : RegistryValue;
  signature : jsstring
}.

Record User := {
  id        : jsstring;
  publicKey : bytes;
  secretKey : bytes
}.

(** [buffer.toString("hex")] of a Buffer: two lower-case hexadecimal
    digits for each byte. *)
Module Hex.

Definition digits : jsstring := "0123456789abcdef".

Definition ofByte (b : ascii) : jsstring :=
  let n := JS.code b in
  [nth (n / 16) digits "0"%char; nth (n mod 16) digits "0"%char].

Definition ofBytes (b : bytes) : jsstring := flat_map ofByte b.

End Hex.

(** [new User(publicKey, secretKey)] *)
Definition User_constructor (publicKey secretKey : bytes) : User :=
  {| id := Hex.ofBytes publicKey; publicKey := publicKey;
     secretKey := secretKey |}.

(** What [getFile] and [setFile] do to the outside. *)
Inductive Effect : Type :=
| DownloadFile (skylink : jsval)
| UpdateRegistry (user : User) (fileID : FileID) (entry : SignedRegistryValue).

Section SkyDB.

(** The state of the world the cryptographic package may draw on. *)
Variable World : Type.

(** node-forge: [pkcs5.pbkdf2(password, salt, iterations, keySize)],
    [pki.ed25519.generateKeyPair({ seed })] and [pki.ed25519.sign], the
    last two returning the public and the private key, and the signature
    in hexadecimal. *)
Variable pbkdf2 : jsstring -> jsstring -> nat -> nat -> bytes.
Variable generateKeyPair : option bytes -> World -> (bytes * bytes) * World.
Variable ed25519_sign : bytes -> bytes -> jsstring.

(** [hashAll] of the crypto module. *)
Variable hashAll : list jsval -> bytes.

(** The parts of the client [getFile] and [setFile] call: the skylink in
    the portal's answer to an upload, and the registry lookup. *)
Variable SkyFile : Type.
Variable uploadedSkylink : SkyFile -> jsstring -> jsstring.
Variable lookupRegistry : User -> FileID -> option jsobject.

Definition User_New (username password : jsstring) (w : World)
  : User * World :=
  let seed := pbkdf2 password username 1000 32 in
  let '((publicKey, privateKey), w') := generateKeyPair (Some seed) w in
  (User_constructor publicKey privateKey, w').

Definition User_sign (user : User) (message : bytes) : jsstring :=
  ed25519_sign (secretKey user) message.

(** The call [this.uploadFile(file, { customFilename })], taken to return
    as [uploadFile] of the upload module does when its request comes back:
    the skylink of the portal's answer behind the prefix.  The request
    itself belongs to the client, which is not among the sources. *)
Definition uploadFile (file : SkyFile) (customFilename : jsstring)
  : jsstring :=
  uriSkynetPrefix ++ uploadedSkylink file customFilename.

Definition getFile (user : User) (fileID : FileID) : result (list Effect) :=
  match lookupRegistry user fileID with
  | None => Throw "not found"
  | Some existing =>
      match Value.member (Value.getProp existing "value") "data" with
      | Throw e => Throw e
      | Return skylink => Return [DownloadFile skylink]
      end
  end.

(** The tweak built by [setFile]. *)
Definition buildTweak (fileID : FileID) : bytes :=
  hashAll [VString (Value.ZtoString (version fileID));
           VString (applicationID fileID);
           VString (Value.ZtoString (FileType_value (fileType fileID)));
           VString (filename fileID)].

Definition setFile (user : User) (fileID : FileID) (file : SkyFile)
  : result (list Effect) :=
  let customFilename := filename fileID in
  let skylink := uploadFile file customFilename in
  let existing := lookupRegistry user fileID in
  let tweak' := buildTweak fileID in
  let value' :=
    {| tweak := tweak';
       data := skylink;
       revision := match existing with
                   | Some obj => fst (Value.postIncrement obj "Revision")
                   | None => Num 0
                   end |} in
  let signature' :=
    User_sign user
      (hashAll [VBytes (tweak value'); VString (data value');
                VString (Value.numToString (revision value'))]) in
  Return [UpdateRegistry user fileID
            {| value := value'; signature := signature' |}].

End SkyDB.

(** The object literal [{ value, signature }] that [setFile] hands to
    [updateRegistry]. *)
Definition entryObject (e : SignedRegistryValue) : jsobject :=
  [("value" : jsstring,
    VObject [("tweak" : jsstring, VBytes (tweak (value e)));
             ("data" : jsstring, VString (data (value e)));
             ("revision" : jsstring, VNumber (revision (value e)))]);
   ("signature" : jsstring, VString (signature e))].

Definition FileID_eqb (a b : FileID) : bool :=
  Z.eqb (version a) (version b)
  && JS.str_eqb (applicationID a) (applicationID b)
  && Z.eqb (FileType_value (fileType a)) (FileType_value (fileType b))
  && JS.str_eqb (filename a) (filename b).

(** Modelled from the spec: the registry collaborator, whose module is not
    among the sources.  A lookup yields the signed entry last submitted for
    the owner and the FileID (the latest first in [submitted]), as the
    object that was submitted, or nothing. *)
Fixpoint lookupAfter (submitted : list Effect) (user : User)
  (fileID : FileID) : option jsobject :=
  match submitted with
  | [] => None
  | UpdateRegistry u f e :: older =>
      if JS.str_eqb (id u) (id user) && FileID_eqb f fileID
      then Some (entryObject e)
      else lookupAfter older user fileID
  | DownloadFile _ :: older => lookupAfter older user fileID
  end.

(** ** The base-64 to base-32 conversion read as positional numerals *)

Module Numeral.

Local Open Scope Z_scope.

(** The value of a big-endian list of digits in base [b]. *)
Definition val (b : Z) (ds : list Z) : Z :=
  fold_left (fun acc d => acc * b + d) ds 0.

(** The [n] big-endian digits of [v] in base [b]. *)
Fixpoint digits (b : Z) (n : nat) (v : Z) : list Z :=
  match n with
  | O => []
  | S n' => digits b n' (v / b) ++ [v mod b]
  end.

End Numeral.

(** Modelled from the spec: [fromBase32] (also called [toBase64]), the
    inverse conversion, which the sources do not contain.  The base-32
    string is decoded to raw bytes (extended-hex alphabet, either case, the
    bits beyond the last whole byte dropped) and the bytes are encoded
    again in the URL-safe base-64 alphabet without padding. *)

Module FromBase32.

Definition alphabet32 : jsstring := "0123456789abcdefghijklmnopqrstuv".
Definition alphabet64 : jsstring :=
  "ABCDEFGHIJKLMNOPQRSTUVWXYZabcdefghijklmnopqrstuvwxyz0123456789-_".

Definition value32 (c : ascii) : option Z :=
  match JS.indexOf alphabet32 (JS.lower c) with
  | Some i => Some (Z.of_nat i)
  | None => None
  end.

Fixpoint values32 (str : jsstring) : option (list Z) :=
  match str with
  | [] => Some []
  | c :: str' =>
      match value32 c, values32 str' with
      | Some v, Some vs => Some (v :: vs)
      | _, _ => None
      end
  end.

Definition char64 (v : Z) : ascii := nth (Z.to_nat v) alphabet64 "A"%char.

(** The whole bytes held by a list of 5-bit digits. *)
Definition bytesOfQuintets (qs : list Z) : list Z :=
  let nbytes := (5 * length qs) / 8 in
  let extra := 5 * length qs - 8 * nbytes in
  Numeral.digits 256 nbytes (Numeral.val 32 qs / 2 ^ Z.of_nat extra)%Z.

(** The 6-bit digits of a list of bytes, the last one filled with zeros. *)
Definition sextetsOfBytes (bs : list Z) : list Z :=
  let nchars := (8 * length bs + 5) / 6 in
  let fill := 6 * nchars - 8 * length bs in
  Numeral.digits 64 nchars (Numeral.val 256 bs * 2 ^ Z.of_nat fill)%Z.

Definition decodeBase32 (str : jsstring) : option (list Z) :=
  match values32 str with
  | Some qs => Some (bytesOfQuintets qs)
  | None => None
  end.

Definition encodeBase64url (bs : list Z) : jsstring :=
  map char64 (sextetsOfBytes bs).

Definition fromBase32 (str : jsstring) : option jsstring :=
  match decodeBase32 str with
  | Some bs => Some (encodeBase64url bs)
  | None => None
  end.

End FromBase32.

(** ** Further functions of src/utils.ts *)

(** *** [toHexString] and [hexToUint8Array] *)

Module Radix16.

(** [n.toString(16)] for a non-negative integer: the digits are produced
    from the last one, one for each turn of the fuel. *)
Fixpoint toString_loop (fuel n : nat) : jsstring :=
  match fuel with
  | O => []
  | S fuel' =>
      if n <? 16 then [nth n Hex.digits "0"%char]
      else toString_loop fuel' (n / 16)
             ++ [nth (n mod 16) Hex.digits "0"%char]
  end.

Definition toString (n : nat) : jsstring := toString_loop (S n) n.

(** The value of a hexadecimal digit of either case. *)
Definition digitValue (c : ascii) : option Z :=
  if JS.isDigit c then Some (Z.of_nat (JS.code c - 48))
  else if JS.in_range "a" "f" c then Some (Z.of_nat (JS.code c - 87))
  else if JS.in_range "A" "F" c then Some (Z.of_nat (JS.code c - 55))
  else None.

(** StrWhiteSpaceChar below 256: TAB, LF, VT, FF, CR, SP and NBSP. *)
Definition isStrWhiteSpace (c : ascii) : bool :=
  ((9 <=? JS.code c) && (JS.code c <=? 13))
  || (JS.code c =? 32) || (JS.code c =? 160).

Fixpoint trimStart (str : jsstring) : jsstring :=
  match str with
  | c :: str' => if isStrWhiteSpace c then trimStart str' else str
  | [] => []
  end.

(** The number written by the longest prefix of digits, [NaN] when there
    is no digit. *)
Fixpoint parseDigits (str : jsstring) (acc : Z) (seen : bool) : jsnum :=
  match str with
  | c :: str' =>
      match digitValue c with
      | Some v => parseDigits str' (acc * 16 + v)%Z true
      | None => if seen then Num acc else NaN
      end
  | [] => if seen then Num acc else NaN
  end.

(** [parseInt(str, 16)]: leading white space, a sign and a [0x] mark are
    skipped, the digits that follow are read up to the first other
    character. *)
Definition parseInt (str : jsstring) : jsnum :=
  let s := trimStart str in
  let '(sign, s) := match s with
                    | c :: s' =>
                        if Ascii.eqb c "-" then ((-1)%Z, s')
                        else if Ascii.eqb c "+" then (1%Z, s')
                        else (1%Z, s)
                    | [] => (1%Z, s)
                    end in
  let s := if JS.startsWith s "0x" || JS.startsWith s "0X"
           then JS.slice s 2 else s in
  match parseDigits s 0 false with
  | Num z => Num (sign * z)
  | NaN => NaN
  end.

End Radix16.

(** [str.slice(-n)]: the last [n] characters, the whole of a shorter
    string. *)
Definition sliceFromEnd (str : jsstring) (n : nat) : jsstring :=
  JS.slice str (length str - n).

(** A [Uint8Array] is a list of octets, as [bytes] above. *)
Definition toHexString (byteArray : bytes) : jsstring :=
  fold_left
    (fun s byte =>
       s ++ sliceFromEnd
              ("0" ++ Radix16.toString
                        (Z.to_nat (Int32.and (Z.of_nat (JS.code byte)) 255)))
              2)
    byteArray [].

(** [str.match(/.{1,2}/g)]: the matches from left to right, each of two
    characters other than line terminators where two follow one another,
    of one otherwise; a line terminator is skipped.  The empty list stands
    for [null], which is what [match] returns when nothing matches. *)
Fixpoint matchPairs (str : jsstring) : list jsstring :=
  match str with
  | [] => []
  | c :: str' =>
      if JS.isLineTerminator c then matchPairs str'
      else match str' with
           | d :: str'' =>
               if JS.isLineTerminator d then [c] :: matchPairs str''
               else [c; d] :: matchPairs str''
           | [] => [[c]]
           end
  end.

(** The conversion of an array element stored into a [Uint8Array]. *)
Definition toUint8 (n : jsnum) : ascii :=
  match n with
  | NaN => zero
  | Num z => ascii_of_nat (Z.to_nat (z mod 256))
  end.

Definition hexToUint8Array (str : jsstring) : result bytes :=
  match matchPairs str with
  | [] => Throw "Cannot read property 'map' of null"
  | pairs => Return (map (fun byte => toUint8 (Radix16.parseInt byte)) pairs)
  end.

(** *** [getFileMimeType] *)

(** The two properties of a [File] that the sources read. *)
Record File := {
  name : jsstring;
  type : jsstring
}.

(** The [File] constructor of the platform, [new File(bits, name,
    { type })]: the name is taken as it is; a type that holds a character
    outside U+0020..U+007E becomes the empty string, any other type is put
    in ASCII lower case. *)
Definition isPrintableAscii (c : ascii) : bool :=
  (32 <=? JS.code c) && (JS.code c <=? 126).

Definition asciiLower (c : ascii) : ascii :=
  if JS.in_range "A" "Z" c then ascii_of_nat (JS.code c + 32) else c.

Definition normalizeType (t : jsstring) : jsstring :=
  if forallb isPrintableAscii t then map asciiLower t else [].

Definition File_new (fileName t : jsstring) : File :=
  {| name := fileName; type := normalizeType t |}.

(** [str.lastIndexOf(c)] for a one-character needle; [None] stands for -1 *)
Fixpoint lastIndexOf (str : jsstring) (c : ascii) : option nat :=
  match str with
  | [] => None
  | d :: str' =>
      match lastIndexOf str' c with
      | Some i => Some (S i)
      | None => if Ascii.eqb d c then Some 0 else None
      end
  end.

(** [arr.includes(str)] *)
Definition includes (arr : list jsstring) (str : jsstring) : bool :=
  existsb (fun x => JS.str_eqb x str) arr.

(** An entry of [mime-db]; [extensions] is optional. *)
Definition MimeDB := list (jsstring * option (list jsstring)).

(** The [for ... in] loop over the keys of the table, in their order. *)
Fixpoint firstTypeWith (db : MimeDB) (extension : jsstring)
  : option jsstring :=
  match db with
  | [] => None
  | (type, extensions) :: db' =>
      if match extensions with
         | Some exts => includes exts extension
         | None => false
         end
      then Some type
      else firstTypeWith db' extension
  end.

(** [file.name.slice(file.name.lastIndexOf(".") + 1)] *)
Definition extensionOf (fileName : jsstring) : jsstring :=
  JS.slice fileName
    (match lastIndexOf fileName "." with
     | Some i => i + 1
     | None => 0
     end).

Section Mime.

(** The table of the [mime-db] package. *)
Variable mimeDB : MimeDB.

Definition getFileMimeType (file : File) : jsstring :=
  match type file with
  | _ :: _ => type file
  | [] =>
      let extension := extensionOf (name file) in
      match extension with
      | _ :: _ =>
          match firstTypeWith mimeDB extension with
          | Some type => type
          | None => []
          end
      | [] => []
      end
  end.

(** [ensureFileObjectConsistency] of the upload module:
    [new File([file], file.name, { type: getFileMimeType(file) })]. *)
Definition ensureFileObjectConsistency (file : File) : File :=
  File_new (name file) (getFileMimeType file).

End Mime.

(** ** Further functions of the download module *)

(** What [downloadFile] and [openFile] do to the browser. *)
Inductive BrowserEffect : Type :=
| LocationAssign (url : jsstring)
| WindowOpen (url target : jsstring).

(** [{ ...opts, download: true }] *)
Definition withDownload (opts : DownloadOpts) : DownloadOpts :=
  {| endpointPath := endpointPath opts; path := path opts;
     query := query opts; subdomain := subdomain opts; download := true |}.

Section DownloadLinks.

Variable urljoin : jsstring -> jsstring -> jsstring.
Variable addUrlQuery : jsstring -> Query -> jsstring.
Variable URL : Type.
Variable URL_new : jsstring -> result URL.
Variable URL_hostname : URL -> jsstring.
Variable URL_setHostname : URL -> jsstring -> URL.
Variable URL_toString : URL -> jsstring.

(** The URL that is returned and what is done with it. *)
Definition downloadFile (portalUrl skylink : jsstring)
  (opts : DownloadOpts) : result (jsstring * list BrowserEffect) :=
  match getSkylinkUrl urljoin addUrlQuery URL URL_new URL_hostname
          URL_setHostname URL_toString portalUrl skylink
          (withDownload opts) with
  | Throw e => Throw e
  | Return url => Return (url, [LocationAssign url])
  end.

Definition openFile (portalUrl skylink : jsstring)
  (opts : DownloadOpts) : result (jsstring * list BrowserEffect) :=
  match getSkylinkUrl urljoin addUrlQuery URL URL_new URL_hostname
          URL_setHostname URL_toString portalUrl skylink opts with
  | Throw e => Throw e
  | Return url => Return (url, [WindowOpen url "_blank"])
  end.

(** The URL [getHnsUrl] builds before the query is added. *)
Definition hnsUrl (portalUrl domain : jsstring) (opts : DownloadOpts)
  (hnsSubdomain : jsstring) : result jsstring :=
  if subdomain opts
  then match addSubdomain URL URL_new URL_hostname URL_setHostname
               URL_toString portalUrl hnsSubdomain with
       | Throw e => Throw e
       | Return url =>
           addSubdomain URL URL_new URL_hostname URL_setHostname
             URL_toString url domain
       end
  else Return (makeUrl urljoin [portalUrl; endpointPath opts; domain]).

(** The merged options of [getHnsUrl] are those of [getSkylinkUrl]
    without [path] and with [hnsSubdomain], passed on its own here. *)
Definition getHnsUrl (portalUrl domain : jsstring) (opts : DownloadOpts)
  (hnsSubdomain : jsstring) : result jsstring :=
  let query0 := match query opts with Some q => q | None => [] end in
  let query1 := if download opts then setQuery query0 "attachment" "true"
                else query0 in
  let domain := trimUriPrefix domain uriHandshakePrefix in
  match hnsUrl portalUrl domain opts hnsSubdomain with
  | Throw e => Throw e
  | Return url => Return (addUrlQuery url query1)
  end.

Definition downloadFileHns (portalUrl domain : jsstring)
  (opts : DownloadOpts) (hnsSubdomain : jsstring)
  : result (jsstring * list BrowserEffect) :=
  match getHnsUrl portalUrl domain (withDownload opts) hnsSubdomain with
  | Throw e => Throw e
  | Return url => Return (url, [LocationAssign url])
  end.

Definition getHnsresUrl (portalUrl domain endpointPath : jsstring)
  : jsstring :=
  makeUrl urljoin
    [portalUrl; endpointPath; trimUriPrefix domain uriHandshakeResolverPrefix].

End DownloadLinks.

(** [query[k]] *)
Fixpoint getQuery (q : Query) (k : jsstring) : option jsstring :=
  match q with
  | [] => None
  | (k', v) :: q' => if JS.str_eqb k' k then Some v else getQuery q' k
  end.

(** ** Predicates used in the statements about these functions *)

(** Two slashes in a row somewhere in the string. *)
Fixpoint hasDoubleSlash (str : jsstring) : bool :=
  match str with
  | c :: str' =>
      (Ascii.eqb c "/" && match str' with
                          | d :: _ => Ascii.eqb d "/"
                          | [] => false
                          end)
      || hasDoubleSlash str'
  | [] => false
  end.

(** A character of a host name after its first label: no separator of
    the URL syntax, no line terminator and no white space. *)
Definition isDomainChar (c : ascii) : bool :=
  JS.isAlpha c || JS.isDigit c || Ascii.eqb c "-" || Ascii.eqb c "."
  || Ascii.eqb c "_".

Definition isSubdomainLabel (str : jsstring) : bool :=
  (length str =? 55) && forallb isSubdomainChar str.

Definition isLowerHexDigit (c : ascii) : bool :=
  JS.isDigit c || JS.in_range "a" "f" c.

(** The string made of [n] copies of [str]. *)
Definition copies (n : nat) (str : jsstring) : jsstring :=
  concat (repeat str n).

(** ** Values used in the statements *)

(** The identifier of the specification's concrete scenarios and its
    base-32 form. *)
Definition exampleSkylink : jsstring :=
  "XABvi7JtJbQSMAcDwnUnmp2FKDPjg8_tTTFP4BwMSxVdEg".
Definition exampleBase32 : jsstring :=
  "bg06v2tidkir84hg0s1s4t97jaeoaa1jse1svrad657u070c9calq4g".

Definition optsOnlyPathFromSubdomain : ParseOpts :=
  {| onlyPath := true; includePath := false; fromSubdomain := true |}.


(** The identifier that differs from the example in the last four bits of
    its last character. *)
Definition exampleSkylinkTwin : jsstring :=
  "XABvi7JtJbQSMAcDwnUnmp2FKDPjg8_tTTFP4BwMSxVdEh".

Definition exampleUser : User :=
  User_constructor "public key" "secret key".

Definition exampleFileID : FileID :=
  NewFileID "app" PublicUnencrypted "File.txt".

(** A signed entry as [setFile] submits it, here with a signature that
    belongs to no key. *)
Definition forgedEntry : SignedRegistryValue :=
  {| value := {| tweak := "tweak"; data := "sia:" ++ exampleSkylink;
                 revision := Num 0 |};
     signature := "00" |}.

(** What the two trimming loops compute when the affix is a slash: the
    string without its leading slashes. *)
Fixpoint dropSlashes (str : jsstring) : jsstring :=
  match str with
  | c :: str' => if Ascii.eqb c "/" then dropSlashes str' else str
  | [] => []
  end.

(** The part of an address in front of its query string and fragment. *)
Definition isQueryOrHashMark (c : ascii) : bool :=
  Ascii.eqb c "?" || Ascii.eqb c "#".

Definition beforeQueryOrHash (address : jsstring) : jsstring :=
  fst (JS.span (fun c => negb (isQueryOrHashMark c)) address).

(** A query string or fragment that follows the path, or nothing. *)
Definition isQueryOrFragment (suffix : jsstring) : bool :=
  match suffix with
  | [] => true
  | c :: _ => isQueryOrHashMark c
  end.

Definition noQueryOrHashMark (str : jsstring) : bool :=
  forallb (fun c => negb (isQueryOrHashMark c)) str.

(** The pathname [UrlParse.parse] computes, as a function of what
    [extractProtocol] returns. *)
Definition pathnameFrom (slashes : bool) (rest : jsstring) : jsstring :=
  let address := snd (UrlParse.cutBack (snd (UrlParse.cutBack rest "#")) "?") in
  let address := JS.replaceFirst address UrlParse.backslash "/" in
  if slashes then fst (UrlParse.cutBack address "/")
  else UrlParse.firstLine address.

(** What follows the scheme of an address, and the pathname as a function
    of it. *)
Definition afterScheme (address : jsstring) : jsstring :=
  snd (UrlParse.matchScheme (UrlParse.trimLeft address)).

Definition pathnameAfter (after : jsstring) : jsstring :=
  if JS.startsWith after "//" then pathnameFrom true (JS.slice after 2)
  else pathnameFrom false after.

(** A character that ends a scheme without completing it: neither white
    space, nor a scheme character, nor the colon. *)
Definition isInert (c : ascii) : bool :=
  negb (UrlParse.isWhitespace c) && negb (UrlParse.isSchemeChar c)
  && negb (Ascii.eqb c ":").

Definition inertHead (str : jsstring) : bool :=
  match str with
  | [] => true
  | c :: _ => isInert c
  end.

(** The trimmed pathname [parseSkylink] matches against, and the result it
    derives from it. *)
Definition skylinkAndPathOf (skylinkStr : jsstring) : jsstring :=
  trimSuffix
    (UrlParse.pathname
       (UrlParse.parse (trimUriPrefix skylinkStr uriSkynetPrefix))) "/".

Definition resultFromPath (skylinkAndPath : jsstring) (opts : ParseOpts)
  : result (option jsstring) :=
  match matchPathname skylinkAndPath with
  | None => Return None
  | Some (m1, m2) =>
      let path := if JS.str_eqb m2 "/" then [] else m2 in
      if includePath opts then Return (Some (trimForwardSlash skylinkAndPath))
      else if onlyPath opts then Return (Some path)
      else Return (Some m1)
  end.

(** A valid identifier: 46 characters of the URL-safe base-64 alphabet. *)
Definition isSkylink (str : jsstring) : bool :=
  (length str =? 46) && forallb isSkylinkChar str.

(** The supported textual wrappings of an identifier with its trailing
    path: bare, behind [sia:] or [sia://], or as the first path element of
    a URL with a scheme and an authority. *)
Inductive Wrapping : Type :=
| Bare
| SiaColon
| SiaSlashes
| InUrl (scheme host : jsstring).

Definition wrap (w : Wrapping) (body : jsstring) : jsstring :=
  match w with
  | Bare => body
  | SiaColon => "sia:" ++ body
  | SiaSlashes => "sia://" ++ body
  | InUrl scheme host => scheme ++ "://" ++ host ++ "/" ++ body
  end.

(** A scheme name is a letter followed by scheme characters. *)
Definition isSchemeName (name : jsstring) : bool :=
  match name with
  | c :: run => JS.isAlpha c && forallb UrlParse.isSchemeChar run
  | [] => false
  end.

(** A host holds no slash, backslash, question mark or hash mark. *)
Definition isHostChar (c : ascii) : bool :=
  negb (Ascii.eqb c "/") && negb (Ascii.eqb c UrlParse.backslash)
  && negb (isQueryOrHashMark c).

Definition wellFormedWrapping (w : Wrapping) : bool :=
  match w with
  | InUrl scheme host =>
      isSchemeName scheme
      && negb (JS.startsWith (scheme ++ "://") uriSkynetPrefix)
      && forallb isHostChar host
  | _ => true
  end.

(** A trailing path is empty or starts with a slash, and holds no
    backslash, question mark, hash mark or line terminator. *)
Definition isPathChar (c : ascii) : bool :=
  negb (Ascii.eqb c UrlParse.backslash) && negb (isQueryOrHashMark c)
  && negb (JS.isLineTerminator c).

Definition isTrailingPath (p : jsstring) : bool :=
  match p with
  | [] => true
  | c :: _ => Ascii.eqb c "/" && forallb isPathChar p
  end.

(** The 6-bit value [toByteArray] reads for a character, the 6-bit values
    of a string, and the character of a 5-bit value in the lower-case
    base-32 alphabet. *)
Definition sextetOfChar (c : ascii) : Z :=
  match Base64.revLookup c with
  | Some v => v
  | None => 0%Z
  end.

Definition sextetsOf (str : jsstring) : list Z := map sextetOfChar str.

Definition char32 (q : Z) : ascii :=
  nth (Z.to_nat q) FromBase32.alphabet32 "0"%char.

Definition inRange (b : Z) (ds : list Z) : Prop :=
  Forall (fun d => (0 <= d < b)%Z) ds.

(** A canonical identifier: the four bits of its last character that fall
    outside the 34 bytes are zero.  A canonical base-32 form: 55 characters
    of the lower-case alphabet, the three bits of the last one that fall
    outside the 34 bytes being zero. *)
Definition isCanonicalSkylink (str : jsstring) : bool :=
  isSkylink str
  && Z.eqb (sextetOfChar (nth 45 str "A"%char) mod 16) 0.

Definition isBase32Char (c : ascii) : bool :=
  JS.isDigit c || JS.in_range "a" "v" c.

Definition isCanonicalBase32 (str : jsstring) : bool :=
  (length str =? 55) && forallb isBase32Char str
  && match FromBase32.value32 (nth 54 str "0"%char) with
     | Some v => Z.eqb (v mod 8) 0
     | None => false
     end.

(** The bytes written by [k] turns of the main loop of [toByteArray] that
    start at index [i]. *)
Definition quadsFrom (k : nat) (b64 : jsstring) (i : nat) : list Z :=
  flat_map (fun j => Base64.quad b64 (i + 4 * j)) (seq 0 k).

(** The output of [base32Encode] for a list of 5-bit values. *)
Definition qchars (qs : list Z) : jsstring := flat_map Base32.at_ qs.

(** The host name [UrlParse.parse] computes, as a function of what
    [extractProtocol] returns and of what follows the scheme. *)
Definition hostnameFrom (slashes : bool) (rest : jsstring) : jsstring :=
  let address := snd (UrlParse.cutBack (snd (UrlParse.cutBack rest "#")) "?") in
  let address := JS.replaceFirst address UrlParse.backslash "/" in
  let address := if slashes then snd (UrlParse.cutBack address "/") else [] in
  let address := snd (UrlParse.cutFront address "@") in
  JS.toLowerCase (snd (UrlParse.cutPort address)).

Definition hostnameAfter (after : jsstring) : jsstring :=
  if JS.startsWith after "//" then hostnameFrom true (JS.slice after 2)
  else hostnameFrom false after.

(** What follows the first label of a host name: nothing, or a dot and the
    rest of the domain. *)
Definition isHostTail (tail : jsstring) : bool :=
  match tail with
  | [] => true
  | c :: domain => Ascii.eqb c "." && forallb isDomainChar domain
  end.

(** No padding character in a string. *)
Definition noPadding (str : jsstring) : bool :=
  forallb (fun c => negb (Ascii.eqb c "=")) str.

(** The query object [getSkylinkUrl] and [getHnsUrl] hand to
    [addUrlQuery]: [opts.query ?? {}], with [attachment] set when
    [opts.download] is truthy. *)
Definition queryOf (opts : DownloadOpts) : Query :=
  let query0 := match query opts with Some q => q | None => [] end in
  if download opts then setQuery query0 "attachment" "true" else query0.


(** * Properties *)

(** ** Mode flags of [parseSkylink] *)

(** C9, counterexample: with [onlyPath] and [fromSubdomain] both set the
    call does not throw; on a subdomain URL it returns the URL's path. *)
Lemma parseSkylink_onlyPath_fromSubdomain_returns :
  onlyPath optsOnlyPathFromSubdomain && fromSubdomain optsOnlyPathFromSubdomain
    = true
  /\ parseSkylink ("https://" ++ exampleBase32 ++ ".siasky.net/foo/bar")
        optsOnlyPathFromSubdomain
      = Return (Some ("/foo/bar" : jsstring))
  /\ forall msg,
       parseSkylink ("https://" ++ exampleBase32 ++ ".siasky.net/foo/bar")
         optsOnlyPathFromSubdomain <> Throw msg.
Proof.
  split; [reflexivity|].
  assert (E : parseSkylink
                ("https://" ++ exampleBase32 ++ ".siasky.net/foo/bar")
                optsOnlyPathFromSubdomain
              = Return (Some ("/foo/bar" : jsstring)))
    by (vm_compute; reflexivity).
  split; [exact E|].
  intros msg H. rewrite E in H. discriminate H.
Qed.

(** C9, amended: [parseSkylink] throws exactly when [includePath] comes
    with [onlyPath] or with [fromSubdomain], whatever the input; with
    [onlyPath] and [fromSubdomain] together (and no [includePath]) it
    returns what [parseSkylinkBase32] returns, the URL's path when the host
    name starts with a base-32 skylink and null otherwise. *)
Theorem parseSkylink_throws_iff (skylinkStr : jsstring) (opts : ParseOpts) :
  ((exists msg, parseSkylink skylinkStr opts = Throw msg)
   <-> includePath opts && (onlyPath opts || fromSubdomain opts) = true)
  /\ parseSkylink skylinkStr optsOnlyPathFromSubdomain
      = Return
          (match matchSubdomain (UrlParse.hostname (UrlParse.parse skylinkStr)) with
           | Some _ => Some (UrlParse.pathname (UrlParse.parse skylinkStr))
           | None => None
           end).
Proof.
  split.
  - unfold parseSkylink.
    destruct (includePath opts), (onlyPath opts), (fromSubdomain opts);
      cbn [andb orb]; split; intros H; try reflexivity; try discriminate H;
      try (eexists; reflexivity); destruct H as [msg H];
      try discriminate H;
      (destruct (matchDirect _); [discriminate H|]);
      destruct (matchPathname _) as [[m1 m2]|]; discriminate H.
  - unfold parseSkylink, parseSkylinkBase32.
    cbn [includePath onlyPath fromSubdomain optsOnlyPathFromSubdomain andb].
    destruct (matchSubdomain _); reflexivity.
Qed.

(** ** The concrete conversion *)

(** C7: the 46-character identifier of the specification converts to its
    55-character lower-case base-32 form. *)
Theorem convertSkylinkToBase32_example :
  length exampleSkylink = 46
  /\ length exampleBase32 = 55
  /\ convertSkylinkToBase32 exampleSkylink = Return exampleBase32
  /\ JS.toLowerCase exampleBase32 = exampleBase32.
Proof. repeat split; vm_compute; reflexivity. Qed.

(** ** SkyDB *)

Lemma str_eqb_refl (a : jsstring) : JS.str_eqb a a = true.
Proof.
  induction a as [|c a IH]; cbn; [reflexivity|].
  now rewrite Ascii.eqb_refl.
Qed.

Lemma str_eqb_eq (a b : jsstring) : JS.str_eqb a b = true <-> a = b.
Proof.
  split.
  - revert b. induction a as [|c a IH]; destruct b as [|d b]; cbn;
      try reflexivity; try discriminate.
    intros H. apply andb_prop in H. destruct H as [H1 H2].
    apply Ascii.eqb_eq in H1. subst d. f_equal. now apply IH.
  - intros ->. apply str_eqb_refl.
Qed.

Lemma FileID_eqb_refl (f : FileID) : FileID_eqb f f = true.
Proof.
  unfold FileID_eqb. now rewrite !Z.eqb_refl, !str_eqb_refl.
Qed.






Section SkyDBProperties.

Variable ed25519_sign : bytes -> bytes -> jsstring.
Variable hashAll : list jsval -> bytes.
Variable SkyFile : Type.
Variable uploadedSkylink : SkyFile -> jsstring -> jsstring.


(** C1, the code at the failing input: of two writes in a row for the
    same user and FileID, starting from an empty registry, the first
    submits revision 0 and the second, which finds the entry of the
    first, submits NaN: the object found has no property [Revision]. *)
Theorem setFile_twice_revisions (user : User) (fileID : FileID)
  (file1 file2 : SkyFile) :
  exists e1 e2,
    setFile ed25519_sign hashAll SkyFile uploadedSkylink (lookupAfter [])
      user fileID file1
    = Return [UpdateRegistry user fileID e1]
    /\ revision (value e1) = Num 0
    /\ setFile ed25519_sign hashAll SkyFile uploadedSkylink
         (lookupAfter [UpdateRegistry user fileID e1]) user fileID file2
       = Return [UpdateRegistry user fileID e2]
    /\ revision (value e2) = NaN
    /\ revision (value e2) <> Num 1.
Proof.
  eexists. eexists. split; [reflexivity|]. split; [reflexivity|].
  unfold setFile. cbn [lookupAfter].
  rewrite str_eqb_refl, FileID_eqb_refl. cbn [andb].
  split; [reflexivity|]. split; [reflexivity|]. discriminate.
Qed.

(** The revision [setFile] submits when the entry found does carry a
    numeric property [Revision]: the postfix increment yields the value
    before the increment, so the revision found is submitted again. *)
Lemma setFile_revision_is_old_value
  (lookupRegistry : User -> FileID -> option jsobject)
  (user : User) (fileID : FileID) (file : SkyFile)
  (existing : jsobject) (currentRevision : Z)
  (Hfound : lookupRegistry user fileID = Some existing)
  (Hrev : Value.getProp existing "Revision" = VNumber (Num currentRevision)) :
  exists e,
    setFile ed25519_sign hashAll SkyFile uploadedSkylink lookupRegistry
      user fileID file
    = Return [UpdateRegistry user fileID e]
    /\ revision (value e) = Num currentRevision
    /\ revision (value e) <> Num (currentRevision + 1).
Proof.
  eexists. split; [reflexivity|].
  cbn [value revision]. rewrite Hfound. unfold Value.postIncrement.
  cbn [fst]. rewrite Hrev. cbn [Value.toNumber].
  split; [reflexivity|]. intros H. injection H as H. lia.
Qed.

End SkyDBProperties.


(** ** Reading an entry *)

(** C2, counterexample: [getFile] checks no signature.  Whatever the
    verification procedure, an entry it rejects is handed to the download
    all the same. *)
Lemma getFile_surfaces_unverified_entry :
  ~ (forall (verify : bytes -> jsobject -> bool)
            (lookupRegistry : User -> FileID -> option jsobject)
            (user : User) (fileID : FileID) (entry : jsobject),
        lookupRegistry user fileID = Some entry ->
        verify (publicKey user) entry = false ->
        getFile lookupRegistry user fileID = Throw "VerificationFailed").
Proof.
  intros H.
  specialize (H (fun _ _ => false) (fun _ _ => Some (entryObject forgedEntry))
                exampleUser exampleFileID (entryObject forgedEntry)
                eq_refl eq_refl).
  vm_compute in H. discriminate H.
Qed.

Lemma getProp_setProp_other (obj : jsobject) (k k' : jsstring) (v : jsval) :
  JS.str_eqb k' k = false ->
  Value.getProp (Value.setProp obj k' v) k = Value.getProp obj k.
Proof.
  intros Hk. induction obj as [|[k0 v0] obj IH]; cbn.
  - now rewrite Hk.
  - destruct (JS.str_eqb k0 k') eqn:E0; cbn.
    + apply str_eqb_eq in E0. subst k0. now rewrite Hk.
    + destruct (JS.str_eqb k0 k); [reflexivity|exact IH].
Qed.

(** C2, amended: [getFile] fails with "not found" when the registry holds
    no entry; when it holds one, the entry's [value.data] is handed to the
    download without any check of the signature: the outcome is that of
    the same entry under any other signature. *)
Theorem getFile_checks_no_signature (user : User) (fileID : FileID) :
  getFile (fun _ _ => None) user fileID = Throw "not found"
  /\ (forall e : SignedRegistryValue,
        getFile (fun _ _ => Some (entryObject e)) user fileID
        = Return [DownloadFile (VString (data (value e)))])
  /\ (forall (entry : jsobject) (sig : jsval),
        getFile (fun _ _ => Some (Value.setProp entry "signature" sig))
          user fileID
        = getFile (fun _ _ => Some entry) user fileID).
Proof.
  split; [reflexivity|]. split; [reflexivity|].
  intros entry sig. unfold getFile.
  now rewrite getProp_setProp_other by reflexivity.
Qed.

(** ** Encoding of the path option *)

Lemma split_not_nil (str : jsstring) (sep : ascii) : JS.split str sep <> [].
Proof.
  destruct str as [|c str]; cbn; [discriminate|].
  destruct (Ascii.eqb c sep); [discriminate|].
  destruct (JS.split str sep); discriminate.
Qed.







(** ** The trimming loops *)

Lemma startsWith_nil (str : jsstring) : JS.startsWith str [] = true.
Proof. destruct str; reflexivity. Qed.

Lemma startsWith_slash (str : jsstring) :
  JS.startsWith str "/"
  = match str with c :: _ => Ascii.eqb c "/" | [] => false end.
Proof.
  destruct str as [|c str]; [reflexivity|]. cbn.
  now rewrite startsWith_nil, andb_true_r, Ascii.eqb_sym.
Qed.

Lemma trimPrefix_loop_slash (fuel : nat) (str : jsstring) :
  length str <= fuel -> trimPrefix_loop fuel str "/" = dropSlashes str.
Proof.
  revert str. induction fuel as [|fuel IH]; intros str Hlen.
  - destruct str; [reflexivity|cbn in Hlen; lia].
  - cbn [trimPrefix_loop]. rewrite startsWith_slash.
    destruct str as [|c str]; [reflexivity|].
    cbn [dropSlashes]. destruct (Ascii.eqb c "/"); [|reflexivity].
    cbn in Hlen. apply IH. cbn. lia.
Qed.

Lemma trimPrefix_slash (str : jsstring) : trimPrefix str "/" = dropSlashes str.
Proof. apply trimPrefix_loop_slash. lia. Qed.

Lemma firstn_pred_rev_cons (c : ascii) (r : jsstring) :
  JS.substring0 (rev (c :: r)) (length (rev (c :: r)) - length ("/" : jsstring))
  = rev r.
Proof.
  unfold JS.substring0. cbn [rev length list_ascii_of_string].
  rewrite length_app. cbn [length].
  replace (length (rev r) + 1 - 1) with (length (rev r) + 0) by lia.
  now rewrite firstn_app_2, app_nil_r.
Qed.

Lemma trimSuffix_loop_slash (fuel : nat) (r : jsstring) :
  length r <= fuel ->
  trimSuffix_loop fuel (rev r) "/" = rev (dropSlashes r).
Proof.
  revert r. induction fuel as [|fuel IH]; intros r Hlen.
  - destruct r; [reflexivity|cbn in Hlen; lia].
  - cbn [trimSuffix_loop]. unfold JS.endsWith. rewrite rev_involutive.
    change (rev ("/" : jsstring)) with ("/" : jsstring).
    rewrite startsWith_slash.
    destruct r as [|c r]; [reflexivity|].
    cbn [dropSlashes]. destruct (Ascii.eqb c "/"); [|reflexivity].
    rewrite firstn_pred_rev_cons. apply IH. cbn in Hlen. lia.
Qed.

Lemma trimSuffix_slash (str : jsstring) :
  trimSuffix str "/" = rev (dropSlashes (rev str)).
Proof.
  unfold trimSuffix. rewrite <- (rev_involutive str) at 2.
  apply trimSuffix_loop_slash. now rewrite length_rev.
Qed.

(** The loops have left once their fuel is spent: the result no longer
    starts (ends) with a slash. *)
Lemma dropSlashes_no_slash (str : jsstring) :
  JS.startsWith (dropSlashes str) "/" = false.
Proof.
  induction str as [|c str IH]; [reflexivity|]. cbn [dropSlashes].
  destruct (Ascii.eqb c "/") eqn:E; [exact IH|].
  rewrite startsWith_slash. exact E.
Qed.

Lemma trimPrefix_slash_done (str : jsstring) :
  JS.startsWith (trimPrefix str "/") "/" = false.
Proof. rewrite trimPrefix_slash. apply dropSlashes_no_slash. Qed.

Lemma trimSuffix_slash_done (str : jsstring) :
  JS.endsWith (trimSuffix str "/") "/" = false.
Proof.
  rewrite trimSuffix_slash. unfold JS.endsWith. rewrite rev_involutive.
  apply dropSlashes_no_slash.
Qed.

Lemma trimSuffix_app_slash (str : jsstring) :
  trimSuffix (str ++ "/") "/" = trimSuffix str "/".
Proof.
  rewrite !trimSuffix_slash, rev_app_distr. reflexivity.
Qed.

Lemma trimSuffix_app_slashes (str : jsstring) (n : nat) :
  trimSuffix (str ++ repeat "/"%char n) "/" = trimSuffix str "/".
Proof.
  induction n as [|n IH]; [now rewrite app_nil_r|].
  cbn [repeat]. rewrite repeat_cons, app_assoc.
  change [ "/"%char ] with ("/" : jsstring).
  rewrite trimSuffix_app_slash. exact IH.
Qed.

Lemma trimSuffix_idem (str : jsstring) :
  trimSuffix (trimSuffix str "/") "/" = trimSuffix str "/".
Proof.
  rewrite !trimSuffix_slash, rev_involutive. f_equal.
  generalize (rev str). intros r.
  induction r as [|c r IH]; [reflexivity|]. cbn [dropSlashes].
  destruct (Ascii.eqb c "/") eqn:E; [exact IH|]. cbn [dropSlashes]. now rewrite E.
Qed.

(** ** The URL parser *)

Lemma span_spec (p : ascii -> bool) (str run after : jsstring) :
  JS.span p str = (run, after) ->
  str = run ++ after /\ forallb p run = true
  /\ match after with [] => True | d :: _ => p d = false end.
Proof.
  revert run after. induction str as [|c str IH]; intros run after H.
  - cbn in H. injection H as <- <-. auto.
  - cbn in H. destruct (p c) eqn:Ec.
    + destruct (JS.span p str) as [a b]. injection H as <- <-.
      destruct (IH a b eq_refl) as (-> & Ha & Hb). cbn. rewrite Ec. auto.
    + injection H as <- <-. cbn. auto.
Qed.

Lemma span_app_stop (p : ascii -> bool) (a b : jsstring) :
  forallb p a = true ->
  match b with [] => True | d :: _ => p d = false end ->
  JS.span p (a ++ b) = (a, b).
Proof.
  intros Ha Hb. induction a as [|c a IH]; cbn.
  - destruct b as [|d b]; [reflexivity|]. cbn. now rewrite Hb.
  - cbn in Ha. apply andb_prop in Ha. destruct Ha as [Hc Ha].
    now rewrite Hc, (IH Ha).
Qed.

Lemma span_app_r (p : ascii -> bool) (a b : jsstring) :
  match b with [] => True | d :: _ => p d = false end ->
  JS.span p (a ++ b) = (fst (JS.span p a), snd (JS.span p a) ++ b).
Proof.
  intros Hb. induction a as [|c a IH]; cbn.
  - destruct b as [|d b]; [reflexivity|]. cbn. now rewrite Hb.
  - destruct (p c); [|reflexivity].
    rewrite IH. now destruct (JS.span p a).
Qed.

Lemma indexOf_none (str : jsstring) (c : ascii) :
  forallb (fun d => negb (Ascii.eqb d c)) str = true ->
  JS.indexOf str c = None.
Proof.
  induction str as [|d str IH]; [reflexivity|]. cbn. intros H.
  apply andb_prop in H. destruct H as [Hd H].
  apply negb_true_iff in Hd. now rewrite Hd, (IH H).
Qed.

Lemma indexOf_app_found (a b : jsstring) (c : ascii) :
  forallb (fun d => negb (Ascii.eqb d c)) a = true ->
  JS.indexOf (a ++ c :: b) c = Some (length a).
Proof.
  induction a as [|d a IH]; cbn; intros H.
  - now rewrite Ascii.eqb_refl.
  - apply andb_prop in H. destruct H as [Hd H].
    apply negb_true_iff in Hd. now rewrite Hd, (IH H).
Qed.

Lemma cutBack_none (str : jsstring) (c : ascii) :
  forallb (fun d => negb (Ascii.eqb d c)) str = true ->
  UrlParse.cutBack str c = ([], str).
Proof. intros H. unfold UrlParse.cutBack. now rewrite indexOf_none. Qed.

Lemma cutBack_found (a b : jsstring) (c : ascii) :
  forallb (fun d => negb (Ascii.eqb d c)) a = true ->
  UrlParse.cutBack (a ++ c :: b) c = (c :: b, a).
Proof.
  intros H. unfold UrlParse.cutBack, JS.slice, JS.substring0.
  rewrite indexOf_app_found by exact H.
  rewrite skipn_app, firstn_app, Nat.sub_diag, skipn_all, firstn_all.
  cbn. now rewrite app_nil_r.
Qed.

(** Cutting the fragment and then the query string off an address leaves
    what stands in front of the first of the two marks. *)
Lemma cut_hash_query (a suffix : jsstring) :
  noQueryOrHashMark a = true -> isQueryOrFragment suffix = true ->
  snd (UrlParse.cutBack (snd (UrlParse.cutBack (a ++ suffix) "#")) "?") = a.
Proof.
  intros Ha Hs.
  assert (Hh : forallb (fun d => negb (Ascii.eqb d "#")) a = true).
  { unfold noQueryOrHashMark in Ha. rewrite forallb_forall in *.
    intros d Hd. specialize (Ha d Hd). unfold isQueryOrHashMark in Ha.
    rewrite negb_orb in Ha. now apply andb_prop in Ha. }
  assert (Hq : forallb (fun d => negb (Ascii.eqb d "?")) a = true).
  { unfold noQueryOrHashMark in Ha. rewrite forallb_forall in *.
    intros d Hd. specialize (Ha d Hd). unfold isQueryOrHashMark in Ha.
    rewrite negb_orb in Ha. now apply andb_prop in Ha. }
  destruct suffix as [|c suffix].
  - rewrite app_nil_r, (cutBack_none a "#" Hh). cbn [snd].
    now rewrite (cutBack_none a "?" Hq).
  - cbn in Hs. unfold isQueryOrHashMark in Hs.
    destruct (Ascii.eqb c "#") eqn:Ec.
    + apply Ascii.eqb_eq in Ec. subst c.
      rewrite (cutBack_found a suffix "#" Hh). cbn [snd].
      now rewrite (cutBack_none a "?" Hq).
    + rewrite orb_false_r in Hs. apply Ascii.eqb_eq in Hs. subst c.
      destruct (UrlParse.cutBack (a ++ "?"%char :: suffix) "#") as [h r] eqn:Eh.
      unfold UrlParse.cutBack in Eh.
      destruct (JS.indexOf (a ++ "?"%char :: suffix) "#") as [i|] eqn:Ei.
      * (* the fragment starts behind the question mark *)
        assert (Hi : length a < i).
        { clear - Ei Hh. revert i Ei. induction a as [|d a IH]; intros i Ei.
          - cbn in Ei. destruct (JS.indexOf suffix "#"); [|discriminate].
            injection Ei as <-. cbn. lia.
          - cbn in Hh. apply andb_prop in Hh. destruct Hh as [Hd Hh].
            apply negb_true_iff in Hd. cbn in Ei. rewrite Hd in Ei.
            destruct (JS.indexOf (a ++ "?"%char :: suffix) "#") as [j|] eqn:Ej;
              [|discriminate].
            injection Ei as <-. specialize (IH Hh j eq_refl). cbn. lia. }
        injection Eh as <- <-. cbn [snd]. unfold JS.substring0.
        rewrite firstn_app.
        rewrite (firstn_all2 (n := i) a) by lia.
        destruct (i - length a) as [|k] eqn:Ek; [lia|]. cbn [firstn].
        now rewrite (cutBack_found a (firstn k suffix) "?" Hq).
      * injection Eh as <- <-. cbn [snd].
        now rewrite (cutBack_found a suffix "?" Hq).
Qed.

Lemma pathname_parse (x : jsstring) :
  UrlParse.pathname (UrlParse.parse x)
  = pathnameFrom
      (UrlParse.ex_slashes (UrlParse.extractProtocol (UrlParse.trimLeft x)))
      (UrlParse.ex_rest (UrlParse.extractProtocol (UrlParse.trimLeft x))).
Proof.
  unfold UrlParse.parse, pathnameFrom.
  destruct (UrlParse.extractProtocol (UrlParse.trimLeft x)) as [pr sl rest].
  cbn [UrlParse.ex_slashes UrlParse.ex_rest UrlParse.ex_protocol].
  destruct (UrlParse.cutBack rest "#") as [h a1]. cbn [snd].
  destruct (UrlParse.cutBack a1 "?") as [q a2]. cbn [snd].
  destruct sl.
  - destruct (UrlParse.cutBack _ "/") as [pn a3]. cbn [fst].
    destruct (UrlParse.cutFront a3 "@") as [au a4].
    destruct (UrlParse.cutPort a4) as [po a5]. reflexivity.
  - destruct (UrlParse.cutFront [] "@") as [au a4].
    destruct (UrlParse.cutPort a4) as [po a5]. reflexivity.
Qed.

Lemma trimLeft_idem (x : jsstring) :
  UrlParse.trimLeft (UrlParse.trimLeft x) = UrlParse.trimLeft x.
Proof.
  induction x as [|c x IH]; [reflexivity|]. cbn [UrlParse.trimLeft].
  destruct (UrlParse.isWhitespace c) eqn:E; [exact IH|].
  cbn [UrlParse.trimLeft]. now rewrite E.
Qed.

Lemma isInert_parts (c : ascii) :
  isInert c = true ->
  UrlParse.isWhitespace c = false /\ UrlParse.isSchemeChar c = false
  /\ Ascii.eqb c ":" = false.
Proof.
  unfold isInert. intros H.
  apply andb_prop in H. destruct H as [H H3].
  apply andb_prop in H. destruct H as [H1 H2].
  now rewrite negb_true_iff in H1, H2, H3.
Qed.

Lemma isAlpha_isSchemeChar (c : ascii) :
  JS.isAlpha c = true -> UrlParse.isSchemeChar c = true.
Proof. unfold UrlParse.isSchemeChar. now intros ->. Qed.

Lemma trimLeft_app (a b : jsstring) :
  inertHead b = true ->
  UrlParse.trimLeft (a ++ b) = UrlParse.trimLeft a ++ b.
Proof.
  intros Hb. induction a as [|c a IH].
  - destruct b as [|d b]; [reflexivity|]. cbn in *.
    apply isInert_parts in Hb. destruct Hb as (-> & _). reflexivity.
  - cbn. destruct (UrlParse.isWhitespace c); [exact IH|reflexivity].
Qed.

Lemma matchScheme_app (a b : jsstring) :
  inertHead b = true ->
  UrlParse.matchScheme (a ++ b)
  = (fst (UrlParse.matchScheme a), snd (UrlParse.matchScheme a) ++ b).
Proof.
  intros Hb. destruct a as [|c a].
  - destruct b as [|d b]; [reflexivity|]. cbn in Hb.
    apply isInert_parts in Hb. destruct Hb as (_ & Hs & _).
    cbn. destruct (JS.isAlpha d) eqn:Ea; [|reflexivity].
    apply isAlpha_isSchemeChar in Ea. congruence.
  - cbn [app UrlParse.matchScheme].
    destruct (JS.isAlpha c); [|reflexivity].
    rewrite span_app_r.
    2:{ destruct b as [|d b]; [exact I|]. cbn in Hb.
        now apply isInert_parts in Hb. }
    destruct (JS.span UrlParse.isSchemeChar a) as [run after]. cbn [fst snd].
    destruct after as [|d after].
    + destruct b as [|e b]; [reflexivity|]. cbn in Hb.
      apply isInert_parts in Hb. destruct Hb as (_ & _ & He).
      cbn. now rewrite He.
    + cbn. destruct (Ascii.eqb d ":"); reflexivity.
Qed.

Lemma afterScheme_app (a b : jsstring) :
  inertHead b = true -> afterScheme (a ++ b) = afterScheme a ++ b.
Proof.
  intros Hb. unfold afterScheme.
  now rewrite trimLeft_app, matchScheme_app.
Qed.

Lemma pathname_parse_after (x : jsstring) :
  UrlParse.pathname (UrlParse.parse x) = pathnameAfter (afterScheme x).
Proof.
  rewrite pathname_parse. unfold UrlParse.extractProtocol, pathnameAfter, afterScheme.
  rewrite trimLeft_idem.
  destruct (UrlParse.matchScheme (UrlParse.trimLeft x)) as [scheme after].
  cbn [snd]. destruct (JS.startsWith after "//"); reflexivity.
Qed.

(** What is left of a string is free of question and hash marks when the
    string is. *)
Lemma noQueryOrHashMark_app (a b : jsstring) :
  noQueryOrHashMark (a ++ b) = noQueryOrHashMark a && noQueryOrHashMark b.
Proof. apply forallb_app. Qed.

Lemma noQueryOrHashMark_skipn (n : nat) (a : jsstring) :
  noQueryOrHashMark a = true -> noQueryOrHashMark (skipn n a) = true.
Proof.
  intros H. rewrite <- (firstn_skipn n a), noQueryOrHashMark_app in H.
  now apply andb_prop in H.
Qed.

Lemma trimLeft_suffix (x : jsstring) :
  exists n, UrlParse.trimLeft x = skipn n x.
Proof.
  induction x as [|c x [n IH]]; [now exists 0|]. cbn.
  destruct (UrlParse.isWhitespace c); [now exists (S n)|now exists 0].
Qed.

Lemma matchScheme_suffix (x : jsstring) :
  exists n, snd (UrlParse.matchScheme x) = skipn n x.
Proof.
  destruct x as [|c x]; [now exists 0|]. cbn.
  destruct (JS.isAlpha c); [|now exists 0].
  destruct (JS.span UrlParse.isSchemeChar x) as [run after] eqn:Es.
  destruct after as [|d after]; [now exists 0|].
  destruct (Ascii.eqb d ":"); [|now exists 0].
  apply span_spec in Es. destruct Es as (-> & _ & _).
  exists (S (length run + 1)). cbn [snd skipn].
  rewrite skipn_app.
  rewrite skipn_all2 by lia.
  replace (length run + 1 - length run) with 1 by lia. reflexivity.
Qed.

Lemma noQueryOrHashMark_afterScheme (x : jsstring) :
  noQueryOrHashMark x = true -> noQueryOrHashMark (afterScheme x) = true.
Proof.
  intros H. unfold afterScheme.
  destruct (matchScheme_suffix (UrlParse.trimLeft x)) as [n ->].
  destruct (trimLeft_suffix x) as [m ->].
  now do 2 apply noQueryOrHashMark_skipn.
Qed.

Lemma span_app_full (p : ascii -> bool) (a b : jsstring) :
  JS.span p (a ++ b)
  = if forallb p a then (a ++ fst (JS.span p b), snd (JS.span p b))
    else (fst (JS.span p a), snd (JS.span p a) ++ b).
Proof.
  induction a as [|c a IH]; cbn.
  - now destruct (JS.span p b).
  - destruct (p c); cbn; [|reflexivity].
    rewrite IH. destruct (forallb p a); [reflexivity|].
    now destruct (JS.span p a).
Qed.

Lemma cutBack_span (r : jsstring) (c : ascii) :
  UrlParse.cutBack r c
  = (snd (JS.span (fun d => negb (Ascii.eqb d c)) r),
     fst (JS.span (fun d => negb (Ascii.eqb d c)) r)).
Proof.
  unfold UrlParse.cutBack, JS.slice, JS.substring0.
  induction r as [|d r IH]; [reflexivity|]. cbn.
  destruct (Ascii.eqb d c); cbn; [reflexivity|].
  destruct (JS.indexOf r c) as [i|];
    destruct (JS.span (fun d0 => negb (Ascii.eqb d0 c)) r) as [x y];
    cbn in *; injection IH as <- <-; reflexivity.
Qed.

Lemma isQueryOrFragment_inert (suffix : jsstring) :
  isQueryOrFragment suffix = true -> inertHead suffix = true.
Proof.
  destruct suffix as [|c suffix]; [reflexivity|]. cbn.
  unfold isQueryOrHashMark. intros H. apply orb_prop in H.
  destruct H as [H|H]; apply Ascii.eqb_eq in H; subst c; reflexivity.
Qed.

Lemma isQueryOrFragment_no_slash (suffix : jsstring) :
  isQueryOrFragment suffix = true -> JS.startsWith suffix "/" = false.
Proof.
  destruct suffix as [|c suffix]; [reflexivity|]. cbn.
  unfold isQueryOrHashMark. intros H. apply orb_prop in H.
  destruct H as [H|H]; apply Ascii.eqb_eq in H; subst c; reflexivity.
Qed.

Lemma startsWith_length (a p : jsstring) :
  JS.startsWith a p = true -> length p <= length a.
Proof.
  revert a. induction p as [|c p IH]; intros a H; [cbn; lia|].
  destruct a as [|d a]; [discriminate H|]. cbn in H.
  apply andb_prop in H. destruct H as [_ H]. apply IH in H. cbn. lia.
Qed.

Lemma startsWith_app (a b p : jsstring) :
  JS.startsWith (a ++ b) p
  = JS.startsWith a (firstn (length a) p)
    && JS.startsWith b (skipn (length a) p).
Proof.
  revert p. induction a as [|c a IH]; intros p.
  - reflexivity.
  - destruct p as [|d p]; [cbn; now rewrite startsWith_nil|]. cbn.
    now rewrite IH, andb_assoc.
Qed.

Lemma startsWith_app_long (a b p : jsstring) :
  length p <= length a -> JS.startsWith (a ++ b) p = JS.startsWith a p.
Proof.
  intros H. rewrite startsWith_app, firstn_all2, skipn_all2 by exact H.
  now rewrite startsWith_nil, andb_true_r.
Qed.

(** Appending text that does not start with a slash does not change
    whether the address starts with two slashes. *)
Lemma startsWith_slashes_app (a b : jsstring) :
  JS.startsWith b "/" = false ->
  JS.startsWith (a ++ b) "//" = JS.startsWith a "//".
Proof.
  intros Hb. rewrite startsWith_slash in Hb.
  destruct a as [|c1 [|c2 a]].
  - destruct b as [|d b]; [reflexivity|]. cbn. rewrite Ascii.eqb_sym, Hb. reflexivity.
  - cbn. destruct (Ascii.eqb "/" c1); [|reflexivity]. cbn.
    destruct b as [|d b]; [reflexivity|]. cbn. rewrite Ascii.eqb_sym, Hb. reflexivity.
  - cbn. rewrite !startsWith_nil. reflexivity.
Qed.

Lemma slice_app (a b p : jsstring) :
  JS.startsWith a p = true ->
  JS.slice (a ++ b) (length p) = JS.slice a (length p) ++ b.
Proof.
  intros H. apply startsWith_length in H. unfold JS.slice.
  rewrite skipn_app. replace (length p - length a) with 0 by lia. reflexivity.
Qed.

Lemma pathnameFrom_suffix (sl : bool) (r suffix : jsstring) :
  noQueryOrHashMark r = true -> isQueryOrFragment suffix = true ->
  pathnameFrom sl (r ++ suffix) = pathnameFrom sl r.
Proof.
  intros Hr Hs. unfold pathnameFrom.
  rewrite (cut_hash_query r suffix Hr Hs).
  pose proof (cut_hash_query r [] Hr eq_refl) as H0.
  rewrite app_nil_r in H0. now rewrite H0.
Qed.

Lemma pathnameAfter_suffix (a suffix : jsstring) :
  noQueryOrHashMark a = true -> isQueryOrFragment suffix = true ->
  pathnameAfter (a ++ suffix) = pathnameAfter a.
Proof.
  intros Ha Hs. unfold pathnameAfter.
  rewrite startsWith_slashes_app by now apply isQueryOrFragment_no_slash.
  destruct (JS.startsWith a "//") eqn:E.
  - change 2 with (length ("//" : jsstring)).
    rewrite slice_app by exact E.
    apply pathnameFrom_suffix; [|exact Hs].
    now apply noQueryOrHashMark_skipn.
  - now apply pathnameFrom_suffix.
Qed.

(** The query string and the fragment do not reach the pathname. *)
Lemma pathname_suffix (a suffix : jsstring) :
  noQueryOrHashMark a = true -> isQueryOrFragment suffix = true ->
  UrlParse.pathname (UrlParse.parse (a ++ suffix))
  = UrlParse.pathname (UrlParse.parse a).
Proof.
  intros Ha Hs. rewrite !pathname_parse_after.
  rewrite afterScheme_app by now apply isQueryOrFragment_inert.
  apply pathnameAfter_suffix; [|exact Hs].
  now apply noQueryOrHashMark_afterScheme.
Qed.

(** *** One more slash at the end of the path *)

Lemma span_all (p : ascii -> bool) (a : jsstring) :
  forallb p a = true -> JS.span p a = (a, []).
Proof.
  intros H. rewrite <- (app_nil_r a) at 1. now apply span_app_stop.
Qed.

Lemma replaceFirst_app_slash (r : jsstring) :
  JS.replaceFirst (r ++ "/") UrlParse.backslash "/"
  = JS.replaceFirst r UrlParse.backslash "/" ++ "/".
Proof.
  induction r as [|c r IH]; [reflexivity|]. cbn in *.
  match goal with
  | |- context [Ascii.eqb c ?b] => destruct (Ascii.eqb c b)
  end; [reflexivity|].
  cbn. f_equal. exact IH.
Qed.

Lemma replaceFirst_none (r : jsstring) (c d : ascii) :
  forallb (fun x => negb (Ascii.eqb x c)) r = true ->
  JS.replaceFirst r c d = r.
Proof.
  induction r as [|x r IH]; [reflexivity|]. cbn. intros H.
  apply andb_prop in H. destruct H as [Hx H].
  apply negb_true_iff in Hx. now rewrite Hx, (IH H).
Qed.

Lemma pathnameFrom_plain (sl : bool) (r : jsstring) :
  noQueryOrHashMark r = true ->
  pathnameFrom sl r
  = if sl
    then snd (JS.span (fun d => negb (Ascii.eqb d "/"))
                (JS.replaceFirst r UrlParse.backslash "/"))
    else UrlParse.firstLine (JS.replaceFirst r UrlParse.backslash "/").
Proof.
  intros Hr. unfold pathnameFrom.
  pose proof (cut_hash_query r [] Hr eq_refl) as H0.
  rewrite app_nil_r in H0. rewrite H0.
  destruct sl; [|reflexivity]. now rewrite cutBack_span.
Qed.

Lemma noQueryOrHashMark_slash (r : jsstring) :
  noQueryOrHashMark r = true -> noQueryOrHashMark (r ++ "/") = true.
Proof. intros H. now rewrite noQueryOrHashMark_app, H. Qed.

Lemma pathnameFrom_slash (sl : bool) (r : jsstring) :
  noQueryOrHashMark r = true ->
  trimSuffix (pathnameFrom sl (r ++ "/")) "/" = trimSuffix (pathnameFrom sl r) "/".
Proof.
  intros Hr.
  rewrite !pathnameFrom_plain by (try apply noQueryOrHashMark_slash; exact Hr).
  rewrite replaceFirst_app_slash.
  set (R := JS.replaceFirst r UrlParse.backslash "/").
  destruct sl.
  - rewrite span_app_full.
    destruct (forallb (fun d => negb (Ascii.eqb d "/")) R) eqn:E.
    + rewrite (span_all _ R E). reflexivity.
    + cbn [snd]. apply trimSuffix_app_slash.
  - unfold UrlParse.firstLine. rewrite span_app_full.
    destruct (forallb (fun c => negb (JS.isLineTerminator c)) R) eqn:E.
    + rewrite (span_all _ R E). cbn [fst]. apply trimSuffix_app_slash.
    + reflexivity.
Qed.

Lemma pathnameAfter_slash (a : jsstring) :
  noQueryOrHashMark a = true ->
  trimSuffix (pathnameAfter (a ++ "/")) "/" = trimSuffix (pathnameAfter a) "/".
Proof.
  intros Ha. unfold pathnameAfter.
  destruct a as [|c1 [|c2 a]].
  - reflexivity.
  - destruct (Ascii.eqb c1 "/") eqn:E1.
    + apply Ascii.eqb_eq in E1. subst c1. reflexivity.
    + assert (E : JS.startsWith ([c1] ++ "/") "//" = false).
      { cbn. now rewrite Ascii.eqb_sym, E1. }
      rewrite E.
      assert (E' : JS.startsWith [c1] "//" = false).
      { cbn. now rewrite andb_false_r. }
      rewrite E'. apply pathnameFrom_slash. exact Ha.
  - assert (E : JS.startsWith ((c1 :: c2 :: a) ++ "/") "//"
                = JS.startsWith (c1 :: c2 :: a) "//").
    { apply startsWith_app_long. cbn. lia. }
    rewrite E. destruct (JS.startsWith (c1 :: c2 :: a) "//") eqn:E2.
    + change 2 with (length ("//" : jsstring)).
      rewrite slice_app by exact E2.
      apply pathnameFrom_slash. now apply noQueryOrHashMark_skipn.
    + apply pathnameFrom_slash. exact Ha.
Qed.

Lemma pathname_slash (y : jsstring) :
  noQueryOrHashMark y = true ->
  trimSuffix (UrlParse.pathname (UrlParse.parse (y ++ "/"))) "/"
  = trimSuffix (UrlParse.pathname (UrlParse.parse y)) "/".
Proof.
  intros Hy. rewrite !pathname_parse_after.
  rewrite afterScheme_app by reflexivity.
  apply pathnameAfter_slash. now apply noQueryOrHashMark_afterScheme.
Qed.

(** *** The prefix [sia:] *)

Lemma startsWith_app_foreign (a b p : jsstring) :
  (forall n, n < length p -> JS.startsWith b (skipn n p) = false) ->
  JS.startsWith (a ++ b) p = JS.startsWith a p.
Proof.
  intros H. destruct (Nat.le_gt_cases (length p) (length a)) as [Hle|Hgt].
  - now apply startsWith_app_long.
  - rewrite startsWith_app, (H _ Hgt), andb_false_r.
    destruct (JS.startsWith a p) eqn:E; [|reflexivity].
    apply startsWith_length in E. lia.
Qed.

Ltac short_prefix n Hn :=
  do 7 (destruct n as [|n];
        [first [reflexivity
               | exfalso; unfold uriSkynetPrefix in Hn; cbn in Hn; lia]|]);
  exfalso; unfold uriSkynetPrefix in Hn; cbn in Hn; lia.

Lemma startsWith_sia_suffix (a suffix p : jsstring) :
  p = uriSkynetPrefix \/ p = uriSkynetPrefix ++ "//" ->
  isQueryOrFragment suffix = true ->
  JS.startsWith (a ++ suffix) p = JS.startsWith a p.
Proof.
  intros Hp Hs. apply startsWith_app_foreign. intros n Hn.
  destruct suffix as [|c suffix].
  - destruct Hp as [-> | ->]; short_prefix n Hn.
  - cbn in Hs. unfold isQueryOrHashMark in Hs. apply orb_prop in Hs.
    destruct Hs as [Hs|Hs]; apply Ascii.eqb_eq in Hs; subst c;
      destruct Hp as [-> | ->]; short_prefix n Hn.
Qed.

Lemma trimUriPrefix_suffix (a suffix : jsstring) :
  isQueryOrFragment suffix = true ->
  trimUriPrefix (a ++ suffix) uriSkynetPrefix
  = trimUriPrefix a uriSkynetPrefix ++ suffix.
Proof.
  intros Hs. unfold trimUriPrefix.
  rewrite !(startsWith_sia_suffix a suffix) by (auto; exact Hs).
  destruct (JS.startsWith a (uriSkynetPrefix ++ "//")) eqn:E1.
  - now apply slice_app.
  - destruct (JS.startsWith a uriSkynetPrefix) eqn:E2; [|reflexivity].
    now apply slice_app.
Qed.

Lemma startsWith_sia_slash (x : jsstring) :
  JS.startsWith (x ++ "/") uriSkynetPrefix = JS.startsWith x uriSkynetPrefix.
Proof.
  apply startsWith_app_foreign. intros n Hn. short_prefix n Hn.
Qed.

Lemma startsWith_sia_slashes_slash (x : jsstring) :
  JS.str_eqb x "sia:/" = false ->
  JS.startsWith (x ++ "/") (uriSkynetPrefix ++ "//")
  = JS.startsWith x (uriSkynetPrefix ++ "//").
Proof.
  intros Hx.
  destruct (Nat.le_gt_cases (length (uriSkynetPrefix ++ "//")) (length x))
    as [Hle|Hgt].
  - now apply startsWith_app_long.
  - assert (E : JS.startsWith x (uriSkynetPrefix ++ "//") = false).
    { destruct (JS.startsWith x _) eqn:E; [|reflexivity].
      apply startsWith_length in E. lia. }
    rewrite E, startsWith_app.
    destruct x as [|c0 [|c1 [|c2 [|c3 [|c4 [|c5 x]]]]]];
      try (cbn; rewrite ?andb_false_r; reflexivity).
    + (* five characters: a match would make [x] the string ["sia:/"] *)
      cbn in Hx |- *. rewrite !andb_true_r in *.
      rewrite (Ascii.eqb_sym c0), (Ascii.eqb_sym c1), (Ascii.eqb_sym c2),
        (Ascii.eqb_sym c3), (Ascii.eqb_sym c4) in Hx.
      rewrite !andb_assoc in *. exact Hx.
    + cbn in Hgt. lia.
Qed.

Lemma trimUriPrefix_slash (x : jsstring) :
  JS.str_eqb x "sia:/" = false ->
  trimUriPrefix (x ++ "/") uriSkynetPrefix
  = trimUriPrefix x uriSkynetPrefix ++ "/".
Proof.
  intros Hx. unfold trimUriPrefix.
  rewrite startsWith_sia_slashes_slash by exact Hx.
  rewrite startsWith_sia_slash.
  destruct (JS.startsWith x (uriSkynetPrefix ++ "//")) eqn:E1.
  - now apply slice_app.
  - destruct (JS.startsWith x uriSkynetPrefix) eqn:E2; [|reflexivity].
    now apply slice_app.
Qed.

Lemma noQueryOrHashMark_trimUriPrefix (x : jsstring) :
  noQueryOrHashMark x = true ->
  noQueryOrHashMark (trimUriPrefix x uriSkynetPrefix) = true.
Proof.
  intros H. unfold trimUriPrefix, JS.slice.
  destruct (JS.startsWith x _); [now apply noQueryOrHashMark_skipn|].
  destruct (JS.startsWith x _); [now apply noQueryOrHashMark_skipn|exact H].
Qed.

(** The trimmed pathname does not change with one more slash at the end of
    the path, nor with the query string and fragment behind it. *)
Lemma skylinkAndPathOf_slash (x : jsstring) :
  noQueryOrHashMark x = true ->
  skylinkAndPathOf (x ++ "/") = skylinkAndPathOf x.
Proof.
  intros Hx. unfold skylinkAndPathOf.
  destruct (JS.str_eqb x "sia:/") eqn:E.
  - apply str_eqb_eq in E. subst x. vm_compute. reflexivity.
  - rewrite trimUriPrefix_slash by exact E.
    apply pathname_slash. now apply noQueryOrHashMark_trimUriPrefix.
Qed.

Lemma noQueryOrHashMark_slashes (x : jsstring) (n : nat) :
  noQueryOrHashMark x = true ->
  noQueryOrHashMark (x ++ repeat "/"%char n) = true.
Proof.
  intros H. rewrite noQueryOrHashMark_app, H. cbn.
  induction n; [reflexivity|exact IHn].
Qed.

Lemma skylinkAndPathOf_slashes (x : jsstring) (n : nat) :
  noQueryOrHashMark x = true ->
  skylinkAndPathOf (x ++ repeat "/"%char n) = skylinkAndPathOf x.
Proof.
  intros Hx. induction n as [|n IH]; [now rewrite app_nil_r|].
  cbn [repeat]. rewrite repeat_cons, app_assoc.
  change [ "/"%char ] with ("/" : jsstring).
  rewrite skylinkAndPathOf_slash by now apply noQueryOrHashMark_slashes.
  exact IH.
Qed.

Lemma skylinkAndPathOf_suffix (x suffix : jsstring) :
  noQueryOrHashMark x = true -> isQueryOrFragment suffix = true ->
  skylinkAndPathOf (x ++ suffix) = skylinkAndPathOf x.
Proof.
  intros Hx Hs. unfold skylinkAndPathOf.
  rewrite trimUriPrefix_suffix by exact Hs.
  rewrite pathname_suffix; [reflexivity| |exact Hs].
  now apply noQueryOrHashMark_trimUriPrefix.
Qed.

(** *** Identifiers *)

Lemma isSkylinkChar_facts (c : ascii) :
  isSkylinkChar c = true ->
  JS.isLineTerminator c = false /\ UrlParse.isWhitespace c = false
  /\ Ascii.eqb c ":" = false /\ Ascii.eqb c "/" = false
  /\ isQueryOrHashMark c = false /\ Ascii.eqb c UrlParse.backslash = false.
Proof.
  destruct c as [[] [] [] [] [] [] [] []]; vm_compute; intros H;
    try discriminate H; repeat split.
Qed.

Lemma forallb_imp (p q : ascii -> bool) (l : jsstring) :
  (forall c, p c = true -> q c = true) ->
  forallb p l = true -> forallb q l = true.
Proof.
  intros Hpq H. rewrite forallb_forall in *. auto.
Qed.

Lemma matchScheme_no_colon (x : jsstring) :
  forallb (fun c => negb (Ascii.eqb c ":")) x = true ->
  UrlParse.matchScheme x = (None, x).
Proof.
  intros H. destruct x as [|c x]; [reflexivity|]. cbn.
  destruct (JS.isAlpha c); [|reflexivity].
  destruct (JS.span UrlParse.isSchemeChar x) as [run after] eqn:Es.
  destruct after as [|d after]; [reflexivity|].
  destruct (Ascii.eqb d ":") eqn:Ed; [|reflexivity].
  apply span_spec in Es. destruct Es as (-> & _ & _).
  cbn in H. apply andb_prop in H. destruct H as [_ H].
  rewrite forallb_app in H. apply andb_prop in H. destruct H as [_ H].
  cbn in H. rewrite Ed in H. discriminate H.
Qed.

Section Identifier.

Variable skylink : jsstring.
Hypothesis Hid : isSkylink skylink = true.

Lemma skylink_length : length skylink = 46.
Proof.
  unfold isSkylink in Hid. apply andb_prop in Hid.
  now apply Nat.eqb_eq.
Qed.

Lemma skylink_chars : forallb isSkylinkChar skylink = true.
Proof. unfold isSkylink in Hid. now apply andb_prop in Hid. Qed.

Lemma skylink_cons : exists c rest, skylink = c :: rest /\ isSkylinkChar c = true.
Proof.
  pose proof skylink_length as Hl. pose proof skylink_chars as Hc.
  destruct skylink as [|c rest]; [discriminate Hl|].
  exists c, rest. cbn in Hc. apply andb_prop in Hc. now split.
Qed.

Lemma skylink_forall (q : ascii -> bool) :
  (forall c, isSkylinkChar c = true -> q c = true) ->
  forallb q skylink = true.
Proof. intros H. apply (forallb_imp isSkylinkChar q); [exact H|apply skylink_chars]. Qed.

Lemma skylink_noQueryOrHashMark : noQueryOrHashMark skylink = true.
Proof.
  apply skylink_forall. intros c Hc.
  apply isSkylinkChar_facts in Hc. destruct Hc as (_ & _ & _ & _ & -> & _).
  reflexivity.
Qed.

Lemma skylink_no_slash_end : JS.endsWith skylink "/" = false.
Proof.
  unfold JS.endsWith. change (rev ("/" : jsstring)) with ("/" : jsstring).
  rewrite startsWith_slash.
  destruct (rev skylink) as [|c r] eqn:E; [reflexivity|].
  assert (Hin : In c skylink).
  { apply in_rev. rewrite E. now left. }
  pose proof skylink_chars as Hc. rewrite forallb_forall in Hc.
  apply Hc in Hin. now apply isSkylinkChar_facts in Hin.
Qed.

Lemma matchDirect_skylink : matchDirect skylink = Some skylink.
Proof. unfold matchDirect. unfold isSkylink in Hid. now rewrite Hid. Qed.

(** The identifier followed by a path starting with a slash, or by
    nothing, is its own pathname. *)
Lemma afterScheme_skylink (p : jsstring) :
  inertHead p = true -> afterScheme (skylink ++ p) = skylink ++ p.
Proof.
  intros Hp. rewrite afterScheme_app by exact Hp. f_equal.
  unfold afterScheme.
  destruct skylink_cons as (c & rest & E & Hc).
  assert (Ht : UrlParse.trimLeft skylink = skylink).
  { rewrite E. cbn. apply isSkylinkChar_facts in Hc.
    destruct Hc as (_ & -> & _). reflexivity. }
  rewrite Ht, matchScheme_no_colon; [reflexivity|].
  apply skylink_forall. intros d Hd. apply isSkylinkChar_facts in Hd.
  destruct Hd as (_ & _ & -> & _). reflexivity.
Qed.

Lemma startsWith_skylink_app (p q : jsstring) :
  q = "/" \/ q = "//" -> JS.startsWith (skylink ++ p) q = false.
Proof.
  intros Hq. destruct skylink_cons as (c & rest & -> & Hc).
  apply isSkylinkChar_facts in Hc. destruct Hc as (_ & _ & _ & Hs & _).
  destruct Hq as [-> | ->]; cbn; now rewrite Ascii.eqb_sym, Hs.
Qed.

End Identifier.

(** *** Paths *)

Lemma isPathChar_facts (c : ascii) :
  isPathChar c = true ->
  Ascii.eqb c UrlParse.backslash = false /\ isQueryOrHashMark c = false
  /\ JS.isLineTerminator c = false.
Proof.
  unfold isPathChar. intros H.
  apply andb_prop in H. destruct H as [H H3].
  apply andb_prop in H. destruct H as [H1 H2].
  now rewrite negb_true_iff in H1, H2, H3.
Qed.

Lemma isTrailingPath_chars (p : jsstring) :
  isTrailingPath p = true -> forallb isPathChar p = true.
Proof.
  destruct p as [|c p]; [reflexivity|]. cbn [isTrailingPath]. intros H.
  now apply andb_prop in H.
Qed.

Lemma isTrailingPath_inert (p : jsstring) :
  isTrailingPath p = true -> inertHead p = true.
Proof.
  destruct p as [|c p]; [reflexivity|]. cbn [isTrailingPath inertHead].
  intros H. apply andb_prop in H. destruct H as [H _].
  apply Ascii.eqb_eq in H. subst c. reflexivity.
Qed.

Lemma pathChars_noQueryOrHashMark (p : jsstring) :
  forallb isPathChar p = true -> noQueryOrHashMark p = true.
Proof.
  apply forallb_imp. intros c Hc. apply isPathChar_facts in Hc.
  destruct Hc as (_ & -> & _). reflexivity.
Qed.

Lemma pathChars_no_backslash (p : jsstring) :
  forallb isPathChar p = true ->
  forallb (fun c => negb (Ascii.eqb c UrlParse.backslash)) p = true.
Proof.
  apply forallb_imp. intros c Hc. apply isPathChar_facts in Hc.
  destruct Hc as (-> & _). reflexivity.
Qed.

Lemma pathChars_noLineTerminator (p : jsstring) :
  forallb isPathChar p = true -> noLineTerminator p = true.
Proof.
  apply forallb_imp. intros c Hc. apply isPathChar_facts in Hc.
  destruct Hc as (_ & _ & ->). reflexivity.
Qed.

Lemma skylink_pathChars (skylink : jsstring) :
  isSkylink skylink = true -> forallb isPathChar skylink = true.
Proof.
  intros Hid. apply (skylink_forall skylink Hid). intros c Hc.
  apply isSkylinkChar_facts in Hc.
  destruct Hc as (H1 & _ & _ & _ & H2 & H3).
  unfold isPathChar. now rewrite H1, H2, H3.
Qed.

(** The pathname of an identifier followed by a trailing path. *)
Lemma pathname_skylink_path (skylink p : jsstring) :
  isSkylink skylink = true -> isTrailingPath p = true ->
  UrlParse.pathname (UrlParse.parse (skylink ++ p)) = skylink ++ p.
Proof.
  intros Hid Hp.
  assert (Hc : forallb isPathChar (skylink ++ p) = true).
  { rewrite forallb_app, (skylink_pathChars _ Hid).
    now apply isTrailingPath_chars. }
  rewrite pathname_parse_after.
  rewrite (afterScheme_skylink skylink Hid) by now apply isTrailingPath_inert.
  unfold pathnameAfter.
  rewrite (startsWith_skylink_app skylink Hid) by auto.
  rewrite pathnameFrom_plain by now apply pathChars_noQueryOrHashMark.
  rewrite replaceFirst_none by now apply pathChars_no_backslash.
  unfold UrlParse.firstLine.
  rewrite span_all; [reflexivity|].
  now apply pathChars_noLineTerminator.
Qed.

Lemma isAlpha_not_whitespace (c : ascii) :
  JS.isAlpha c = true -> UrlParse.isWhitespace c = false.
Proof.
  destruct c as [[] [] [] [] [] [] [] []]; vm_compute; intros H;
    try discriminate H; reflexivity.
Qed.

Lemma hostChars_facts (host : jsstring) :
  forallb isHostChar host = true ->
  forallb (fun c => negb (Ascii.eqb c "/")) host = true
  /\ forallb (fun c => negb (Ascii.eqb c UrlParse.backslash)) host = true
  /\ noQueryOrHashMark host = true.
Proof.
  intros H. repeat split; revert H; apply forallb_imp; intros c Hc;
    unfold isHostChar in Hc;
    apply andb_prop in Hc; destruct Hc as [Hc H3];
    apply andb_prop in Hc; destruct Hc as [H1 H2]; assumption.
Qed.

(** The pathname of a URL with a scheme and an authority. *)
Lemma pathname_url (scheme host body : jsstring) :
  isSchemeName scheme = true -> forallb isHostChar host = true ->
  forallb isPathChar body = true ->
  UrlParse.pathname (UrlParse.parse (scheme ++ "://" ++ host ++ "/" ++ body))
  = "/" ++ body.
Proof.
  intros Hs Hh Hb.
  destruct (hostChars_facts host Hh) as (Hh1 & Hh2 & Hh3).
  rewrite pathname_parse_after.
  assert (Ea : afterScheme (scheme ++ "://" ++ host ++ "/" ++ body)
               = "//" ++ host ++ "/" ++ body).
  { unfold afterScheme. destruct scheme as [|c run]; [discriminate Hs|].
    cbn in Hs. apply andb_prop in Hs. destruct Hs as [Hc Hrun].
    cbn [app UrlParse.trimLeft].
    rewrite (isAlpha_not_whitespace c Hc).
    cbn [UrlParse.matchScheme]. rewrite Hc.
    change ("://" ++ host ++ "/" ++ body)
      with (":"%char :: "//" ++ host ++ "/" ++ body).
    rewrite (span_app_stop UrlParse.isSchemeChar run) by (auto; reflexivity).
    rewrite Ascii.eqb_refl. reflexivity. }
  rewrite Ea. unfold pathnameAfter.
  change (JS.startsWith ("//" ++ host ++ "/" ++ body) "//")
    with (JS.startsWith (host ++ "/" ++ body) []).
  rewrite startsWith_nil.
  change (JS.slice ("//" ++ host ++ "/" ++ body) 2) with (host ++ "/" ++ body).
  rewrite pathnameFrom_plain.
  2:{ rewrite !noQueryOrHashMark_app, Hh3.
      now rewrite (pathChars_noQueryOrHashMark body Hb). }
  rewrite replaceFirst_none.
  2:{ rewrite !forallb_app, Hh2.
      now rewrite (pathChars_no_backslash body Hb). }
  change (host ++ "/" ++ body) with (host ++ "/"%char :: body).
  rewrite span_app_stop; [reflexivity|exact Hh1|reflexivity].
Qed.

(** *** Trimming and matching a pathname *)

Lemma dropSlashes_app (x y : jsstring) :
  JS.startsWith y "/" = false -> dropSlashes (x ++ y) = dropSlashes x ++ y.
Proof.
  intros Hy. induction x as [|c x IH]; cbn.
  - rewrite startsWith_slash in Hy. destruct y as [|d y]; [reflexivity|].
    cbn. now rewrite Hy.
  - destruct (Ascii.eqb c "/"); [exact IH|reflexivity].
Qed.

Lemma trimSuffix_app_keep (a p : jsstring) :
  JS.endsWith a "/" = false ->
  trimSuffix (a ++ p) "/" = a ++ trimSuffix p "/".
Proof.
  intros Ha. rewrite !trimSuffix_slash, rev_app_distr.
  rewrite dropSlashes_app by exact Ha.
  now rewrite rev_app_distr, rev_involutive.
Qed.

Lemma dropSlashes_suffix (r : jsstring) :
  exists n, r = repeat "/"%char n ++ dropSlashes r.
Proof.
  induction r as [|c r [n IH]]; [now exists 0|]. cbn.
  destruct (Ascii.eqb c "/") eqn:E.
  - apply Ascii.eqb_eq in E. subst c. exists (S n). cbn. now rewrite <- IH.
  - now exists 0.
Qed.

Lemma trimSuffix_prefix (p : jsstring) :
  exists n, p = trimSuffix p "/" ++ repeat "/"%char n.
Proof.
  destruct (dropSlashes_suffix (rev p)) as [n H]. exists n.
  rewrite trimSuffix_slash. rewrite <- (rev_involutive p) at 1.
  rewrite H at 1. rewrite rev_app_distr. f_equal.
  clear. induction n as [|n IH]; [reflexivity|].
  cbn [repeat]. rewrite repeat_cons at 1. rewrite rev_app_distr. cbn.
  now rewrite IH.
Qed.

Lemma endsWith_pre_skylink (pre skylink : jsstring) :
  isSkylink skylink = true -> JS.endsWith (pre ++ skylink) "/" = false.
Proof.
  intros Hid. pose proof (skylink_no_slash_end skylink Hid) as H.
  unfold JS.endsWith in *. rewrite rev_app_distr.
  rewrite startsWith_app_long; [exact H|].
  rewrite !length_rev, (skylink_length skylink Hid). cbn. lia.
Qed.

Lemma matchPathname_from (str str' : jsstring) :
  match str with
  | c :: t => if Ascii.eqb c "/" then t else str
  | [] => str
  end = str' ->
  matchPathname str
  = if (length (firstn 46 str') =? 46) && forallb isSkylinkChar (firstn 46 str')
       && match skipn 46 str' with
          | [] => true
          | c :: r => Ascii.eqb c "/" && noLineTerminator r
          end
    then Some (firstn 46 str', skipn 46 str') else None.
Proof. intros <-. reflexivity. Qed.

Lemma matchPathname_skylink (pre skylink p : jsstring) :
  pre = [] \/ pre = "/" ->
  isSkylink skylink = true -> isTrailingPath p = true ->
  matchPathname (pre ++ skylink ++ trimSuffix p "/")
  = Some (skylink, trimSuffix p "/").
Proof.
  intros Hpre Hid Hp.
  assert (E : match pre ++ skylink ++ trimSuffix p "/" with
              | c :: t => if Ascii.eqb c "/" then t
                          else pre ++ skylink ++ trimSuffix p "/"
              | [] => pre ++ skylink ++ trimSuffix p "/"
              end = skylink ++ trimSuffix p "/").
  { destruct Hpre as [-> | ->]; [|reflexivity].
    destruct (skylink_cons skylink Hid) as (c & rest & -> & Hc).
    apply isSkylinkChar_facts in Hc. destruct Hc as (_ & _ & _ & Hs & _).
    cbn. now rewrite Hs. }
  rewrite (matchPathname_from _ _ E).
  assert (E1 : firstn 46 skylink = skylink).
  { rewrite <- (skylink_length skylink Hid) at 1. apply firstn_all. }
  assert (E2 : skipn 46 skylink = []).
  { rewrite <- (skylink_length skylink Hid) at 1. apply skipn_all. }
  rewrite firstn_app, skipn_app, (skylink_length skylink Hid), E1, E2.
  cbn [Nat.sub firstn skipn app].
  rewrite app_nil_r, (skylink_length skylink Hid), (skylink_chars skylink Hid).
  cbn [Nat.eqb andb].
  destruct (trimSuffix_prefix p) as [n Hn].
  destruct (trimSuffix p "/") as [|c r] eqn:Et; [reflexivity|].
  pose proof (isTrailingPath_chars p Hp) as Hc.
  rewrite Hn in Hp, Hc. cbn in Hp, Hc.
  apply andb_prop in Hp. destruct Hp as [-> _].
  apply andb_prop in Hc. destruct Hc as [_ Hc].
  rewrite forallb_app in Hc. apply andb_prop in Hc. destruct Hc as [Hc _].
  now rewrite (pathChars_noLineTerminator r Hc).
Qed.

Lemma trimForwardSlash_skylink (pre skylink p : jsstring) :
  pre = [] \/ pre = "/" -> isSkylink skylink = true ->
  trimForwardSlash (pre ++ skylink ++ trimSuffix p "/")
  = skylink ++ trimSuffix p "/".
Proof.
  intros Hpre Hid. unfold trimForwardSlash.
  rewrite app_assoc, trimSuffix_app_keep
    by now apply endsWith_pre_skylink.
  rewrite trimSuffix_idem, trimPrefix_slash, <- app_assoc.
  destruct (skylink_cons skylink Hid) as (c & rest & -> & Hc).
  apply isSkylinkChar_facts in Hc. destruct Hc as (_ & _ & _ & Hs & _).
  destruct Hpre as [-> | ->]; cbn; now rewrite Hs.
Qed.

Lemma resultFromPath_skylink (pre skylink p : jsstring) (opts : ParseOpts) :
  pre = [] \/ pre = "/" ->
  isSkylink skylink = true -> isTrailingPath p = true ->
  resultFromPath (pre ++ skylink ++ trimSuffix p "/") opts
  = if includePath opts then Return (Some (skylink ++ trimSuffix p "/"))
    else if onlyPath opts then Return (Some (trimSuffix p "/"))
    else Return (Some skylink).
Proof.
  intros Hpre Hid Hp. unfold resultFromPath.
  rewrite matchPathname_skylink by assumption.
  rewrite trimForwardSlash_skylink by assumption.
  destruct (includePath opts); [reflexivity|].
  destruct (onlyPath opts); [|reflexivity].
  destruct (JS.str_eqb (trimSuffix p "/") "/") eqn:E; [|reflexivity].
  apply str_eqb_eq in E. pose proof (trimSuffix_slash_done p) as H.
  rewrite E in H. discriminate H.
Qed.

(** *** [parseSkylink] through the pathname *)

(** A direct match is a shortcut: the result is the one derived from the
    trimmed pathname. *)
Lemma parseSkylink_by_path (skylinkStr : jsstring) (opts : ParseOpts) :
  includePath opts && onlyPath opts = false -> fromSubdomain opts = false ->
  parseSkylink skylinkStr opts
  = resultFromPath (skylinkAndPathOf skylinkStr) opts.
Proof.
  intros Hio Hsub. unfold parseSkylink, skylinkAndPathOf.
  rewrite Hio, Hsub, andb_false_r.
  set (s' := trimUriPrefix skylinkStr uriSkynetPrefix).
  destruct (matchDirect s') as [m|] eqn:E; [|reflexivity].
  unfold matchDirect in E.
  destruct ((length s' =? 46) && forallb isSkylinkChar s') eqn:Hid;
    [|discriminate E].
  injection E as <-. fold (isSkylink s') in Hid.
  pose proof (pathname_skylink_path s' [] Hid eq_refl) as Hp.
  rewrite app_nil_r in Hp. rewrite Hp.
  pose proof (trimSuffix_app_keep s' [] (skylink_no_slash_end s' Hid)) as Ht.
  rewrite app_nil_r in Ht. rewrite Ht.
  pose proof (resultFromPath_skylink [] s' [] opts (or_introl eq_refl) Hid eq_refl)
    as Hr.
  cbn [app] in Hr. rewrite Hr.
  change (trimSuffix [] "/") with (@nil ascii). rewrite app_nil_r.
  destruct (includePath opts), (onlyPath opts); try reflexivity.
  discriminate Hio.
Qed.

Lemma endsWith_dropSlashes (t : jsstring) :
  JS.endsWith t "/" = false -> JS.endsWith (dropSlashes t) "/" = false.
Proof.
  intros H. destruct (dropSlashes_suffix t) as [n Hn].
  destruct (dropSlashes t) as [|c r] eqn:E; [reflexivity|].
  rewrite Hn in H. unfold JS.endsWith in *. rewrite rev_app_distr in H.
  rewrite startsWith_app_long in H; [exact H|].
  rewrite !length_rev. cbn. lia.
Qed.

Lemma trimForwardSlash_no_slash (t : jsstring) :
  JS.startsWith (trimForwardSlash t) "/" = false
  /\ JS.endsWith (trimForwardSlash t) "/" = false.
Proof.
  unfold trimForwardSlash. split; [apply trimPrefix_slash_done|].
  rewrite trimPrefix_slash. apply endsWith_dropSlashes.
  apply trimSuffix_slash_done.
Qed.

(** C10: in the modes other than [fromSubdomain], the number of slashes at
    the end of the URL path (in front of the query string and fragment, if
    any) does not change the result, and what the [includePath] mode
    returns neither starts nor ends with a slash. *)
Theorem parseSkylink_trailing_slashes
  (s suffix : jsstring) (n m : nat) (opts : ParseOpts)
  (Hsub : fromSubdomain opts = false)
  (Hs : noQueryOrHashMark s = true)
  (Hsuffix : isQueryOrFragment suffix = true) :
  parseSkylink (s ++ repeat "/"%char n ++ suffix) opts
  = parseSkylink (s ++ repeat "/"%char m ++ suffix) opts
  /\ forall input r,
       parseSkylink input optsIncludePath = Return (Some r) ->
       JS.startsWith r "/" = false /\ JS.endsWith r "/" = false.
Proof.
  assert (Hpath : forall k,
             skylinkAndPathOf (s ++ repeat "/"%char k ++ suffix)
             = skylinkAndPathOf s).
  { intros k. rewrite app_assoc.
    rewrite skylinkAndPathOf_suffix
      by (try apply noQueryOrHashMark_slashes; assumption).
    now apply skylinkAndPathOf_slashes. }
  split.
  - destruct (includePath opts && onlyPath opts) eqn:Hio.
    + unfold parseSkylink. now rewrite Hio.
    + rewrite !parseSkylink_by_path by assumption. now rewrite !Hpath.
  - intros input r Hr. rewrite parseSkylink_by_path in Hr by reflexivity.
    unfold resultFromPath in Hr.
    destruct (matchPathname _) as [[m1 m2]|]; [|discriminate Hr].
    cbn [includePath optsIncludePath] in Hr. injection Hr as <-.
    apply trimForwardSlash_no_slash.
Qed.

(** C10, witness: a portal URL with a path, a query string and a fragment,
    with three slashes at the end of the path against none. *)
Lemma parseSkylink_trailing_slashes_witness :
  let s : jsstring := "https://siasky.net/" ++ exampleSkylink ++ "/foo/bar" in
  let suffix : jsstring := "?foo=bar#baz" in
  parseSkylink (s ++ repeat "/"%char 3 ++ suffix) optsOnlyPath
  = parseSkylink (s ++ repeat "/"%char 0 ++ suffix) optsOnlyPath
  /\ forall input r,
       parseSkylink input optsIncludePath = Return (Some r) ->
       JS.startsWith r "/" = false /\ JS.endsWith r "/" = false.
Proof.
  intros s suffix.
  apply (parseSkylink_trailing_slashes s suffix 3 0 optsOnlyPath);
    vm_compute; reflexivity.
Defined.

(** *** The wrappings of an identifier *)

Lemma startsWith_prefix (x p q : jsstring) :
  JS.startsWith x (p ++ q) = true -> JS.startsWith x p = true.
Proof.
  revert x. induction p as [|c p IH]; intros x H; [apply startsWith_nil|].
  destruct x as [|d x]; [discriminate H|]. cbn in *.
  apply andb_prop in H. destruct H as [-> H]. cbn. now apply IH.
Qed.

Lemma trimUriPrefix_none (x : jsstring) :
  JS.startsWith x uriSkynetPrefix = false ->
  trimUriPrefix x uriSkynetPrefix = x.
Proof.
  intros H. unfold trimUriPrefix. rewrite H.
  destruct (JS.startsWith x (uriSkynetPrefix ++ "//")) eqn:E; [|reflexivity].
  apply startsWith_prefix in E. congruence.
Qed.

Lemma startsWith_sia_skylink (skylink p : jsstring) :
  isSkylink skylink = true ->
  JS.startsWith (skylink ++ p) uriSkynetPrefix = false.
Proof.
  intros Hid. rewrite startsWith_app_long
    by (rewrite (skylink_length skylink Hid); cbn; lia).
  pose proof (skylink_chars skylink Hid) as Hc.
  destruct skylink as [|c0 [|c1 [|c2 [|c3 rest]]]];
    try (cbn; rewrite ?andb_false_r; reflexivity).
  cbn in Hc. do 3 (apply andb_prop in Hc; destruct Hc as [_ Hc]).
  apply andb_prop in Hc. destruct Hc as [H3 _].
  apply isSkylinkChar_facts in H3. destruct H3 as (_ & _ & H3 & _).
  cbn. rewrite (Ascii.eqb_sym ":" c3), H3. now rewrite !andb_false_r.
Qed.

Lemma schemeChars_noQueryOrHashMark (run : jsstring) :
  forallb UrlParse.isSchemeChar run = true -> noQueryOrHashMark run = true.
Proof.
  apply forallb_imp. intros c.
  destruct c as [[] [] [] [] [] [] [] []]; vm_compute; intros H;
    try discriminate H; reflexivity.
Qed.

Lemma schemeName_noQueryOrHashMark (scheme : jsstring) :
  isSchemeName scheme = true -> noQueryOrHashMark scheme = true.
Proof.
  destruct scheme as [|c run]; [reflexivity|]. cbn [isSchemeName].
  intros H. apply andb_prop in H. destruct H as [Hc Hrun].
  apply schemeChars_noQueryOrHashMark. cbn.
  now rewrite (isAlpha_isSchemeChar c Hc).
Qed.

(** The trimmed pathname of a wrapped identifier with its trailing path:
    the identifier and the path without its final slashes, behind a slash
    when they come in a URL. *)
Lemma skylinkAndPathOf_wrap (w : Wrapping) (skylink p : jsstring) :
  wellFormedWrapping w = true -> isSkylink skylink = true ->
  isTrailingPath p = true ->
  noQueryOrHashMark (wrap w (skylink ++ p)) = true
  /\ exists pre, (pre = [] \/ pre = "/")
       /\ skylinkAndPathOf (wrap w (skylink ++ p))
          = pre ++ skylink ++ trimSuffix p "/".
Proof.
  intros Hw Hid Hp.
  assert (Hb : forallb isPathChar (skylink ++ p) = true).
  { rewrite forallb_app, (skylink_pathChars _ Hid).
    now apply isTrailingPath_chars. }
  pose proof (pathChars_noQueryOrHashMark _ Hb) as Hq.
  assert (Hbare : skylinkAndPathOf (skylink ++ p)
                  = [] ++ skylink ++ trimSuffix p "/").
  { unfold skylinkAndPathOf.
    rewrite trimUriPrefix_none by now apply startsWith_sia_skylink.
    rewrite pathname_skylink_path by assumption.
    apply trimSuffix_app_keep. now apply skylink_no_slash_end. }
  destruct w as [| | |scheme host]; cbn [wrap].
  - split; [exact Hq|]. exists []. split; [now left|exact Hbare].
  - split; [exact Hq|]. exists []. split; [now left|].
    rewrite <- Hbare. unfold skylinkAndPathOf at 1, trimUriPrefix.
    change (JS.startsWith ("sia:" ++ skylink ++ p) (uriSkynetPrefix ++ "//"))
      with (JS.startsWith (skylink ++ p) "//").
    rewrite (startsWith_skylink_app skylink Hid) by auto.
    change (JS.startsWith ("sia:" ++ skylink ++ p) uriSkynetPrefix)
      with (JS.startsWith (skylink ++ p) []).
    rewrite startsWith_nil.
    change (JS.slice ("sia:" ++ skylink ++ p) (length uriSkynetPrefix))
      with (skylink ++ p).
    unfold skylinkAndPathOf.
    now rewrite trimUriPrefix_none by now apply startsWith_sia_skylink.
  - split; [exact Hq|]. exists []. split; [now left|].
    rewrite <- Hbare. unfold skylinkAndPathOf at 1, trimUriPrefix.
    change (JS.startsWith ("sia://" ++ skylink ++ p) (uriSkynetPrefix ++ "//"))
      with (JS.startsWith (skylink ++ p) []).
    rewrite startsWith_nil.
    change (JS.slice ("sia://" ++ skylink ++ p)
              (length (uriSkynetPrefix ++ "//")))
      with (skylink ++ p).
    unfold skylinkAndPathOf.
    now rewrite trimUriPrefix_none by now apply startsWith_sia_skylink.
  - cbn [wellFormedWrapping] in Hw.
    apply andb_prop in Hw. destruct Hw as [Hw Hhost].
    apply andb_prop in Hw. destruct Hw as [Hname Hsia].
    apply negb_true_iff in Hsia.
    split.
    + rewrite !noQueryOrHashMark_app.
      rewrite (schemeName_noQueryOrHashMark scheme Hname).
      destruct (hostChars_facts host Hhost) as (_ & _ & ->).
      rewrite <- noQueryOrHashMark_app, Hq. reflexivity.
    + exists "/". split; [now right|].
      unfold skylinkAndPathOf.
      rewrite trimUriPrefix_none.
      2:{ rewrite app_assoc, startsWith_app_long; [exact Hsia|].
          destruct scheme; [discriminate Hname|].
          rewrite length_app. cbn. lia. }
      rewrite pathname_url by assumption.
      rewrite !app_assoc. apply trimSuffix_app_keep.
      now apply endsWith_pre_skylink.
Qed.

(** C3: for every valid identifier, every supported wrapping of it (bare,
    behind [sia:] or [sia://], or as first path element of a URL), every
    trailing path and every query string or fragment behind it, the
    default mode returns the identifier and the [includePath] mode returns
    the identifier joined with the trailing path, without the slashes at
    the end of that path; so does the scenario of the specification. *)
Theorem parseSkylink_wrappings (w : Wrapping) (skylink p suffix : jsstring)
  (Hw : wellFormedWrapping w = true)
  (Hid : isSkylink skylink = true)
  (Hp : isTrailingPath p = true)
  (Hsuffix : isQueryOrFragment suffix = true) :
  parseSkylink (wrap w (skylink ++ p) ++ suffix) defaultOpts
  = Return (Some skylink)
  /\ parseSkylink (wrap w (skylink ++ p) ++ suffix) optsIncludePath
     = Return (Some (skylink ++ trimSuffix p "/"))
  /\ parseSkylink ("sia://XABvi7JtJbQSMAcDwnUnmp2FKDPjg8_tTTFP4BwMSxVdEg/foo/bar")
       optsIncludePath
     = Return (Some ("XABvi7JtJbQSMAcDwnUnmp2FKDPjg8_tTTFP4BwMSxVdEg/foo/bar"
                     : jsstring)).
Proof.
  destruct (skylinkAndPathOf_wrap w skylink p Hw Hid Hp)
    as (Hq & pre & Hpre & Hpath).
  rewrite !parseSkylink_by_path by reflexivity.
  rewrite skylinkAndPathOf_suffix by assumption.
  rewrite Hpath, !resultFromPath_skylink by assumption.
  split; [reflexivity|]. split; [reflexivity|].
  vm_compute. reflexivity.
Qed.

(** C3, witness: the identifier of the specification in a portal URL, with
    a trailing path, a query string and a fragment. *)
Lemma parseSkylink_wrappings_witness :
  let w := InUrl "https" "siasky.net" in
  let p : jsstring := "/foo/bar/" in
  let suffix : jsstring := "?foo=bar#baz" in
  wrap w (exampleSkylink ++ p) ++ suffix
  = ("https://siasky.net/XABvi7JtJbQSMAcDwnUnmp2FKDPjg8_tTTFP4BwMSxVdEg/foo/bar/?foo=bar#baz"
     : jsstring)
  /\ (parseSkylink (wrap w (exampleSkylink ++ p) ++ suffix) defaultOpts
      = Return (Some exampleSkylink)
      /\ parseSkylink (wrap w (exampleSkylink ++ p) ++ suffix) optsIncludePath
         = Return (Some (exampleSkylink ++ trimSuffix p "/"))
      /\ parseSkylink
           ("sia://XABvi7JtJbQSMAcDwnUnmp2FKDPjg8_tTTFP4BwMSxVdEg/foo/bar")
           optsIncludePath
         = Return
             (Some ("XABvi7JtJbQSMAcDwnUnmp2FKDPjg8_tTTFP4BwMSxVdEg/foo/bar"
                    : jsstring))).
Proof.
  intros w p suffix. split; [reflexivity|].
  apply (parseSkylink_wrappings w exampleSkylink p suffix);
    vm_compute; reflexivity.
Defined.

(** ** Base-64 to base-32 and back *)

Section Numerals.

Local Open Scope Z_scope.

Variable b : Z.
Hypothesis Hb : 0 < b.

Lemma val_snoc (ds : list Z) (d : Z) :
  Numeral.val b (ds ++ [d]) = Numeral.val b ds * b + d.
Proof. unfold Numeral.val. now rewrite fold_left_app. Qed.

Lemma val_app (ds es : list Z) :
  Numeral.val b (ds ++ es)
  = Numeral.val b ds * b ^ Z.of_nat (length es) + Numeral.val b es.
Proof.
  induction es as [|e es IH] using rev_ind.
  - rewrite app_nil_r. cbn [length Z.of_nat].
    change (Numeral.val b []) with 0. rewrite Z.pow_0_r. lia.
  - rewrite app_assoc, !val_snoc, IH, length_app. cbn [length].
    rewrite Nat2Z.inj_add, Z.pow_add_r by lia.
    change (b ^ Z.of_nat 1) with (b ^ 1). rewrite Z.pow_1_r. ring.
Qed.

Lemma val_range (ds : list Z) :
  inRange b ds -> 0 <= Numeral.val b ds < b ^ Z.of_nat (length ds).
Proof.
  induction ds as [|d ds IH] using rev_ind; intros H.
  - change (Numeral.val b []) with 0. cbn. lia.
  - apply Forall_app in H. destruct H as [Hds Hd].
    apply Forall_inv in Hd. specialize (IH Hds).
    rewrite val_snoc, length_app. cbn [length].
    rewrite Nat2Z.inj_add, Z.pow_add_r by lia.
    change (b ^ Z.of_nat 1) with (b ^ 1). rewrite Z.pow_1_r. nia.
Qed.

Lemma digits_length (n : nat) (v : Z) : length (Numeral.digits b n v) = n.
Proof.
  revert v. induction n as [|n IH]; intros v; [reflexivity|].
  cbn. rewrite length_app, IH. cbn. lia.
Qed.

Lemma digits_range (n : nat) (v : Z) : inRange b (Numeral.digits b n v).
Proof.
  revert v. induction n as [|n IH]; intros v; [constructor|].
  cbn. apply Forall_app. split; [apply IH|].
  constructor; [|constructor]. apply Z.mod_pos_bound. exact Hb.
Qed.

Lemma val_digits (n : nat) (v : Z) :
  0 <= v < b ^ Z.of_nat n -> Numeral.val b (Numeral.digits b n v) = v.
Proof.
  revert v. induction n as [|n IH]; intros v Hv.
  - cbn in *. unfold Numeral.val. cbn. lia.
  - cbn [Numeral.digits]. rewrite val_snoc, IH.
    + pose proof (Z.div_mod v b). lia.
    + rewrite Nat2Z.inj_succ, Z.pow_succ_r in Hv by lia.
      split; [apply Z.div_pos; lia|].
      apply Z.div_lt_upper_bound; lia.
Qed.

Lemma digits_val (ds : list Z) :
  inRange b ds -> Numeral.digits b (length ds) (Numeral.val b ds) = ds.
Proof.
  induction ds as [|d ds IH] using rev_ind; intros H; [reflexivity|].
  apply Forall_app in H. destruct H as [Hds Hd]. apply Forall_inv in Hd.
  rewrite length_app. cbn [length]. rewrite Nat.add_1_r.
  cbn [Numeral.digits]. rewrite val_snoc.
  replace ((Numeral.val b ds * b + d) / b) with (Numeral.val b ds).
  2:{ apply Z.div_unique with (r := d); lia. }
  replace ((Numeral.val b ds * b + d) mod b) with d.
  2:{ apply Z.mod_unique with (q := Numeral.val b ds); lia. }
  now rewrite (IH Hds).
Qed.

(** Numerals of the same length with the same value are equal. *)
Lemma val_inj (ds es : list Z) :
  inRange b ds -> inRange b es -> length ds = length es ->
  Numeral.val b ds = Numeral.val b es -> ds = es.
Proof.
  intros Hd He Hl Hv.
  rewrite <- (digits_val ds Hd), <- (digits_val es He).
  now rewrite Hl, Hv.
Qed.

End Numerals.

Section Int32Facts.

Local Open Scope Z_scope.

Lemma toInt32_small (z : Z) : 0 <= z < 2147483648 -> Int32.toInt32 z = z.
Proof.
  intros H. unfold Int32.toInt32, Int32.two32, Int32.two31.
  rewrite Z.mod_small by lia.
  destruct (z <? 2147483648) eqn:E; [reflexivity|].
  apply Z.ltb_ge in E. lia.
Qed.

(** ToInt32 keeps the value modulo every power of two up to the 32nd. *)
Lemma toInt32_mod (z : Z) (k : Z) :
  0 <= k <= 32 -> Int32.toInt32 z mod 2 ^ k = z mod 2 ^ k.
Proof.
  intros Hk. unfold Int32.toInt32, Int32.two32, Int32.two31.
  assert (Hd : (2 ^ k | 4294967296)).
  { exists (2 ^ (32 - k)). rewrite <- Z.pow_add_r by lia.
    replace (32 - k + k) with 32 by lia. reflexivity. }
  assert (Hp : 0 < 2 ^ k) by (apply Z.pow_pos_nonneg; lia).
  destruct (z mod 4294967296 <? 2147483648).
  - apply Z.mod_mod_divide. exact Hd.
  - destruct Hd as [q Hq]. rewrite Hq at 2.
    replace (z mod 4294967296 - q * 2 ^ k)
      with (z mod 4294967296 + (- q) * 2 ^ k) by ring.
    rewrite Z.mod_add by lia.
    apply Z.mod_mod_divide. exists q. exact Hq.
Qed.

Lemma and_255 (a : Z) : Int32.and a 255 = a mod 256.
Proof.
  unfold Int32.and. rewrite (toInt32_small 255) by lia.
  change 255 with (Z.ones 8). rewrite Z.land_ones by lia.
  apply (toInt32_mod a 8). lia.
Qed.

Lemma and_31 (a : Z) : Int32.and a 31 = a mod 32.
Proof.
  unfold Int32.and. rewrite (toInt32_small 31) by lia.
  change 31 with (Z.ones 5). rewrite Z.land_ones by lia.
  apply (toInt32_mod a 5). lia.
Qed.

Lemma shl_mod (a n k : Z) :
  0 <= n < 32 -> 0 <= k <= 32 ->
  Int32.shl a n mod 2 ^ k = (a * 2 ^ n) mod 2 ^ k.
Proof.
  intros Hn Hk. unfold Int32.shl.
  rewrite toInt32_mod by exact Hk.
  rewrite (Z.mod_small n 32) by lia.
  rewrite Z.shiftl_mul_pow2 by lia.
  rewrite Z.mul_mod by (apply Z.pow_nonzero; lia).
  rewrite toInt32_mod by exact Hk.
  rewrite <- Z.mul_mod by (apply Z.pow_nonzero; lia).
  reflexivity.
Qed.

Lemma shl_small (a n : Z) :
  0 <= n < 32 -> 0 <= a -> a * 2 ^ n < 2147483648 ->
  Int32.shl a n = a * 2 ^ n.
Proof.
  intros Hn Ha Hlt. unfold Int32.shl.
  assert (Hp : 0 < 2 ^ n) by (apply Z.pow_pos_nonneg; lia).
  rewrite (Z.mod_small n 32) by lia.
  rewrite (toInt32_small a) by nia.
  rewrite Z.shiftl_mul_pow2 by lia.
  apply toInt32_small. nia.
Qed.

Lemma sar_small (a n : Z) :
  0 <= n < 32 -> 0 <= a < 2147483648 -> Int32.sar a n = a / 2 ^ n.
Proof.
  intros Hn Ha. unfold Int32.sar.
  rewrite (Z.mod_small n 32) by lia.
  rewrite (toInt32_small a) by lia.
  apply Z.shiftr_div_pow2. lia.
Qed.

Lemma shr_div (a n : Z) :
  0 <= n < 32 -> Int32.shr a n = (a mod 4294967296) / 2 ^ n.
Proof.
  intros Hn. unfold Int32.shr, Int32.toUint32, Int32.two32.
  rewrite (Z.mod_small n 32) by lia.
  apply Z.shiftr_div_pow2. lia.
Qed.

(** A disjunction of a multiple of [2 ^ k] and a value below [2 ^ k] is
    their sum. *)
Lemma lor_disjoint (x y k : Z) :
  0 <= k -> 0 <= y < 2 ^ k -> Z.lor (x * 2 ^ k) y = x * 2 ^ k + y.
Proof.
  intros Hk Hy.
  assert (H0 : Z.land (x * 2 ^ k) y = 0).
  { apply Z.bits_inj'. intros i Hi.
    rewrite Z.land_spec, Z.bits_0.
    destruct (Z.lt_ge_cases i k) as [Hlt|Hge].
    - rewrite Z.mul_pow2_bits_low by lia. reflexivity.
    - rewrite <- (Z.mod_small y (2 ^ k)) by lia.
      rewrite Z.mod_pow2_bits_high by lia. apply andb_false_r. }
  rewrite <- Z.lxor_lor by exact H0.
  symmetry. apply Z.add_nocarry_lxor. exact H0.
Qed.

Lemma or_small (x y k : Z) :
  0 <= k -> 0 <= x -> 0 <= y < 2 ^ k -> x * 2 ^ k + y < 2147483648 ->
  Int32.or (x * 2 ^ k) y = x * 2 ^ k + y.
Proof.
  intros Hk Hx Hy Hlt. unfold Int32.or.
  assert (Hp : 0 < 2 ^ k) by (apply Z.pow_pos_nonneg; lia).
  rewrite (toInt32_small (x * 2 ^ k)) by nia.
  rewrite (toInt32_small y) by nia.
  now apply lor_disjoint.
Qed.

End Int32Facts.

(** *** Decoding base 64 *)

Section Base64Facts.

Local Open Scope Z_scope.

Lemma sextetOfChar_range (c : ascii) : 0 <= sextetOfChar c < 64.
Proof.
  assert (H : (0 <=? sextetOfChar c) && (sextetOfChar c <? 64) = true).
  { destruct c as [[] [] [] [] [] [] [] []]; vm_compute; reflexivity. }
  apply andb_prop in H. destruct H as [H1 H2].
  apply Z.leb_le in H1. apply Z.ltb_lt in H2. lia.
Qed.

Lemma rev_nth (b64 : jsstring) (i : nat) :
  Base64.rev b64 i = nth i (sextetsOf b64) 0.
Proof.
  unfold Base64.rev, sextetsOf. revert i.
  induction b64 as [|c b64 IH]; intros i; destruct i; cbn; try reflexivity.
  apply IH.
Qed.

Lemma rev_range (b64 : jsstring) (i : nat) : 0 <= Base64.rev b64 i < 64.
Proof.
  unfold Base64.rev. destruct (nth_error b64 i) as [c|]; [|lia].
  apply (sextetOfChar_range c).
Qed.

Lemma val4 (b a0 a1 a2 a3 : Z) :
  Numeral.val b [a0; a1; a2; a3] = ((a0 * b + a1) * b + a2) * b + a3.
Proof. unfold Numeral.val. cbn. ring. Qed.

Lemma val3 (b a0 a1 a2 : Z) :
  Numeral.val b [a0; a1; a2] = (a0 * b + a1) * b + a2.
Proof. unfold Numeral.val. cbn. ring. Qed.

(** One turn: the three bytes hold the 24 bits of the four characters. *)
Lemma quad_val (b64 : jsstring) (i : nat) :
  Numeral.val 256 (Base64.quad b64 i)
  = Numeral.val 64 [Base64.rev b64 i; Base64.rev b64 (i + 1);
                    Base64.rev b64 (i + 2); Base64.rev b64 (i + 3)]
  /\ inRange 256 (Base64.quad b64 i).
Proof.
  unfold Base64.quad.
  pose proof (rev_range b64 i) as H0. pose proof (rev_range b64 (i + 1)) as H1.
  pose proof (rev_range b64 (i + 2)) as H2.
  pose proof (rev_range b64 (i + 3)) as H3.
  set (r0 := Base64.rev b64 i) in *. set (r1 := Base64.rev b64 (i + 1)) in *.
  set (r2 := Base64.rev b64 (i + 2)) in *.
  set (r3 := Base64.rev b64 (i + 3)) in *.
  rewrite (shl_small r0 18), (shl_small r1 12), (shl_small r2 6)
    by (try change (2 ^ 18) with 262144; try change (2 ^ 12) with 4096;
        try change (2 ^ 6) with 64; lia).
  rewrite (or_small r0 (r1 * 2 ^ 12) 18)
    by (try change (2 ^ 18) with 262144; try change (2 ^ 12) with 4096; lia).
  replace (r0 * 2 ^ 18 + r1 * 2 ^ 12) with ((r0 * 64 + r1) * 2 ^ 12)
    by (change (2 ^ 18) with 262144; change (2 ^ 12) with 4096; ring).
  rewrite (or_small (r0 * 64 + r1) (r2 * 2 ^ 6) 12)
    by (try change (2 ^ 12) with 4096; try change (2 ^ 6) with 64; lia).
  replace ((r0 * 64 + r1) * 2 ^ 12 + r2 * 2 ^ 6)
    with (((r0 * 64 + r1) * 64 + r2) * 2 ^ 6)
    by (change (2 ^ 12) with 4096; change (2 ^ 6) with 64; ring).
  rewrite (or_small ((r0 * 64 + r1) * 64 + r2) r3 6)
    by (try change (2 ^ 6) with 64; lia).
  change (2 ^ 6) with 64.
  set (tmp := ((r0 * 64 + r1) * 64 + r2) * 64 + r3).
  assert (Ht : 0 <= tmp < 16777216) by (unfold tmp; lia).
  rewrite !and_255, (sar_small tmp 16), (sar_small tmp 8) by lia.
  change (2 ^ 16) with 65536. change (2 ^ 8) with 256.
  rewrite val3, val4. fold tmp.
  split.
  - Z.div_mod_to_equations. lia.
  - repeat constructor; apply Z.mod_pos_bound; lia.
Qed.

Lemma quadsFrom_snoc (k : nat) (b64 : jsstring) (i : nat) :
  quadsFrom (S k) b64 i
  = quadsFrom k b64 i ++ Base64.quad b64 (i + 4 * k)%nat.
Proof.
  unfold quadsFrom. rewrite seq_S, flat_map_app. cbn [flat_map Nat.add].
  now rewrite app_nil_r.
Qed.

Lemma quadsFrom_cons (k : nat) (b64 : jsstring) (i : nat) :
  quadsFrom (S k) b64 i = Base64.quad b64 i ++ quadsFrom k b64 (i + 4)%nat.
Proof.
  unfold quadsFrom. cbn [seq flat_map]. rewrite Nat.mul_0_r, Nat.add_0_r.
  f_equal. rewrite <- seq_shift, flat_map_concat_map, map_map,
    <- flat_map_concat_map.
  apply flat_map_ext. intros j. f_equal. lia.
Qed.

Lemma mainLoop_spec (b64 : jsstring) (k : nat) :
  forall fuel i len,
    (k < fuel)%nat -> (len <= i + 4 * k)%nat ->
    (k = 0%nat \/ i + 4 * (k - 1) < len)%nat ->
    Base64.mainLoop fuel b64 i len = (quadsFrom k b64 i, (i + 4 * k)%nat).
Proof.
  induction k as [|k IH]; intros fuel i len Hf Hle Hlt.
  - destruct fuel as [|fuel]; [lia|]. cbn [Base64.mainLoop].
    assert (E : (i <? len)%nat = false) by (apply Nat.ltb_ge; lia).
    rewrite E. f_equal. lia.
  - destruct fuel as [|fuel]; [lia|]. cbn [Base64.mainLoop].
    assert (E : (i <? len)%nat = true) by (apply Nat.ltb_lt; lia).
    rewrite E, (IH fuel (i + 4)%nat len) by lia.
    rewrite quadsFrom_cons. f_equal. lia.
Qed.

Lemma quads_val (b64 : jsstring) (k : nat) :
  Numeral.val 256 (quadsFrom k b64 0)
  = Numeral.val 64 (map (Base64.rev b64) (seq 0 (4 * k)))
  /\ inRange 256 (quadsFrom k b64 0)
  /\ length (quadsFrom k b64 0) = (3 * k)%nat.
Proof.
  induction k as [|k (IHv & IHr & IHl)]; [repeat split; constructor|].
  rewrite quadsFrom_snoc.
  destruct (quad_val b64 (0 + 4 * k)) as (Hv & Hr).
  replace (4 * S k)%nat with (4 * k + 4)%nat by lia.
  rewrite seq_app, map_app. cbn [seq map].
  rewrite (val_app 256) by lia. rewrite (val_app 64) by lia.
  rewrite Hv, IHv. cbn [length Nat.add].
  repeat split.
  - assert (El : forall j, length (Base64.quad b64 j) = 3%nat) by reflexivity.
    rewrite El. cbn [Nat.add].
    replace (4 * k + 1)%nat with (S (4 * k)) by lia.
    replace (4 * k + 2)%nat with (S (S (4 * k))) by lia.
    replace (4 * k + 3)%nat with (S (S (S (4 * k)))) by lia.
    change (256 ^ Z.of_nat 3) with 16777216.
    change (64 ^ Z.of_nat 4) with 16777216. reflexivity.
  - apply Forall_app. now split.
  - rewrite length_app, IHl. cbn. lia.
Qed.

Lemma map_nth_seq (l : list Z) (d : Z) :
  map (fun i => nth i l d) (seq 0 (length l)) = l.
Proof.
  induction l as [|a l IH]; [reflexivity|].
  cbn [length seq map nth]. f_equal.
  rewrite <- seq_shift, map_map. exact IH.
Qed.

Lemma map_rev_seq (x pad : jsstring) :
  map (Base64.rev (x ++ pad)) (seq 0 (length x)) = sextetsOf x.
Proof.
  rewrite <- (map_nth_seq (sextetsOf x) 0) at 1.
  unfold sextetsOf at 2. rewrite length_map.
  apply map_ext_in. intros i Hi. apply in_seq in Hi.
  rewrite rev_nth. unfold sextetsOf. rewrite map_app.
  apply app_nth1. rewrite length_map. lia.
Qed.

(** The 34 bytes decoded from a 46-character identifier hold its 276 bits
    without the last four. *)
Lemma toByteArray_skylink (x : jsstring) :
  length x = 46%nat ->
  forallb (fun c => negb (Ascii.eqb c "=")) x = true ->
  exists bs,
    Base64.toByteArray (JS.padEnd x (length x + 4 - length x mod 4) "=")
    = Return bs
    /\ inRange 256 bs /\ length bs = 34%nat
    /\ Numeral.val 256 bs = Numeral.val 64 (sextetsOf x) / 16.
Proof.
  intros Hlen Heq.
  assert (Epad : JS.padEnd x (length x + 4 - length x mod 4) "=" = x ++ "==").
  { unfold JS.padEnd. rewrite Hlen. reflexivity. }
  rewrite Epad. set (b64 := x ++ "==").
  assert (Hl : length b64 = 48%nat).
  { unfold b64. rewrite length_app, Hlen. reflexivity. }
  assert (Hi : JS.indexOf b64 "=" = Some 46%nat).
  { unfold b64. change ("==" : jsstring) with ("="%char :: "=").
    rewrite indexOf_app_found by exact Heq. now rewrite Hlen. }
  unfold Base64.toByteArray. rewrite Hl, Hi.
  cbn [Nat.modulo Nat.ltb Nat.leb Nat.eqb Nat.sub Nat.divmod fst snd].
  rewrite (mainLoop_spec b64 11 48 0 42) by lia.
  cbn [Nat.add Nat.mul Nat.eqb app].
  destruct (quads_val b64 11) as (Hv & Hr & Hq).
  pose proof (rev_range b64 44) as H44. pose proof (rev_range b64 45) as H45.
  set (r44 := Base64.rev b64 44) in *. set (r45 := Base64.rev b64 45) in *.
  assert (Et : Int32.and (Int32.or (Int32.shl r44 2) (Int32.sar r45 4)) 255
               = r44 * 4 + r45 / 16).
  { rewrite (shl_small r44 2), (sar_small r45 4)
      by (try change (2 ^ 2) with 4; lia).
    change (2 ^ 4) with 16.
    rewrite (or_small r44 (r45 / 16) 2)
      by (try change (2 ^ 2) with 4; try lia;
          Z.div_mod_to_equations; lia).
    change (2 ^ 2) with 4. rewrite and_255.
    apply Z.mod_small. Z.div_mod_to_equations. lia. }
  eexists. split; [reflexivity|]. rewrite Et.
  split; [|split].
  - apply Forall_app. split; [exact Hr|].
    constructor; [|constructor]. Z.div_mod_to_equations. lia.
  - rewrite length_app, Hq. reflexivity.
  - rewrite (val_snoc 256), Hv.
    assert (Es : sextetsOf x
                 = map (Base64.rev b64) (seq 0 (4 * 11)) ++ [r44; r45]).
    { rewrite <- (map_rev_seq x "=="). rewrite Hlen.
      change (seq 0 46) with (seq 0 (4 * 11) ++ [44%nat; 45%nat]).
      now rewrite map_app. }
    rewrite Es, (val_app 64) by lia.
    set (V := Numeral.val 64 (map (Base64.rev b64) (seq 0 (4 * 11)))).
    change (Numeral.val 64 [r44; r45]) with ((0 * 64 + r44) * 64 + r45).
    change (64 ^ Z.of_nat (length [r44; r45])) with 4096.
    Z.div_mod_to_equations. lia.
Qed.

End Base64Facts.

(** *** Encoding base 32 *)

Section Base32Facts.

Local Open Scope Z_scope.

Lemma qchars_snoc (qs : list Z) (q : Z) :
  qchars qs ++ Base32.at_ q = qchars (qs ++ [q]).
Proof. unfold qchars. rewrite flat_map_app. cbn. now rewrite app_nil_r. Qed.

(** The five bits the inner loop emits, and what stays behind. *)
Lemma quintet_eq (value n : Z) :
  0 <= n <= 27 ->
  ((value mod 4294967296) / 2 ^ n) mod 32 * 2 ^ n + value mod 2 ^ n
  = value mod 2 ^ (n + 5).
Proof.
  intros Hn.
  assert (Hp : 0 < 2 ^ n) by (apply Z.pow_pos_nonneg; lia).
  assert (Hd : (2 ^ n * 32 | 4294967296)).
  { exists (2 ^ (27 - n)).
    replace (2 ^ (27 - n) * (2 ^ n * 32)) with (2 ^ (27 - n) * 2 ^ n * 2 ^ 5)
      by (change (2 ^ 5) with 32; ring).
    rewrite <- !Z.pow_add_r by lia.
    replace (27 - n + n + 5) with 32 by lia. reflexivity. }
  assert (Hd' : (2 ^ n | 4294967296)).
  { destruct Hd as [q Hq]. exists (q * 32). rewrite Hq. ring. }
  pose proof (Z.rem_mul_r (value mod 4294967296) (2 ^ n) 32) as H.
  rewrite (Z.mod_mod_divide value _ _ Hd), (Z.mod_mod_divide value _ _ Hd') in H.
  rewrite Z.pow_add_r by lia. change (2 ^ 5) with 32.
  rewrite H by lia. ring.
Qed.

Lemma drain_spec (value : Z) (fuel : nat) :
  forall (bits : nat) (qs : list Z),
    (bits <= fuel)%nat -> (bits <= 32)%nat -> inRange 32 qs ->
    exists bits' qs',
      Base32.drain fuel bits value (qchars qs) = (bits', qchars qs')
      /\ (bits' < 5)%nat /\ inRange 32 qs'
      /\ Numeral.val 32 qs' * 2 ^ Z.of_nat bits' + value mod 2 ^ Z.of_nat bits'
         = Numeral.val 32 qs * 2 ^ Z.of_nat bits + value mod 2 ^ Z.of_nat bits
      /\ (5 * length qs' + bits' = 5 * length qs + bits)%nat.
Proof.
  induction fuel as [|fuel IH]; intros bits qs Hf H32 Hqs.
  - exists bits, qs. cbn. repeat split; try assumption; lia.
  - cbn [Base32.drain]. destruct (5 <=? bits)%nat eqn:E.
    + apply Nat.leb_le in E.
      set (n := Z.of_nat (bits - 5)).
      assert (Hn : 0 <= n <= 27) by (unfold n; lia).
      set (q := Int32.and (Int32.shr value n) 31).
      assert (Eq : q = ((value mod 4294967296) / 2 ^ n) mod 32).
      { unfold q. rewrite and_31, shr_div by lia. reflexivity. }
      assert (Hq : 0 <= q < 32) by (rewrite Eq; apply Z.mod_pos_bound; lia).
      rewrite qchars_snoc.
      destruct (IH (bits - 5)%nat (qs ++ [q])) as (bits' & qs' & Hd & Hlt & Hr & Hv & Hc).
      * lia.
      * lia.
      * apply Forall_app. split; [exact Hqs|]. constructor; [exact Hq|constructor].
      * exists bits', qs'. split; [exact Hd|]. split; [exact Hlt|].
        split; [exact Hr|]. split.
        -- rewrite Hv. fold n. rewrite (val_snoc 32).
           pose proof (quintet_eq value n Hn) as Hqe. rewrite <- Eq in Hqe.
           replace (Z.of_nat bits) with (n + 5) by (unfold n; lia).
           rewrite <- Hqe. rewrite Z.pow_add_r by lia. change (2 ^ 5) with 32.
           ring.
        -- rewrite Hc, length_app. cbn [length]. lia.
    + apply Nat.leb_gt in E. exists bits, qs.
      repeat split; try assumption; lia.
Qed.

(** Taking in one byte. *)
Lemma or_shl_mod (value byte k : Z) :
  0 <= byte < 256 -> 0 <= k <= 24 ->
  Int32.or (Int32.shl value 8) byte mod 2 ^ (k + 8)
  = (value mod 2 ^ k) * 256 + byte.
Proof.
  intros Hb Hk. unfold Int32.or.
  rewrite (toInt32_small byte) by lia.
  set (u := Int32.toInt32 (Int32.shl value 8)).
  assert (Hp : 0 < 2 ^ k) by (apply Z.pow_pos_nonneg; lia).
  assert (Hu : forall m, 0 <= m <= 32 -> u mod 2 ^ m = (value * 256) mod 2 ^ m).
  { intros m Hm. unfold u. rewrite toInt32_mod, shl_mod by lia. reflexivity. }
  assert (Hu8 : u mod 256 = 0).
  { change 256 with (2 ^ 8). rewrite Hu by lia. change (2 ^ 8) with 256.
    apply Z.mod_mul. lia. }
  assert (Eu : u = (u / 256) * 2 ^ 8).
  { change (2 ^ 8) with 256. pose proof (Z.div_mod u 256). lia. }
  rewrite Eu, lor_disjoint by (try change (2 ^ 8) with 256; lia).
  rewrite <- Eu. rewrite <- Z.add_mod_idemp_l by (apply Z.pow_nonzero; lia).
  rewrite Hu by lia.
  rewrite Z.pow_add_r by lia. change (2 ^ 8) with 256.
  rewrite Z.mul_mod_distr_r by lia.
  apply Z.mod_small.
  pose proof (Z.mod_pos_bound value (2 ^ k) Hp). nia.
Qed.

Lemma encodeLoop_spec (view : list Z) :
  forall (bits : nat) (value : Z) (qs : list Z) (T : Z),
    inRange 256 view -> (bits <= 4)%nat -> inRange 32 qs ->
    Numeral.val 32 qs * 2 ^ Z.of_nat bits + value mod 2 ^ Z.of_nat bits = T ->
    exists bits' value' qs',
      Base32.encodeLoop view bits value (qchars qs) = (bits', value', qchars qs')
      /\ (bits' <= 4)%nat /\ inRange 32 qs'
      /\ Numeral.val 32 qs' * 2 ^ Z.of_nat bits' + value' mod 2 ^ Z.of_nat bits'
         = fold_left (fun acc d => acc * 256 + d) view T
      /\ (5 * length qs' + bits' = 5 * length qs + bits + 8 * length view)%nat.
Proof.
  induction view as [|byte view IH]; intros bits value qs T Hview Hbits Hqs HT.
  - exists bits, value, qs. cbn. repeat split; try assumption; lia.
  - apply Forall_cons_iff in Hview. destruct Hview as [Hbyte Hview].
    cbn [Base32.encodeLoop fold_left].
    set (value1 := Int32.or (Int32.shl value 8) byte).
    destruct (drain_spec value1 (bits + 8) (bits + 8) qs)
      as (bits1 & qs1 & Hd & Hlt & Hr & Hv & Hc); [lia|lia|exact Hqs|].
    rewrite Hd.
    destruct (IH bits1 value1 qs1 (T * 256 + byte)) as
      (bits' & value' & qs' & He & Hle & Hr' & Hv' & Hc');
      [exact Hview|lia|exact Hr| |].
    + rewrite Hv. rewrite Nat2Z.inj_add. change (Z.of_nat 8) with 8.
      unfold value1. rewrite or_shl_mod by lia.
      rewrite Z.pow_add_r by lia. change (2 ^ 8) with 256.
      rewrite <- HT. ring.
    + exists bits', value', qs'. repeat split; try assumption.
      cbn [length]. lia.
Qed.

(** The 55 characters encoded from 34 bytes hold their 272 bits followed
    by three zeros. *)
Lemma base32Encode_spec (bs : list Z) :
  inRange 256 bs -> length bs = 34%nat ->
  exists Q,
    Base32.base32Encode bs = qchars Q
    /\ inRange 32 Q /\ length Q = 55%nat
    /\ Numeral.val 32 Q = Numeral.val 256 bs * 8.
Proof.
  intros Hbs Hlen. unfold Base32.base32Encode.
  destruct (encodeLoop_spec bs 0 0 [] 0 Hbs) as
    (bits & value & qs & He & Hle & Hr & Hv & Hc);
    [lia|constructor|reflexivity|].
  change (@nil ascii) with (qchars []). rewrite He.
  rewrite Hlen in Hc. cbn [length] in Hc.
  assert (Eb : bits = 2%nat) by lia. subst bits.
  assert (El : length qs = 54%nat) by lia.
  cbn [Nat.ltb Nat.leb Nat.sub]. change (Z.of_nat 3) with 3.
  set (q := Int32.and (Int32.shl value 3) 31).
  assert (Eq : q = (value mod 4) * 8).
  { unfold q. rewrite and_31. change 32 with (2 ^ 5).
    rewrite shl_mod by lia. change (2 ^ 5) with (4 * 8).
    change (2 ^ 3) with 8. apply Z.mul_mod_distr_r; lia. }
  rewrite qchars_snoc. exists (qs ++ [q]).
  split; [reflexivity|]. split; [|split].
  - apply Forall_app. split; [exact Hr|].
    constructor; [|constructor]. rewrite Eq.
    pose proof (Z.mod_pos_bound value 4). lia.
  - rewrite length_app, El. reflexivity.
  - rewrite (val_snoc 32), Eq. change (2 ^ Z.of_nat 2) with 4 in Hv.
    unfold Numeral.val at 2. rewrite <- Hv. ring.
Qed.

Lemma toLowerCase_at (q : Z) :
  0 <= q < 32 -> JS.toLowerCase (Base32.at_ q) = [char32 q].
Proof.
  intros Hq.
  assert (H : exists n, (n < 32)%nat /\ q = Z.of_nat n)
    by (exists (Z.to_nat q); lia).
  destruct H as (n & Hn & ->).
  do 32 (destruct n as [|n]; [reflexivity|]). lia.
Qed.

Lemma toLowerCase_qchars (Q : list Z) :
  inRange 32 Q -> JS.toLowerCase (qchars Q) = map char32 Q.
Proof.
  intros H. induction H as [|q Q Hq HQ IH]; [reflexivity|].
  unfold qchars, JS.toLowerCase in *. cbn [flat_map map].
  rewrite map_app, IH. fold (JS.toLowerCase (Base32.at_ q)).
  now rewrite toLowerCase_at.
Qed.

Lemma skylinkChars_no_pad (x : jsstring) :
  forallb isSkylinkChar x = true ->
  forallb (fun c => negb (Ascii.eqb c "=")) x = true.
Proof.
  apply forallb_imp. intros c.
  destruct c as [[] [] [] [] [] [] [] []]; vm_compute; intros H;
    try discriminate H; reflexivity.
Qed.

(** The conversion of an identifier, as a numeral: the 55 base-32 digits
    of its value without the last four bits, times eight. *)
Lemma convertSkylinkToBase32_spec (x : jsstring) :
  isSkylink x = true ->
  exists Q,
    convertSkylinkToBase32 x = Return (map char32 Q)
    /\ inRange 32 Q /\ length Q = 55%nat
    /\ Numeral.val 32 Q = Numeral.val 64 (sextetsOf x) / 16 * 8.
Proof.
  intros Hid.
  destruct (toByteArray_skylink x (skylink_length x Hid)
              (skylinkChars_no_pad x (skylink_chars x Hid)))
    as (bs & Hb & Hr & Hl & Hv).
  destruct (base32Encode_spec bs Hr Hl) as (Q & He & HQ & HlQ & HvQ).
  exists Q. unfold convertSkylinkToBase32. rewrite Hb, He.
  rewrite (toLowerCase_qchars Q HQ), HvQ, Hv. auto.
Qed.

End Base32Facts.

(** *** The inverse conversion *)

Section Roundtrip.

Local Open Scope Z_scope.

Lemma value32_char32 (q : Z) :
  0 <= q < 32 -> FromBase32.value32 (char32 q) = Some q.
Proof.
  intros Hq.
  assert (H : exists n, (n < 32)%nat /\ q = Z.of_nat n)
    by (exists (Z.to_nat q); lia).
  destruct H as (n & Hn & ->).
  do 32 (destruct n as [|n]; [reflexivity|]). lia.
Qed.

Lemma values32_map (Q : list Z) :
  inRange 32 Q -> FromBase32.values32 (map char32 Q) = Some Q.
Proof.
  intros H. induction H as [|q Q Hq HQ IH]; [reflexivity|].
  cbn [map FromBase32.values32]. now rewrite value32_char32, IH.
Qed.

Lemma char64_sextet (c : ascii) :
  isSkylinkChar c = true -> FromBase32.char64 (sextetOfChar c) = c.
Proof.
  destruct c as [[] [] [] [] [] [] [] []]; vm_compute; intros H;
    try discriminate H; reflexivity.
Qed.

Lemma sextet_char64 (v : Z) :
  0 <= v < 64 ->
  sextetOfChar (FromBase32.char64 v) = v
  /\ isSkylinkChar (FromBase32.char64 v) = true.
Proof.
  intros Hv.
  assert (H : exists n, (n < 64)%nat /\ v = Z.of_nat n)
    by (exists (Z.to_nat v); lia).
  destruct H as (n & Hn & ->).
  do 64 (destruct n as [|n]; [split; reflexivity|]). lia.
Qed.

Lemma char32_value32 (c : ascii) :
  isBase32Char c = true ->
  exists v, FromBase32.value32 c = Some v /\ 0 <= v < 32 /\ char32 v = c.
Proof.
  destruct c as [[] [] [] [] [] [] [] []]; vm_compute; intros H;
    try discriminate H; eexists; repeat split; discriminate.
Qed.

Lemma map_char64_sextets (x : jsstring) :
  forallb isSkylinkChar x = true ->
  map FromBase32.char64 (sextetsOf x) = x.
Proof.
  intros H. unfold sextetsOf. rewrite map_map.
  rewrite <- (map_id x) at 2. apply map_ext_in. intros c Hc.
  apply char64_sextet. rewrite forallb_forall in H. now apply H.
Qed.

Lemma sextets_map_char64 (S : list Z) :
  inRange 64 S ->
  sextetsOf (map FromBase32.char64 S) = S
  /\ forallb isSkylinkChar (map FromBase32.char64 S) = true.
Proof.
  intros H. induction H as [|v S Hv HS (IH1 & IH2)]; [split; reflexivity|].
  destruct (sextet_char64 v Hv) as (E1 & E2).
  unfold sextetsOf in *. cbn [map forallb]. now rewrite E1, E2, IH1, IH2.
Qed.

Lemma values32_base32 (y : jsstring) :
  forallb isBase32Char y = true ->
  exists Q, FromBase32.values32 y = Some Q /\ inRange 32 Q
            /\ map char32 Q = y /\ length Q = length y.
Proof.
  induction y as [|c y IH]; intros H.
  - exists []. repeat split. constructor.
  - cbn in H. apply andb_prop in H. destruct H as [Hc H].
    destruct (IH H) as (Q & EQ & HQ & Hm & Hl).
    destruct (char32_value32 c Hc) as (v & Ev & Hv & Hcv).
    exists (v :: Q). cbn [FromBase32.values32 map length].
    rewrite Ev, EQ, Hcv, Hm, Hl. repeat split. now constructor.
Qed.

Lemma list_last_nth {A : Type} (n : nat) (d : A) :
  forall l : list A, length l = S n -> l = firstn n l ++ [nth n l d].
Proof.
  induction n as [|n IH]; intros l Hl.
  - destruct l as [|a [|b l]]; try discriminate Hl. reflexivity.
  - destruct l as [|a l]; [discriminate Hl|]. cbn in Hl.
    cbn [firstn nth app]. f_equal. apply IH. lia.
Qed.

(** The value of a numeral is a multiple of [m] when its base and its last
    digit are. *)
Lemma val_last_mod (b m : Z) (n : nat) (ds : list Z) :
  0 < m -> (m | b) -> length ds = S n -> nth n ds 0 mod m = 0 ->
  Numeral.val b ds mod m = 0.
Proof.
  intros Hm [q Hq] Hl Hlast.
  rewrite (list_last_nth n 0 ds Hl), val_snoc.
  rewrite Hq. rewrite Z.add_mod by lia.
  rewrite Hlast, Z.mul_assoc, Z.mod_mul by lia. reflexivity.
Qed.

Lemma fromBase32_spec (Q : list Z) :
  inRange 32 Q -> length Q = 55%nat ->
  FromBase32.fromBase32 (map char32 Q)
  = Some (map FromBase32.char64
            (Numeral.digits 64 46 (Numeral.val 32 Q / 8 * 16))).
Proof.
  intros HQ Hl. unfold FromBase32.fromBase32, FromBase32.decodeBase32.
  rewrite (values32_map Q HQ).
  unfold FromBase32.encodeBase64url, FromBase32.sextetsOfBytes,
    FromBase32.bytesOfQuintets.
  rewrite Hl. change ((5 * 55) / 8)%nat with 34%nat.
  change (Z.of_nat (5 * 55 - 8 * 34)) with 3.
  rewrite (digits_length 256) by lia.
  change ((8 * 34 + 5) / 6)%nat with 46%nat.
  change (Z.of_nat (6 * 46 - 8 * 34)) with 4.
  change (2 ^ 3) with 8. change (2 ^ 4) with 16.
  assert (Hw : 0 <= Numeral.val 32 Q / 8 < 256 ^ Z.of_nat 34).
  { pose proof (val_range 32 ltac:(lia) Q HQ) as Hr. rewrite Hl in Hr.
    assert (E : 32 ^ Z.of_nat 55 = 8 * 256 ^ Z.of_nat 34) by reflexivity.
    rewrite E in Hr. split.
    - apply Z.div_pos; lia.
    - apply Z.div_lt_upper_bound; lia. }
  now rewrite (val_digits 256 ltac:(lia) 34 _ Hw).
Qed.

Lemma sextetsOf_range (x : jsstring) : inRange 64 (sextetsOf x).
Proof.
  unfold sextetsOf, inRange. apply Forall_map, Forall_forall.
  intros c _. apply sextetOfChar_range.
Qed.

Lemma fromBase32_convert (x : jsstring) :
  isCanonicalSkylink x = true ->
  exists y, convertSkylinkToBase32 x = Return y /\ length y = 55%nat
            /\ FromBase32.fromBase32 y = Some x.
Proof.
  intros H. unfold isCanonicalSkylink in H.
  apply andb_prop in H. destruct H as [Hid Hlast]. apply Z.eqb_eq in Hlast.
  destruct (convertSkylinkToBase32_spec x Hid) as (Q & Ec & HQ & Hl & Hv).
  exists (map char32 Q). split; [exact Ec|].
  split; [now rewrite length_map|].
  rewrite (fromBase32_spec Q HQ Hl). f_equal.
  assert (Hls : length (sextetsOf x) = 46%nat).
  { unfold sextetsOf. rewrite length_map. apply (skylink_length x Hid). }
  assert (Hm : Numeral.val 64 (sextetsOf x) mod 16 = 0).
  { apply (val_last_mod 64 16 45); [lia|now exists 4|exact Hls|].
    unfold sextetsOf. change 0 with (sextetOfChar "A") at 1.
    rewrite map_nth. exact Hlast. }
  set (V := Numeral.val 64 (sextetsOf x)) in *.
  replace (Numeral.val 32 Q / 8 * 16) with V.
  2:{ rewrite Hv, Z.div_mul by lia. Z.div_mod_to_equations. lia. }
  unfold V. rewrite <- Hls. rewrite (digits_val 64) by (try lia; apply sextetsOf_range).
  apply map_char64_sextets. apply (skylink_chars x Hid).
Qed.

Lemma convert_fromBase32 (y : jsstring) :
  isCanonicalBase32 y = true ->
  exists x, FromBase32.fromBase32 y = Some x /\ isSkylink x = true
            /\ convertSkylinkToBase32 x = Return y.
Proof.
  intros H. unfold isCanonicalBase32 in H.
  apply andb_prop in H. destruct H as [H Hlast].
  apply andb_prop in H. destruct H as [Hlen Hchars].
  apply Nat.eqb_eq in Hlen.
  destruct (values32_base32 y Hchars) as (Q & EQ & HQ & Hm & Hl).
  rewrite Hlen in Hl.
  (* the value of the 55 digits is a multiple of eight *)
  assert (Hm8 : Numeral.val 32 Q mod 8 = 0).
  { apply (val_last_mod 32 8 54); [lia|now exists 4|exact Hl|].
    rewrite <- Hm in Hlast.
    change "0"%char with (char32 0) in Hlast. rewrite map_nth in Hlast.
    assert (Hn : 0 <= nth 54 Q 0 < 32).
    { assert (Hin : In (nth 54 Q 0) Q) by (apply nth_In; lia).
      unfold inRange in HQ. rewrite Forall_forall in HQ. now apply HQ. }
    rewrite (value32_char32 _ Hn) in Hlast. now apply Z.eqb_eq. }
  set (W := Numeral.val 32 Q / 8).
  assert (HW : 0 <= W < 256 ^ Z.of_nat 34).
  { pose proof (val_range 32 ltac:(lia) Q HQ) as Hr. rewrite Hl in Hr.
    assert (E : 32 ^ Z.of_nat 55 = 8 * 256 ^ Z.of_nat 34) by reflexivity.
    rewrite E in Hr. unfold W. split.
    - apply Z.div_pos; lia.
    - apply Z.div_lt_upper_bound; lia. }
  set (S := Numeral.digits 64 46 (W * 16)).
  assert (HS : inRange 64 S) by (apply digits_range; lia).
  destruct (sextets_map_char64 S HS) as (Es & Hcs).
  exists (map FromBase32.char64 S).
  assert (Hid : isSkylink (map FromBase32.char64 S) = true).
  { unfold isSkylink. rewrite length_map, Hcs. unfold S.
    rewrite (digits_length 64). reflexivity. }
  split; [|split; [exact Hid|]].
  - rewrite <- Hm. apply (fromBase32_spec Q HQ Hl).
  - destruct (convertSkylinkToBase32_spec _ Hid) as (Q' & Ec & HQ' & Hl' & Hv').
    rewrite Ec, <- Hm. do 2 f_equal.
    apply (val_inj 32); [assumption|assumption|congruence|].
    rewrite Hv', Es. unfold S.
    rewrite (val_digits 64) by
      (try lia; assert (E : 64 ^ Z.of_nat 46 = 16 * 256 ^ Z.of_nat 34)
         by reflexivity; rewrite E; lia).
    rewrite Z.div_mul by lia. unfold W.
    Z.div_mod_to_equations. lia.
Qed.

(** C4, counterexample: two identifiers that differ in the last four bits
    of their last character have the same base-32 form, so that the
    inverse conversion returns the first for the second; no function at
    all can undo the conversion on every identifier. *)
Lemma convertSkylinkToBase32_loses_bits :
  isSkylink exampleSkylinkTwin = true
  /\ convertSkylinkToBase32 exampleSkylinkTwin = Return exampleBase32
  /\ FromBase32.fromBase32 exampleBase32 = Some exampleSkylink
  /\ exampleSkylink <> exampleSkylinkTwin
  /\ ~ (exists undo : jsstring -> jsstring,
          forall x y, isSkylink x = true ->
                      convertSkylinkToBase32 x = Return y -> undo y = x).
Proof.
  assert (E1 : convertSkylinkToBase32 exampleSkylinkTwin = Return exampleBase32)
    by (vm_compute; reflexivity).
  assert (E2 : convertSkylinkToBase32 exampleSkylink = Return exampleBase32)
    by (vm_compute; reflexivity).
  assert (Hne : exampleSkylink <> exampleSkylinkTwin)
    by (vm_compute; discriminate).
  split; [vm_compute; reflexivity|]. split; [exact E1|].
  split; [vm_compute; reflexivity|]. split; [exact Hne|].
  intros [undo Hundo]. apply Hne.
  rewrite <- (Hundo exampleSkylink exampleBase32 eq_refl E2).
  apply (Hundo exampleSkylinkTwin exampleBase32 eq_refl E1).
Qed.

(** C4, amended: on canonical forms the two conversions are inverse to
    each other.  A canonical identifier (46 characters, the last four bits
    zero) is returned by [fromBase32] from its base-32 form, which has 55
    characters; a canonical base-32 form (55 lower-case characters, the
    last three bits zero) is returned by [convertSkylinkToBase32] from the
    identifier [fromBase32] gives for it. *)
Theorem base32_roundtrip_canonical (x y : jsstring)
  (Hx : isCanonicalSkylink x = true) (Hy : isCanonicalBase32 y = true) :
  (exists y', convertSkylinkToBase32 x = Return y' /\ length y' = 55%nat
              /\ FromBase32.fromBase32 y' = Some x)
  /\ (exists x', FromBase32.fromBase32 y = Some x' /\ isSkylink x' = true
               /\ convertSkylinkToBase32 x' = Return y).
Proof.
  split; [now apply fromBase32_convert|now apply convert_fromBase32].
Qed.

(** C4, witness: the identifier of the specification and its base-32
    form. *)
Lemma base32_roundtrip_canonical_witness :
  (exists y', convertSkylinkToBase32 exampleSkylink = Return y'
              /\ length y' = 55%nat
              /\ FromBase32.fromBase32 y' = Some exampleSkylink)
  /\ (exists x', FromBase32.fromBase32 exampleBase32 = Some x'
               /\ isSkylink x' = true
               /\ convertSkylinkToBase32 x' = Return exampleBase32).
Proof.
  apply (base32_roundtrip_canonical exampleSkylink exampleBase32);
    vm_compute; reflexivity.
Defined.

End Roundtrip.

(** * Further properties of the sources *)

(** ** The trimming functions of src/utils.ts *)

Lemma startsWith_split (str p : jsstring) :
  JS.startsWith str p = true -> str = p ++ JS.slice str (length p).
Proof.
  revert str; induction p as [|c p IH]; intros str H.
  - reflexivity.
  - destruct str as [|d str]; [discriminate|].
    cbn in H. apply andb_true_iff in H as [Hc Hp].
    apply Ascii.eqb_eq in Hc; subst d.
    cbn. f_equal. apply IH, Hp.
Qed.

Lemma startsWith_same_app (p q r : jsstring) :
  JS.startsWith (p ++ r) (p ++ q) = JS.startsWith r q.
Proof.
  induction p as [|c p IH]; [reflexivity|].
  cbn. rewrite Ascii.eqb_refl. exact IH.
Qed.

Lemma startsWith_self_app (p r : jsstring) : JS.startsWith (p ++ r) p = true.
Proof.
  pose proof (startsWith_same_app p [] r) as H.
  rewrite app_nil_r, startsWith_nil in H. exact H.
Qed.

Lemma copies_snoc (n : nat) (str : jsstring) :
  copies n str ++ str = copies (S n) str.
Proof.
  unfold copies. induction n as [|n IH]; cbn.
  - now rewrite app_nil_r.
  - rewrite <- app_assoc. f_equal. exact IH.
Qed.

Lemma trimPrefix_loop_strips (fuel : nat) (str prefix : jsstring) :
  prefix <> [] -> length str <= fuel ->
  JS.startsWith (trimPrefix_loop fuel str prefix) prefix = false
  /\ exists n, str = copies n prefix ++ trimPrefix_loop fuel str prefix.
Proof.
  intros Hp. revert str; induction fuel as [|fuel IH]; intros str Hl.
  - destruct str; [|cbn in Hl; lia]. cbn. split.
    + destruct prefix; [congruence|reflexivity].
    + exists 0. reflexivity.
  - cbn [trimPrefix_loop]. destruct (JS.startsWith str prefix) eqn:E.
    + pose proof (startsWith_split _ _ E) as Hs.
      assert (Hl' : length (JS.slice str (length prefix)) <= fuel).
      { unfold JS.slice. rewrite length_skipn.
        destruct prefix; [congruence|]. cbn [length]. lia. }
      destruct (IH _ Hl') as [H1 [n H2]]. split; [exact H1|].
      exists (S n). rewrite Hs at 1. rewrite H2 at 1.
      unfold copies. cbn. now rewrite app_assoc.
    + split; [exact E|]. exists 0. reflexivity.
Qed.

(** X1 ([trimPrefix], src/utils.ts): with a prefix that is not empty, the
    loop ends within its fuel: what it returns no longer starts with the
    prefix, and the input is some number of copies of the prefix followed
    by what is returned. *)
Theorem trimPrefix_strips_every_copy (str prefix : jsstring) :
  prefix <> [] ->
  JS.startsWith (trimPrefix str prefix) prefix = false
  /\ exists n, str = copies n prefix ++ trimPrefix str prefix.
Proof.
  intros Hp. apply trimPrefix_loop_strips; [exact Hp|apply le_n].
Qed.

Lemma trimPrefix_strips_every_copy_witness :
  JS.startsWith (trimPrefix "ababc" "ab") "ab" = false
  /\ exists n, ("ababc" : jsstring) = copies n "ab" ++ trimPrefix "ababc" "ab".
Proof.
  apply (trimPrefix_strips_every_copy "ababc" "ab"). discriminate.
Defined.

Lemma endsWith_split (str p : jsstring) :
  JS.endsWith str p = true ->
  str = JS.substring0 str (length str - length p) ++ p.
Proof.
  unfold JS.endsWith, JS.substring0. intros H.
  apply startsWith_split in H. unfold JS.slice in H.
  rewrite length_rev, skipn_rev in H.
  apply (f_equal (@rev ascii)) in H.
  rewrite rev_involutive, rev_app_distr, !rev_involutive in H. exact H.
Qed.

Lemma trimSuffix_loop_strips (fuel : nat) (str suffix : jsstring) :
  suffix <> [] -> length str <= fuel ->
  JS.endsWith (trimSuffix_loop fuel str suffix) suffix = false
  /\ exists n, str = trimSuffix_loop fuel str suffix ++ copies n suffix.
Proof.
  intros Hp. revert str; induction fuel as [|fuel IH]; intros str Hl.
  - destruct str; [|cbn in Hl; lia]. cbn. split.
    + unfold JS.endsWith. cbn [rev].
      destruct (rev suffix) eqn:E; [|reflexivity].
      apply (f_equal (@rev ascii)) in E. rewrite rev_involutive in E.
      cbn in E. congruence.
    + exists 0. reflexivity.
  - cbn [trimSuffix_loop]. destruct (JS.endsWith str suffix) eqn:E.
    + pose proof (endsWith_split _ _ E) as Hs.
      assert (Hl' : length (JS.substring0 str (length str - length suffix))
                    <= fuel).
      { unfold JS.substring0. rewrite length_firstn.
        destruct suffix; [congruence|]. cbn [length]. lia. }
      destruct (IH _ Hl') as [H1 [n H2]]. split; [exact H1|].
      exists (S n). rewrite Hs at 1. rewrite H2 at 1.
      rewrite <- app_assoc. f_equal. apply copies_snoc.
    + split; [exact E|]. exists 0. unfold copies. cbn.
      now rewrite app_nil_r.
Qed.

(** X2 ([trimSuffix], src/utils.ts): with a suffix that is not empty, the
    loop ends within its fuel: what it returns no longer ends with the
    suffix, and the input is what is returned followed by some number of
    copies of the suffix. *)
Theorem trimSuffix_strips_every_copy (str suffix : jsstring) :
  suffix <> [] ->
  JS.endsWith (trimSuffix str suffix) suffix = false
  /\ exists n, str = trimSuffix str suffix ++ copies n suffix.
Proof.
  intros Hp. apply trimSuffix_loop_strips; [exact Hp|apply le_n].
Qed.

Lemma trimSuffix_strips_every_copy_witness :
  JS.endsWith (trimSuffix "a.js.js" ".js") ".js" = false
  /\ exists n, ("a.js.js" : jsstring)
               = trimSuffix "a.js.js" ".js" ++ copies n ".js".
Proof.
  apply (trimSuffix_strips_every_copy "a.js.js" ".js"). discriminate.
Defined.

Lemma dropSlashes_id (str : jsstring) :
  JS.startsWith str "/" = false -> dropSlashes str = str.
Proof.
  rewrite startsWith_slash. destruct str as [|c str]; [reflexivity|].
  intros H. cbn. now rewrite H.
Qed.

Lemma trimSuffix_id (str : jsstring) :
  JS.endsWith str "/" = false -> trimSuffix str "/" = str.
Proof.
  intros H. pose proof (trimSuffix_app_keep str [] H) as K.
  rewrite app_nil_r in K. rewrite K. cbn. apply app_nil_r.
Qed.

Lemma dropSlashes_repeat (n : nat) (str : jsstring) :
  dropSlashes (repeat "/"%char n ++ str) = dropSlashes str.
Proof.
  induction n as [|n IH]; [reflexivity|]. cbn. exact IH.
Qed.

(** X3 ([trimForwardSlash], src/utils.ts): only slashes at the two ends
    are removed, and trimming again changes nothing. *)
Theorem trimForwardSlash_removes_end_slashes (str : jsstring) :
  (exists n m, str = repeat "/"%char n ++ trimForwardSlash str
                     ++ repeat "/"%char m)
  /\ trimForwardSlash (trimForwardSlash str) = trimForwardSlash str.
Proof.
  split.
  - destruct (trimSuffix_prefix str) as [m Hm].
    destruct (dropSlashes_suffix (trimSuffix str "/")) as [n Hn].
    exists n, m. unfold trimForwardSlash. rewrite trimPrefix_slash.
    rewrite app_assoc, <- Hn. exact Hm.
  - destruct (trimForwardSlash_no_slash str) as [H1 H2].
    unfold trimForwardSlash at 1.
    rewrite (trimSuffix_id _ H2), trimPrefix_slash.
    apply dropSlashes_id, H1.
Qed.

(** X4 ([trimForwardSlash], src/utils.ts): a string that neither starts nor
    ends with a slash is returned from between any number of slashes in
    front of it and behind it. *)
Theorem trimForwardSlash_core (n m : nat) (core : jsstring) :
  JS.startsWith core "/" = false -> JS.endsWith core "/" = false ->
  trimForwardSlash (repeat "/"%char n ++ core ++ repeat "/"%char m) = core.
Proof.
  intros Hs He. unfold trimForwardSlash.
  rewrite app_assoc, trimSuffix_app_slashes, trimPrefix_slash.
  destruct core as [|c core].
  - rewrite app_nil_r.
    pose proof (trimSuffix_app_slashes [] n) as K. cbn [app] in K.
    rewrite K. reflexivity.
  - rewrite trimSuffix_id.
    + rewrite dropSlashes_repeat. apply dropSlashes_id, Hs.
    + unfold JS.endsWith in *. rewrite rev_app_distr.
      rewrite startsWith_app_long; [exact He|].
      rewrite !length_rev. cbn. lia.
Qed.

Lemma trimForwardSlash_core_witness :
  trimForwardSlash (repeat "/"%char 2 ++ "a/b" ++ repeat "/"%char 3)
  = ("a/b" : jsstring).
Proof.
  apply (trimForwardSlash_core 2 3 "a/b"); reflexivity.
Defined.

Lemma trimUriPrefix_strips_once_parts (prefix rest : jsstring) :
  trimUriPrefix (prefix ++ "//" ++ rest) prefix = rest
  /\ (JS.startsWith rest "//" = false ->
      trimUriPrefix (prefix ++ rest) prefix = rest)
  /\ (JS.startsWith rest prefix = false ->
      trimUriPrefix rest prefix = rest).
Proof.
  unfold trimUriPrefix. repeat split.
  - pose proof (startsWith_same_app prefix "//" ("//" ++ rest)) as H.
    cbn [app] in H |- *. rewrite H. cbn. rewrite !Ascii.eqb_refl.
    cbn. rewrite startsWith_nil.
    unfold JS.slice. rewrite length_app. cbn [length].
    replace (length prefix + 2) with (2 + length prefix) by lia.
    rewrite <- skipn_skipn, skipn_app, Nat.sub_diag, skipn_all.
    reflexivity.
  - intros H. rewrite startsWith_same_app, H, startsWith_self_app.
    unfold JS.slice. rewrite skipn_app, Nat.sub_diag, skipn_all.
    reflexivity.
  - intros H. rewrite H.
    destruct (JS.startsWith rest (prefix ++ "//")) eqn:E; [|reflexivity].
    apply startsWith_prefix in E. congruence.
Qed.

(** X5 ([trimUriPrefix], src/utils.ts): for every prefix and every rest
    that starts neither with two slashes nor with the prefix, the prefix
    followed by two slashes is removed whole, the prefix alone is removed,
    and the rest on its own is returned as it is. *)
Theorem trimUriPrefix_strips_once (prefix rest : jsstring) :
  JS.startsWith rest "//" = false -> JS.startsWith rest prefix = false ->
  trimUriPrefix (prefix ++ "//" ++ rest) prefix = rest
  /\ trimUriPrefix (prefix ++ rest) prefix = rest
  /\ trimUriPrefix rest prefix = rest.
Proof.
  intros Hs Hp.
  destruct (trimUriPrefix_strips_once_parts prefix rest) as (H1 & H2 & H3).
  auto.
Qed.

Lemma trimUriPrefix_strips_once_witness :
  trimUriPrefix ("hns:" ++ "//" ++ "doesn") "hns:" = ("doesn" : jsstring)
  /\ trimUriPrefix ("hns:" ++ "doesn") "hns:" = ("doesn" : jsstring)
  /\ trimUriPrefix "doesn" "hns:" = ("doesn" : jsstring).
Proof.
  apply (trimUriPrefix_strips_once "hns:" "doesn"); reflexivity.
Defined.

(** ** The modes of [parseSkylink] *)

Lemma endsWith_app_nonempty (a p : jsstring) :
  p <> [] -> JS.endsWith (a ++ p) "/" = JS.endsWith p "/".
Proof.
  intros Hp. unfold JS.endsWith. rewrite rev_app_distr.
  apply startsWith_app_long. rewrite !length_rev.
  destruct p; [congruence|]. cbn. lia.
Qed.

Lemma matchPathname_parts (t : jsstring) :
  JS.endsWith t "/" = false ->
  matchPathname t = None
  \/ exists skylink p,
       isSkylink skylink = true
       /\ (p = [] \/ JS.startsWith p "/" = true)
       /\ JS.endsWith p "/" = false
       /\ matchPathname t = Some (skylink, p)
       /\ trimForwardSlash t = skylink ++ p.
Proof.
  intros Ht.
  set (str' := match t with
               | c :: t' => if Ascii.eqb c "/" then t' else t
               | [] => t
               end).
  rewrite (matchPathname_from t str' eq_refl).
  assert (Hpre : exists pre, (pre = [] \/ pre = "/") /\ t = pre ++ str').
  { subst str'. destruct t as [|c t']; [exists []; auto|].
    destruct (Ascii.eqb c "/") eqn:E.
    - apply Ascii.eqb_eq in E. subst c. exists "/". auto.
    - exists []. auto. }
  destruct Hpre as (pre & Hpre & Et).
  destruct ((length (firstn 46 str') =? 46)
            && forallb isSkylinkChar (firstn 46 str')) eqn:Hid;
    [|left; reflexivity].
  fold (isSkylink (firstn 46 str')) in Hid.
  cbn [andb].
  destruct (match skipn 46 str' with
            | [] => true
            | c :: r => Ascii.eqb c "/" && noLineTerminator r
            end) eqn:Hrest; [|left; reflexivity].
  right. exists (firstn 46 str'), (skipn 46 str').
  set (skylink := firstn 46 str') in *. set (p := skipn 46 str') in *.
  assert (Es : str' = skylink ++ p) by (symmetry; apply firstn_skipn).
  split; [exact Hid|].
  split.
  { destruct p as [|c r]; [left; reflexivity|right].
    apply andb_prop in Hrest. destruct Hrest as [Hc _].
    rewrite startsWith_slash. exact Hc. }
  assert (Hend : JS.endsWith p "/" = false).
  { destruct p as [|c r] eqn:Ep; [reflexivity|].
    assert (K : JS.endsWith t "/" = JS.endsWith (c :: r) "/").
    { rewrite Et, Es, app_assoc. apply endsWith_app_nonempty.
      discriminate. }
    rewrite <- K. exact Ht. }
  split; [exact Hend|]. split; [reflexivity|].
  unfold trimForwardSlash. rewrite (trimSuffix_id _ Ht), trimPrefix_slash.
  rewrite Et, Es.
  pose proof (startsWith_skylink_app skylink Hid p "/" (or_introl eq_refl))
    as Hno.
  destruct Hpre as [-> | ->].
  - apply dropSlashes_id. exact Hno.
  - change (("/" : jsstring) ++ skylink ++ p)
      with ("/"%char :: skylink ++ p).
    cbn [dropSlashes]. rewrite Ascii.eqb_refl.
    apply dropSlashes_id. exact Hno.
Qed.

Lemma parseSkylink_skylink (skylink : jsstring) :
  isSkylink skylink = true ->
  parseSkylink skylink defaultOpts = Return (Some skylink).
Proof.
  intros Hid. unfold parseSkylink. cbn [includePath onlyPath fromSubdomain andb].
  pose proof (startsWith_sia_skylink skylink [] Hid) as Hs.
  rewrite app_nil_r in Hs. rewrite (trimUriPrefix_none _ Hs).
  unfold matchDirect. fold (isSkylink skylink). rewrite Hid. reflexivity.
Qed.

Lemma parseSkylink_modes (skylinkStr : jsstring) :
  (parseSkylink skylinkStr defaultOpts = Return None
   /\ parseSkylink skylinkStr optsOnlyPath = Return None
   /\ parseSkylink skylinkStr optsIncludePath = Return None)
  \/ exists skylink p,
       isSkylink skylink = true
       /\ (p = [] \/ JS.startsWith p "/" = true)
       /\ JS.endsWith p "/" = false
       /\ parseSkylink skylinkStr defaultOpts = Return (Some skylink)
       /\ parseSkylink skylinkStr optsOnlyPath = Return (Some p)
       /\ parseSkylink skylinkStr optsIncludePath
          = Return (Some (skylink ++ p))
       /\ parseSkylink skylink defaultOpts = Return (Some skylink).
Proof.
  rewrite !parseSkylink_by_path by reflexivity.
  unfold resultFromPath.
  cbn [includePath onlyPath defaultOpts optsOnlyPath optsIncludePath].
  destruct (matchPathname_parts (skylinkAndPathOf skylinkStr)) as
    [E | (skylink & p & Hid & Hp & Hend & E & Ht)].
  - apply trimSuffix_slash_done.
  - left. rewrite E. auto.
  - right. exists skylink, p. rewrite E, Ht.
    assert (Hs : JS.str_eqb p "/" = false).
    { destruct (JS.str_eqb p "/") eqn:Es; [|reflexivity].
      apply str_eqb_eq in Es. subst p. discriminate Hend. }
    rewrite Hs. repeat split; try assumption.
    now apply parseSkylink_skylink.
Qed.

(** X6 ([parseSkylink], src/utils.ts): on every input the three modes
    other than [fromSubdomain] agree.  Either all return null, or the
    default mode returns a valid identifier, the [onlyPath] mode a path
    that is empty or starts with a slash and never ends with one, and the
    [includePath] mode the two joined; parsing the identifier again
    returns it. *)
Theorem parseSkylink_modes_agree (skylinkStr : jsstring) :
  (parseSkylink skylinkStr defaultOpts = Return None
   /\ parseSkylink skylinkStr optsOnlyPath = Return None
   /\ parseSkylink skylinkStr optsIncludePath = Return None)
  \/ exists skylink p,
       isSkylink skylink = true
       /\ (p = [] \/ JS.startsWith p "/" = true)
       /\ JS.endsWith p "/" = false
       /\ parseSkylink skylinkStr defaultOpts = Return (Some skylink)
       /\ parseSkylink skylinkStr optsOnlyPath = Return (Some p)
       /\ parseSkylink skylinkStr optsIncludePath
          = Return (Some (skylink ++ p))
       /\ parseSkylink skylink defaultOpts = Return (Some skylink).
Proof. apply parseSkylink_modes. Qed.

(** X7 ([parseSkylink], src/utils.ts): for every supported wrapping of a
    valid identifier with a trailing path, whatever query string or
    fragment follows, the [onlyPath] mode returns the trailing path without
    the slashes at its end. *)
Theorem parseSkylink_onlyPath_wrappings
  (w : Wrapping) (skylink p suffix : jsstring) :
  wellFormedWrapping w = true -> isSkylink skylink = true ->
  isTrailingPath p = true -> isQueryOrFragment suffix = true ->
  parseSkylink (wrap w (skylink ++ p) ++ suffix) optsOnlyPath
  = Return (Some (trimSuffix p "/")).
Proof.
  intros Hw Hid Hp Hsuffix.
  destruct (skylinkAndPathOf_wrap w skylink p Hw Hid Hp)
    as (Hq & pre & Hpre & Hpath).
  rewrite parseSkylink_by_path by reflexivity.
  rewrite skylinkAndPathOf_suffix by assumption.
  rewrite Hpath, resultFromPath_skylink by assumption.
  reflexivity.
Qed.

Lemma parseSkylink_onlyPath_wrappings_witness :
  parseSkylink
    (wrap (InUrl "https" "siasky.net") (exampleSkylink ++ "/foo/bar//")
     ++ "?foo=bar")
    optsOnlyPath
  = Return (Some (trimSuffix "/foo/bar//" "/")).
Proof.
  apply (parseSkylink_onlyPath_wrappings (InUrl "https" "siasky.net")
           exampleSkylink "/foo/bar//" "?foo=bar"); reflexivity.
Defined.

(** ** The [fromSubdomain] mode *)

Lemma hostname_parse_after (x : jsstring) :
  UrlParse.hostname (UrlParse.parse x) = hostnameAfter (afterScheme x).
Proof.
  unfold UrlParse.parse, hostnameAfter, hostnameFrom, afterScheme,
    UrlParse.extractProtocol.
  rewrite trimLeft_idem.
  destruct (UrlParse.matchScheme (UrlParse.trimLeft x)) as [scheme after].
  cbn [snd].
  destruct (JS.startsWith after "//");
    cbn [UrlParse.ex_slashes UrlParse.ex_rest UrlParse.ex_protocol].
  - destruct (UrlParse.cutBack (JS.slice after 2) "#") as [h a1]. cbn [snd].
    destruct (UrlParse.cutBack a1 "?") as [q a2]. cbn [snd].
    destruct (UrlParse.cutBack _ "/") as [pn a3]. cbn [snd].
    destruct (UrlParse.cutFront a3 "@") as [au a4]. cbn [snd].
    destruct (UrlParse.cutPort a4) as [po a5]. reflexivity.
  - destruct (UrlParse.cutBack after "#") as [h a1]. cbn [snd].
    destruct (UrlParse.cutBack a1 "?") as [q a2]. reflexivity.
Qed.

Lemma afterScheme_suffix (x : jsstring) : exists n, afterScheme x = skipn n x.
Proof.
  unfold afterScheme.
  destruct (trimLeft_suffix x) as [n Hn].
  destruct (matchScheme_suffix (UrlParse.trimLeft x)) as [m Hm].
  exists (n + m). rewrite Hm, Hn, skipn_skipn. f_equal. lia.
Qed.

Lemma hasDoubleSlash_skipn (n : nat) (str : jsstring) :
  hasDoubleSlash str = false -> JS.startsWith (skipn n str) "//" = false.
Proof.
  revert str; induction n as [|n IH]; intros str H.
  - destruct str as [|c [|d str]]; try reflexivity.
    + cbn. now rewrite andb_false_r.
    + cbn in H |- *. apply orb_false_iff in H as [H _].
      rewrite startsWith_nil, andb_true_r.
      rewrite (Ascii.eqb_sym "/" c), (Ascii.eqb_sym "/" d). exact H.
  - destruct str as [|c str]; [reflexivity|].
    cbn [skipn]. apply IH.
    cbn in H. apply orb_false_iff in H as [_ H]. exact H.
Qed.

(** X8 ([parseSkylink] and [parseSkylinkBase32], src/utils.ts): in the
    [fromSubdomain] mode an input without two slashes in a row has no
    authority for the URL parser, so the result is null, whatever the
    input holds otherwise and with or without [onlyPath]. *)
Theorem parseSkylink_fromSubdomain_needs_authority
  (skylinkStr : jsstring) (opts : ParseOpts) :
  fromSubdomain opts = true -> includePath opts = false ->
  hasDoubleSlash skylinkStr = false ->
  parseSkylink skylinkStr opts = Return None.
Proof.
  intros Hsub Hinc Hno. unfold parseSkylink, parseSkylinkBase32.
  rewrite Hsub, Hinc. cbn [andb].
  rewrite hostname_parse_after. unfold hostnameAfter.
  destruct (afterScheme_suffix skylinkStr) as [n ->].
  rewrite (hasDoubleSlash_skipn n _ Hno). reflexivity.
Qed.

Lemma parseSkylink_fromSubdomain_needs_authority_witness :
  parseSkylink (exampleBase32 ++ ".siasky.net/foo") optsFromSubdomain
  = Return None.
Proof.
  apply (parseSkylink_fromSubdomain_needs_authority
           (exampleBase32 ++ ".siasky.net/foo") optsFromSubdomain);
    reflexivity.
Defined.

Lemma afterScheme_url (scheme rest : jsstring) :
  isSchemeName scheme = true ->
  afterScheme (scheme ++ "://" ++ rest) = "//" ++ rest.
Proof.
  intros Hs. unfold afterScheme. destruct scheme as [|c run]; [discriminate Hs|].
  cbn in Hs. apply andb_prop in Hs. destruct Hs as [Hc Hrun].
  cbn [app UrlParse.trimLeft].
  rewrite (isAlpha_not_whitespace c Hc).
  cbn [UrlParse.matchScheme]. rewrite Hc.
  change ("://" ++ rest) with (":"%char :: "//" ++ rest).
  rewrite (span_app_stop UrlParse.isSchemeChar run) by (auto; reflexivity).
  rewrite Ascii.eqb_refl. reflexivity.
Qed.

Lemma cutPort_none (address : jsstring) :
  forallb (fun c => negb (Ascii.eqb c ":")) address = true ->
  UrlParse.cutPort address = ([], address).
Proof.
  intros H. unfold UrlParse.cutPort.
  destruct (JS.span JS.isDigit (rev address)) as [ds before] eqn:E.
  destruct ds as [|d ds]; [reflexivity|].
  destruct before as [|c before]; [reflexivity|].
  apply span_spec in E. destruct E as (E & _ & _).
  assert (Hc : negb (Ascii.eqb c ":") = true).
  { rewrite forallb_forall in H. apply H. apply in_rev. rewrite E.
    apply in_or_app. right. left. reflexivity. }
  apply negb_true_iff in Hc. rewrite Hc. reflexivity.
Qed.

Lemma isSubdomainChar_facts (c : ascii) :
  isSubdomainChar c = true ->
  isHostChar c = true /\ negb (Ascii.eqb c "@") = true
  /\ negb (Ascii.eqb c ":") = true /\ JS.lower c = c.
Proof.
  destruct c as [[] [] [] [] [] [] [] []]; vm_compute;
    intros H; try discriminate H; repeat split.
Qed.

Lemma isDomainChar_facts (c : ascii) :
  isDomainChar c = true ->
  isHostChar c = true /\ negb (Ascii.eqb c "@") = true
  /\ negb (Ascii.eqb c ":") = true
  /\ negb (JS.isLineTerminator (JS.lower c)) = true.
Proof.
  destruct c as [[] [] [] [] [] [] [] []]; vm_compute;
    intros H; try discriminate H; repeat split.
Qed.

Lemma forallb_and (p q : ascii -> bool) (l : jsstring) :
  forallb (fun c => p c && q c) l = forallb p l && forallb q l.
Proof.
  induction l as [|c l IH]; [reflexivity|]. cbn. rewrite IH.
  destruct (p c), (q c), (forallb p l); reflexivity.
Qed.

(** The facts about a host name made of a subdomain label and a tail. *)
Lemma host_facts (label tail : jsstring) :
  forallb isSubdomainChar label = true -> isHostTail tail = true ->
  forallb isHostChar (label ++ tail) = true
  /\ forallb (fun c => negb (Ascii.eqb c "@")) (label ++ tail) = true
  /\ forallb (fun c => negb (Ascii.eqb c ":")) (label ++ tail) = true
  /\ JS.toLowerCase (label ++ tail) = label ++ JS.toLowerCase tail
  /\ match JS.toLowerCase tail with
     | [] => true
     | c :: r => Ascii.eqb c "." && noLineTerminator r
     end = true.
Proof.
  intros Hl Ht.
  assert (Htail : forallb isDomainChar tail = true).
  { destruct tail as [|c r]; [reflexivity|]. cbn in Ht |- *.
    apply andb_prop in Ht. destruct Ht as [Hc Hr].
    apply Ascii.eqb_eq in Hc. subst c. exact Hr. }
  rewrite !forallb_app.
  rewrite (forallb_imp _ isHostChar label
             (fun c H => proj1 (isSubdomainChar_facts c H)) Hl).
  rewrite (forallb_imp _ isHostChar tail
             (fun c H => proj1 (isDomainChar_facts c H)) Htail).
  rewrite (forallb_imp _ (fun c => negb (Ascii.eqb c "@")) label
             (fun c H => proj1 (proj2 (isSubdomainChar_facts c H))) Hl).
  rewrite (forallb_imp _ (fun c => negb (Ascii.eqb c "@")) tail
             (fun c H => proj1 (proj2 (isDomainChar_facts c H))) Htail).
  rewrite (forallb_imp _ (fun c => negb (Ascii.eqb c ":")) label
             (fun c H => proj1 (proj2 (proj2 (isSubdomainChar_facts c H)))) Hl).
  rewrite (forallb_imp _ (fun c => negb (Ascii.eqb c ":")) tail
             (fun c H => proj1 (proj2 (proj2 (isDomainChar_facts c H)))) Htail).
  repeat split.
  - unfold JS.toLowerCase. rewrite map_app. f_equal.
    clear -Hl. induction label as [|c l IH]; [reflexivity|].
    cbn in Hl |- *. apply andb_prop in Hl. destruct Hl as [Hc Hl].
    rewrite (proj2 (proj2 (proj2 (isSubdomainChar_facts c Hc)))).
    f_equal. now apply IH.
  - destruct tail as [|c r]; [reflexivity|]. cbn in Ht, Htail.
    apply andb_prop in Ht. destruct Ht as [Hc Hr].
    apply Ascii.eqb_eq in Hc. subst c.
    cbn [JS.toLowerCase map].
    change (JS.lower ".") with "."%char. rewrite Ascii.eqb_refl. cbn [andb].
    unfold noLineTerminator. clear -Hr.
    induction r as [|c r IH]; [reflexivity|].
    cbn in Hr |- *. apply andb_prop in Hr. destruct Hr as [Hc Hr].
    rewrite (proj2 (proj2 (proj2 (isDomainChar_facts c Hc)))).
    now apply IH.
Qed.

Lemma fromSubdomain_url (scheme label tail p suffix : jsstring) :
  isSchemeName scheme = true -> isSubdomainLabel label = true ->
  isHostTail tail = true -> isTrailingPath p = true ->
  isQueryOrFragment suffix = true ->
  parseSkylink (scheme ++ "://" ++ label ++ tail ++ p ++ suffix)
    optsFromSubdomain = Return (Some label)
  /\ parseSkylink (scheme ++ "://" ++ label ++ tail ++ p ++ suffix)
       optsOnlyPathFromSubdomain = Return (Some p).
Proof.
  intros Hs Hlabel Htail Hp Hsuffix.
  unfold isSubdomainLabel in Hlabel. apply andb_prop in Hlabel.
  destruct Hlabel as [Hlen Hl]. apply Nat.eqb_eq in Hlen.
  destruct (host_facts label tail Hl Htail) as (Hh & Hat & Hcolon & Hlow & Hm).
  destruct (hostChars_facts _ Hh) as (Hh1 & Hh2 & Hh3).
  pose proof (isTrailingPath_chars p Hp) as Hpc.
  set (url := scheme ++ "://" ++ label ++ tail ++ p ++ suffix).
  assert (Ea : afterScheme url = "//" ++ ((label ++ tail) ++ p) ++ suffix).
  { subst url. rewrite afterScheme_url by exact Hs.
    now rewrite <- !app_assoc. }
  assert (Ecut : snd (UrlParse.cutBack
                        (snd (UrlParse.cutBack
                                (((label ++ tail) ++ p) ++ suffix) "#")) "?")
                 = (label ++ tail) ++ p).
  { apply cut_hash_query; [|exact Hsuffix].
    rewrite noQueryOrHashMark_app, Hh3.
    now rewrite (pathChars_noQueryOrHashMark p Hpc). }
  assert (Erep : JS.replaceFirst ((label ++ tail) ++ p) UrlParse.backslash "/"
                 = (label ++ tail) ++ p).
  { apply replaceFirst_none. rewrite forallb_app, Hh2.
    now rewrite (pathChars_no_backslash p Hpc). }
  assert (Eslash : UrlParse.cutBack ((label ++ tail) ++ p) "/"
                   = (p, label ++ tail)).
  { destruct p as [|c p'].
    - rewrite app_nil_r. apply cutBack_none. exact Hh1.
    - cbn in Hp. apply andb_prop in Hp. destruct Hp as [Hc _].
      apply Ascii.eqb_eq in Hc. subst c.
      apply cutBack_found. exact Hh1. }
  assert (Ehost : UrlParse.hostname (UrlParse.parse url)
                  = label ++ JS.toLowerCase tail).
  { rewrite hostname_parse_after, Ea. unfold hostnameAfter.
    change (JS.startsWith ("//" ++ ((label ++ tail) ++ p) ++ suffix) "//")
      with (JS.startsWith (((label ++ tail) ++ p) ++ suffix) []).
    rewrite startsWith_nil.
    change (JS.slice ("//" ++ ((label ++ tail) ++ p) ++ suffix) 2)
      with (((label ++ tail) ++ p) ++ suffix).
    unfold hostnameFrom. rewrite Ecut, Erep, Eslash. cbn [snd].
    unfold UrlParse.cutFront. rewrite (indexOf_none _ _ Hat). cbn [snd].
    rewrite (cutPort_none _ Hcolon). cbn [snd]. exact Hlow. }
  assert (Epath : UrlParse.pathname (UrlParse.parse url) = p).
  { rewrite pathname_parse_after, Ea. unfold pathnameAfter.
    change (JS.startsWith ("//" ++ ((label ++ tail) ++ p) ++ suffix) "//")
      with (JS.startsWith (((label ++ tail) ++ p) ++ suffix) []).
    rewrite startsWith_nil.
    change (JS.slice ("//" ++ ((label ++ tail) ++ p) ++ suffix) 2)
      with (((label ++ tail) ++ p) ++ suffix).
    unfold pathnameFrom. rewrite Ecut, Erep, Eslash. reflexivity. }
  assert (Ematch : matchSubdomain (label ++ JS.toLowerCase tail) = Some label).
  { assert (Ef : firstn 55 (label ++ JS.toLowerCase tail) = label).
    { rewrite <- Hlen, firstn_app, Nat.sub_diag, firstn_all.
      cbn [firstn]. apply app_nil_r. }
    assert (Ek : skipn 55 (label ++ JS.toLowerCase tail)
                 = JS.toLowerCase tail).
    { rewrite <- Hlen, skipn_app, Nat.sub_diag, skipn_all. reflexivity. }
    unfold matchSubdomain. rewrite Ef, Ek, Hl, Hm, Hlen. reflexivity. }
  unfold parseSkylink, parseSkylinkBase32.
  cbn [includePath onlyPath fromSubdomain optsFromSubdomain
       optsOnlyPathFromSubdomain andb].
  rewrite Ehost, Ematch, Epath. split; reflexivity.
Qed.

(** X9 ([parseSkylink] and [parseSkylinkBase32], src/utils.ts): for a URL
    whose host name starts with a label of 55 subdomain characters, the
    [fromSubdomain] mode returns the label, and with [onlyPath] it returns
    the path of the URL as it stands, the slashes at its end included. *)
Theorem parseSkylink_fromSubdomain_url
  (scheme label tail p suffix : jsstring) :
  isSchemeName scheme = true -> isSubdomainLabel label = true ->
  isHostTail tail = true -> isTrailingPath p = true ->
  isQueryOrFragment suffix = true ->
  parseSkylink (scheme ++ "://" ++ label ++ tail ++ p ++ suffix)
    optsFromSubdomain = Return (Some label)
  /\ parseSkylink (scheme ++ "://" ++ label ++ tail ++ p ++ suffix)
       optsOnlyPathFromSubdomain = Return (Some p).
Proof. apply fromSubdomain_url. Qed.

Lemma parseSkylink_fromSubdomain_url_witness :
  parseSkylink
    ("https" ++ "://" ++ exampleBase32 ++ ".siasky.net" ++ "/foo/bar/"
     ++ "?foo=bar")
    optsFromSubdomain = Return (Some exampleBase32)
  /\ parseSkylink
       ("https" ++ "://" ++ exampleBase32 ++ ".siasky.net" ++ "/foo/bar/"
        ++ "?foo=bar")
       optsOnlyPathFromSubdomain = Return (Some ("/foo/bar/" : jsstring)).
Proof.
  apply (parseSkylink_fromSubdomain_url "https" exampleBase32 ".siasky.net"
           "/foo/bar/" "?foo=bar"); reflexivity.
Defined.

(** ** [convertSkylinkToBase32] on every input *)

Lemma padEnd_length (input : jsstring) :
  length (JS.padEnd input (length input + 4 - length input mod 4) "=")
  = (length input / 4 + 1) * 4.
Proof.
  unfold JS.padEnd. rewrite length_app, repeat_length.
  pose proof (Nat.div_mod_eq (length input) 4).
  pose proof (Nat.mod_upper_bound (length input) 4 ltac:(lia)).
  lia.
Qed.

Lemma toByteArray_returns (b64 : jsstring) :
  length b64 mod 4 = 0 -> exists bs, Base64.toByteArray b64 = Return bs.
Proof.
  intros H. unfold Base64.toByteArray. rewrite H.
  change (0 <? 0) with false. cbv beta iota zeta.
  destruct (Base64.mainLoop _ _ _ _) as [bs i]. eexists. reflexivity.
Qed.

Lemma char32_base32 (q : Z) :
  (0 <= q < 32)%Z ->
  isBase32Char (char32 q) = true /\ isSubdomainChar (char32 q) = true.
Proof.
  intros Hq.
  assert (H : exists n, n < 32 /\ q = Z.of_nat n)
    by (exists (Z.to_nat q); lia).
  destruct H as (n & Hn & ->).
  do 32 (destruct n as [|n]; [split; reflexivity|]). lia.
Qed.

Lemma at_lower_base32 (a : Z) :
  forallb isBase32Char (JS.toLowerCase (Base32.at_ (Int32.and a 31))) = true.
Proof.
  rewrite and_31.
  assert (Hq : (0 <= a mod 32 < 32)%Z) by (apply Z.mod_pos_bound; lia).
  rewrite (toLowerCase_at _ Hq). cbn [forallb].
  now rewrite (proj1 (char32_base32 _ Hq)).
Qed.

Lemma drain_base32 (fuel : nat) :
  forall (bits : nat) (value : Z) (output : jsstring),
    forallb isBase32Char (JS.toLowerCase output) = true ->
    forallb isBase32Char
      (JS.toLowerCase (snd (Base32.drain fuel bits value output))) = true.
Proof.
  induction fuel as [|fuel IH]; intros bits value output H; [exact H|].
  cbn [Base32.drain]. destruct (5 <=? bits); [|exact H].
  apply IH. unfold JS.toLowerCase in *. rewrite map_app, forallb_app, H.
  apply at_lower_base32.
Qed.

Lemma encodeLoop_base32 (view : list Z) :
  forall (bits : nat) (value : Z) (output : jsstring),
    forallb isBase32Char (JS.toLowerCase output) = true ->
    forallb isBase32Char
      (JS.toLowerCase (snd (Base32.encodeLoop view bits value output)))
    = true.
Proof.
  induction view as [|b view IH]; intros bits value output H; [exact H|].
  cbn [Base32.encodeLoop].
  pose proof (drain_base32 (bits + 8) (bits + 8)
                (Int32.or (Int32.shl value 8) b) output H) as Hd.
  destruct (Base32.drain _ _ _ _) as [bits' output']. cbn [snd] in Hd.
  now apply IH.
Qed.

Lemma base32Encode_base32 (buffer : list Z) :
  forallb isBase32Char (JS.toLowerCase (Base32.base32Encode buffer)) = true.
Proof.
  unfold Base32.base32Encode.
  pose proof (encodeLoop_base32 buffer 0 0%Z [] eq_refl) as H.
  destruct (Base32.encodeLoop buffer 0 0%Z []) as [[bits value] output].
  cbn [snd] in H. destruct (0 <? bits); [|exact H].
  unfold JS.toLowerCase in *. rewrite map_app, forallb_app, H.
  apply at_lower_base32.
Qed.

(** X10 ([convertSkylinkToBase32], src/utils.ts): between one and four
    padding characters are added, four of them when the length is already
    a multiple of four; the padded length is a multiple of four, so the
    length check of the decoder never fires. *)
Theorem convertSkylinkToBase32_padding (input : jsstring) :
  JS.padEnd input (length input + 4 - length input mod 4) "="
  = input ++ repeat "="%char (4 - length input mod 4)
  /\ 1 <= 4 - length input mod 4 <= 4
  /\ length (JS.padEnd input (length input + 4 - length input mod 4) "=")
       mod 4 = 0
  /\ Base64.toByteArray
       (JS.padEnd input (length input + 4 - length input mod 4) "=")
     <> Throw "Invalid string. Length must be a multiple of 4".
Proof.
  pose proof (Nat.mod_upper_bound (length input) 4 ltac:(lia)) as Hm.
  split; [|split; [|split]].
  - unfold JS.padEnd. f_equal. f_equal. lia.
  - lia.
  - rewrite padEnd_length. apply Nat.Div0.mod_mul.
  - destruct (toByteArray_returns
                (JS.padEnd input (length input + 4 - length input mod 4) "="))
      as [bs Hb].
    { rewrite padEnd_length. apply Nat.Div0.mod_mul. }
    rewrite Hb. discriminate.
Qed.

(** The decoder on an input of [4 * q + r] characters without padding,
    [r] being 1, 2 or 3: [q] turns of the main loop and [r - 1] bytes from
    the characters left over. *)
Lemma toByteArray_unpadded (input : jsstring) (q r : nat) :
  length input = 4 * q + r -> 1 <= r <= 3 -> noPadding input = true ->
  exists bs,
    Base64.toByteArray
      (JS.padEnd input (length input + 4 - length input mod 4) "=")
    = Return bs
    /\ inRange 256 bs /\ length bs = 3 * q + (r - 1).
Proof.
  intros Hlen Hr Hno.
  assert (Emod : (4 * q + r) mod 4 = r).
  { replace (4 * q + r) with (r + q * 4) by lia.
    rewrite Nat.Div0.mod_add. apply Nat.mod_small. lia. }
  assert (Epad : JS.padEnd input (length input + 4 - length input mod 4) "="
                 = input ++ "="%char :: repeat "="%char (3 - r)).
  { unfold JS.padEnd. rewrite Hlen, Emod.
    replace (4 * q + r + 4 - r - (4 * q + r)) with (S (3 - r)) by lia.
    reflexivity. }
  rewrite Epad. set (b64 := input ++ "="%char :: repeat "="%char (3 - r)).
  assert (Hl : length b64 = 4 * q + 4).
  { unfold b64. rewrite length_app, Hlen. cbn [length].
    rewrite repeat_length. lia. }
  assert (Hi : JS.indexOf b64 "=" = Some (4 * q + r)).
  { unfold b64. rewrite indexOf_app_found by exact Hno. now rewrite Hlen. }
  assert (Emod4 : (4 * q + 4) mod 4 = 0).
  { replace (4 * q + 4) with ((q + 1) * 4) by lia. apply Nat.Div0.mod_mul. }
  assert (Eneq : (4 * q + r =? 4 * q + 4) = false)
    by (apply Nat.eqb_neq; lia).
  assert (Epos : (0 <? 4 - r) = true) by (apply Nat.ltb_lt; lia).
  destruct (quads_val b64 q) as (_ & Hq & Hlq).
  unfold Base64.toByteArray. rewrite Hl, Hi, Emod4, Eneq, Emod, Epos.
  change (0 <? 0) with false. cbv beta iota zeta.
  rewrite (mainLoop_spec b64 q (4 * q + 4) 0 (4 * q + r - 4)) by lia.
  assert (Hcases : r = 1 \/ r = 2 \/ r = 3) by lia.
  destruct Hcases as [-> | [-> | ->]].
  - change (4 - 1 =? 2) with false. change (4 - 1 =? 1) with false.
    cbv beta iota. eexists. split; [reflexivity|].
    rewrite !app_nil_r. split; [exact Hq|]. rewrite Hlq. lia.
  - change (4 - 2 =? 2) with true. change (4 - 2 =? 1) with false.
    cbv beta iota. eexists. split; [reflexivity|].
    rewrite app_nil_r. split.
    + apply Forall_app. split; [exact Hq|].
      constructor; [|constructor]. rewrite and_255.
      apply Z.mod_pos_bound. lia.
    + rewrite length_app, Hlq. cbn [length]. lia.
  - change (4 - 3 =? 2) with false. change (4 - 3 =? 1) with true.
    cbv beta iota. eexists. split; [reflexivity|].
    cbn [app]. split.
    + apply Forall_app. split; [exact Hq|].
      constructor; [|constructor; [|constructor]]; rewrite and_255;
        apply Z.mod_pos_bound; lia.
    + rewrite length_app, Hlq. cbn [length]. lia.
Qed.

Lemma qchars_length (qs : list Z) :
  inRange 32 qs -> length (qchars qs) = length qs.
Proof.
  intros H. induction H as [|q qs Hq _ IH]; [reflexivity|].
  assert (E : length (JS.toLowerCase (Base32.at_ q)) = 1)
    by now rewrite (toLowerCase_at q Hq).
  unfold JS.toLowerCase in E. rewrite length_map in E.
  unfold qchars in *. cbn [flat_map]. rewrite length_app, IH, E.
  reflexivity.
Qed.

(** The number of characters [base32Encode] writes for [n] bytes: one for
    each five bits, the last one filled up. *)
Lemma base32Encode_length (bs : list Z) :
  inRange 256 bs ->
  length (Base32.base32Encode bs) = (8 * length bs + 4) / 5.
Proof.
  intros Hbs. unfold Base32.base32Encode.
  destruct (encodeLoop_spec bs 0 0%Z [] 0%Z Hbs) as
    (bits & value & qs & He & Hle & Hr & _ & Hc);
    [lia|constructor|reflexivity|].
  change (@nil ascii) with (qchars []). rewrite He.
  cbn [length] in Hc.
  destruct (0 <? bits) eqn:Eb.
  - apply Nat.ltb_lt in Eb.
    rewrite qchars_snoc, qchars_length.
    + rewrite length_app. cbn [length].
      apply (Nat.div_unique _ 5 _ (bits - 1)); lia.
    + apply Forall_app. split; [exact Hr|].
      constructor; [|constructor]. rewrite and_31.
      apply Z.mod_pos_bound. lia.
  - apply Nat.ltb_ge in Eb. rewrite (qchars_length qs Hr).
    apply (Nat.div_unique _ 5 _ 4); lia.
Qed.

(** X11 ([convertSkylinkToBase32], src/utils.ts): on an input without a
    padding character whose length [n] is not a multiple of four, the
    function returns; what it returns is made of the digits and the
    letters a to v only, and holds one character for each five bits of the
    [3 * n / 4] bytes that are decoded, the last one filled up. *)
Theorem convertSkylinkToBase32_returns (input : jsstring) :
  noPadding input = true -> length input mod 4 <> 0 ->
  exists skylink32,
    convertSkylinkToBase32 input = Return skylink32
    /\ forallb isBase32Char skylink32 = true
    /\ length skylink32 = (8 * (3 * length input / 4) + 4) / 5.
Proof.
  intros Hno Hmod.
  pose proof (Nat.div_mod_eq (length input) 4) as Hdm.
  pose proof (Nat.mod_upper_bound (length input) 4 ltac:(lia)) as Hlt.
  set (q := length input / 4) in *. set (r := length input mod 4) in *.
  destruct (toByteArray_unpadded input q r) as (bs & Hb & Hr & Hl);
    [lia|lia|exact Hno|].
  unfold convertSkylinkToBase32. rewrite Hb.
  eexists. split; [reflexivity|]. split; [apply base32Encode_base32|].
  unfold JS.toLowerCase. rewrite length_map, (base32Encode_length bs Hr), Hl.
  f_equal. f_equal. f_equal.
  apply (Nat.div_unique _ 4 _ (3 * r - 4 * (r - 1))); lia.
Qed.

Lemma convertSkylinkToBase32_returns_witness :
  exists skylink32,
    convertSkylinkToBase32 "XABvi7J" = Return skylink32
    /\ forallb isBase32Char skylink32 = true
    /\ length skylink32 = (8 * (3 * length ("XABvi7J" : jsstring) / 4) + 4) / 5.
Proof.
  apply (convertSkylinkToBase32_returns "XABvi7J");
    [reflexivity | vm_compute; lia].
Defined.

Lemma convert_label (x : jsstring) :
  isSkylink x = true ->
  exists skylink32,
    convertSkylinkToBase32 x = Return skylink32
    /\ isSubdomainLabel skylink32 = true.
Proof.
  intros Hid.
  destruct (convertSkylinkToBase32_spec x Hid) as (Q & Hc & HQ & Hl & _).
  exists (map char32 Q). split; [exact Hc|].
  unfold isSubdomainLabel. rewrite length_map, Hl. cbn [Nat.eqb andb].
  clear -HQ. induction HQ as [|q Q Hq _ IH]; [reflexivity|].
  cbn [map forallb]. now rewrite (proj2 (char32_base32 q Hq)), IH.
Qed.

(** X12 ([convertSkylinkToBase32] with [parseSkylink], src/utils.ts): the
    base-32 form of a valid identifier is a label of 55 subdomain
    characters, and the [fromSubdomain] mode reads it back from every URL
    whose host name starts with it. *)
Theorem convertSkylinkToBase32_read_back
  (x scheme tail p suffix : jsstring) :
  isSkylink x = true -> isSchemeName scheme = true ->
  isHostTail tail = true -> isTrailingPath p = true ->
  isQueryOrFragment suffix = true ->
  exists skylink32,
    convertSkylinkToBase32 x = Return skylink32
    /\ length skylink32 = 55
    /\ parseSkylink (scheme ++ "://" ++ skylink32 ++ tail ++ p ++ suffix)
         optsFromSubdomain
       = Return (Some skylink32).
Proof.
  intros Hid Hs Ht Hp Hsuffix.
  destruct (convert_label x Hid) as (y & Hc & Hy).
  exists y. split; [exact Hc|]. split.
  - unfold isSubdomainLabel in Hy. apply andb_prop in Hy.
    now apply Nat.eqb_eq.
  - apply (fromSubdomain_url scheme y tail p suffix); assumption.
Qed.

Lemma convertSkylinkToBase32_read_back_witness :
  exists skylink32,
    convertSkylinkToBase32 exampleSkylink = Return skylink32
    /\ length skylink32 = 55
    /\ parseSkylink
         ("https" ++ "://" ++ skylink32 ++ ".siasky.net" ++ "/foo" ++ "?a=b")
         optsFromSubdomain
       = Return (Some skylink32).
Proof.
  apply (convertSkylinkToBase32_read_back exampleSkylink "https"
           ".siasky.net" "/foo" "?a=b"); reflexivity.
Defined.

(** ** [toHexString] and [hexToUint8Array] *)

Lemma fold_left_app_flat_map (f : ascii -> jsstring) (l : bytes)
  (acc : jsstring) :
  fold_left (fun s byte => s ++ f byte) l acc = acc ++ flat_map f l.
Proof.
  revert acc; induction l as [|c l IH]; intros acc; cbn.
  - now rewrite app_nil_r.
  - rewrite IH. now rewrite <- app_assoc.
Qed.

(** The two digits [toHexString] writes for a byte are those of the
    hexadecimal encoding of a Buffer. *)
Lemma hex_of_byte (byte : ascii) :
  sliceFromEnd
    ("0" ++ Radix16.toString
              (Z.to_nat (Int32.and (Z.of_nat (JS.code byte)) 255))) 2
  = Hex.ofByte byte.
Proof.
  destruct byte as [[] [] [] [] [] [] [] []]; vm_compute; reflexivity.
Qed.

Lemma toHexString_ofBytes (byteArray : bytes) :
  toHexString byteArray = Hex.ofBytes byteArray.
Proof.
  unfold toHexString, Hex.ofBytes. rewrite fold_left_app_flat_map.
  cbn [app]. induction byteArray as [|c l IH]; [reflexivity|].
  cbn [flat_map]. now rewrite hex_of_byte, IH.
Qed.

Lemma ofByte_digits (byte : ascii) :
  length (Hex.ofByte byte) = 2
  /\ forallb isLowerHexDigit (Hex.ofByte byte) = true.
Proof.
  destruct byte as [[] [] [] [] [] [] [] []]; vm_compute; split; reflexivity.
Qed.

Lemma matchPairs_ofByte (byte : ascii) (rest : jsstring) :
  matchPairs (Hex.ofByte byte ++ rest) = Hex.ofByte byte :: matchPairs rest.
Proof.
  destruct byte as [[] [] [] [] [] [] [] []]; reflexivity.
Qed.

Lemma parseInt_ofByte (byte : ascii) :
  toUint8 (Radix16.parseInt (Hex.ofByte byte)) = byte.
Proof.
  destruct byte as [[] [] [] [] [] [] [] []]; vm_compute; reflexivity.
Qed.

Lemma matchPairs_ofBytes (byteArray : bytes) :
  matchPairs (Hex.ofBytes byteArray) = map Hex.ofByte byteArray.
Proof.
  unfold Hex.ofBytes. induction byteArray as [|c l IH]; [reflexivity|].
  cbn [flat_map map]. now rewrite matchPairs_ofByte, IH.
Qed.

(** X13 ([toHexString] and [hexToUint8Array], src/utils.ts): an array of
    bytes that is not empty is read back from its hexadecimal string. *)
Theorem hexToUint8Array_toHexString (byteArray : bytes) :
  byteArray <> [] ->
  hexToUint8Array (toHexString byteArray) = Return byteArray.
Proof.
  intros Hne. rewrite toHexString_ofBytes. unfold hexToUint8Array.
  rewrite matchPairs_ofBytes.
  destruct byteArray as [|c l]; [congruence|].
  cbn [map]. f_equal. rewrite parseInt_ofByte. f_equal.
  rewrite map_map. clear. induction l as [|d l IH]; [reflexivity|].
  cbn [map]. now rewrite parseInt_ofByte, IH.
Qed.

Lemma hexToUint8Array_toHexString_witness :
  hexToUint8Array (toHexString ("public key" : jsstring))
  = Return ("public key" : jsstring).
Proof.
  apply (hexToUint8Array_toHexString "public key"). discriminate.
Defined.

(** X14 ([toHexString], src/utils.ts, and [User], src/skydb.ts): the string
    holds two lower-case hexadecimal digits for each byte, the same as the
    hexadecimal form of a Buffer from which the identity of a user is
    made; for the empty array it is empty, and [hexToUint8Array] throws on
    it. *)
Theorem toHexString_digits (byteArray : bytes) :
  length (toHexString byteArray) = 2 * length byteArray
  /\ forallb isLowerHexDigit (toHexString byteArray) = true
  /\ toHexString byteArray = id (User_constructor byteArray [])
  /\ exists msg, hexToUint8Array (toHexString []) = Throw msg.
Proof.
  rewrite toHexString_ofBytes. unfold Hex.ofBytes.
  split; [|split; [|split]].
  - induction byteArray as [|c l IH]; [reflexivity|].
    cbn [flat_map length]. rewrite length_app, IH.
    rewrite (proj1 (ofByte_digits c)). lia.
  - induction byteArray as [|c l IH]; [reflexivity|].
    cbn [flat_map]. rewrite forallb_app, IH.
    now rewrite (proj2 (ofByte_digits c)).
  - reflexivity.
  - eexists. reflexivity.
Qed.

(** ** Identity derivation *)

Lemma ofBytes_length (b : bytes) : length (Hex.ofBytes b) = 2 * length b.
Proof.
  unfold Hex.ofBytes. induction b as [|c l IH]; [reflexivity|].
  cbn [flat_map length]. rewrite length_app, IH.
  rewrite (proj1 (ofByte_digits c)). lia.
Qed.

Lemma ofBytes_lower_hex (b : bytes) :
  forallb isLowerHexDigit (Hex.ofBytes b) = true.
Proof.
  unfold Hex.ofBytes. induction b as [|c l IH]; [reflexivity|].
  cbn [flat_map]. rewrite forallb_app, IH.
  now rewrite (proj2 (ofByte_digits c)).
Qed.

Lemma parseInt_ofBytes (b : bytes) :
  map (fun pair => toUint8 (Radix16.parseInt pair)) (map Hex.ofByte b) = b.
Proof.
  induction b as [|c l IH]; [reflexivity|].
  cbn [map]. now rewrite parseInt_ofByte, IH.
Qed.

Lemma hexToUint8Array_ofBytes (b : bytes) :
  match b with
  | [] => Hex.ofBytes b = []
  | _ :: _ => hexToUint8Array (Hex.ofBytes b) = Return b
  end.
Proof.
  destruct b as [|c l]; [reflexivity|].
  unfold hexToUint8Array. rewrite matchPairs_ofBytes.
  rewrite <- (parseInt_ofBytes (c :: l)) at 2. reflexivity.
Qed.

Lemma ofBytes_inj (a b : bytes) : Hex.ofBytes a = Hex.ofBytes b -> a = b.
Proof.
  intros H. apply (f_equal matchPairs) in H.
  rewrite !matchPairs_ofBytes in H.
  apply (f_equal (map (fun pair => toUint8 (Radix16.parseInt pair)))) in H.
  now rewrite !parseInt_ofBytes in H.
Qed.

(** C6: [User.New] is deterministic.  The key pair is generated from the
    seed PBKDF2(password, salt = username, 1000 iterations, 32 bytes); as
    generation from a seed does not depend on the state of the world, two
    calls with the same username and password yield the same user, hence
    the same id.  The id is the hexadecimal form of the public key: two
    lower-case hexadecimal digits for each byte, from which
    [hexToUint8Array] reads the key back, so that a user with the same id
    holds the same public key. *)
Theorem User_New_deterministic (World : Type)
  (pbkdf2 : jsstring -> jsstring -> nat -> nat -> bytes)
  (generateKeyPair : option bytes -> World -> (bytes * bytes) * World)
  (seeded : forall seed w1 w2,
      fst (generateKeyPair (Some seed) w1) = fst (generateKeyPair (Some seed) w2))
  (username password : jsstring) (w1 w2 : World) :
  let user1 := fst (User_New World pbkdf2 generateKeyPair username password w1) in
  let user2 := fst (User_New World pbkdf2 generateKeyPair username password w2) in
  let key := fst (fst (generateKeyPair
                         (Some (pbkdf2 password username 1000 32)) w1)) in
  id user1 = id user2
  /\ user1 = user2
  /\ publicKey user1 = key
  /\ id user1 = Hex.ofBytes key
  /\ length (id user1) = 2 * length key
  /\ forallb isLowerHexDigit (id user1) = true
  /\ match key with
     | [] => id user1 = []
     | _ :: _ => hexToUint8Array (id user1) = Return key
     end
  /\ forall publicKey' secretKey',
       id (User_constructor publicKey' secretKey') = id user1 ->
       publicKey' = key.
Proof.
  unfold User_New.
  pose proof (seeded (pbkdf2 password username 1000 32) w1 w2) as H.
  destruct (generateKeyPair (Some (pbkdf2 password username 1000 32)) w1)
    as [[pk1 sk1] w1'].
  destruct (generateKeyPair (Some (pbkdf2 password username 1000 32)) w2)
    as [[pk2 sk2] w2'].
  cbn in H. injection H as Hpk Hsk. subst pk2 sk2.
  cbn [fst id publicKey User_constructor].
  split; [reflexivity|]. split; [reflexivity|]. split; [reflexivity|].
  split; [reflexivity|]. split; [apply ofBytes_length|].
  split; [apply ofBytes_lower_hex|]. split; [apply hexToUint8Array_ofBytes|].
  intros pk' sk' Hid. now apply ofBytes_inj.
Qed.

(** C6, witness: a key generator that draws on the world only when it is
    given no seed. *)
Lemma User_New_deterministic_witness :
  let pbkdf2 := fun (password salt : jsstring) (iterations keySize : nat) =>
                  firstn keySize (password ++ salt ++ repeat "0"%char keySize) in
  let generateKeyPair :=
    fun (seed : option bytes) (w : nat) =>
      match seed with
      | Some s => ((s, rev s), w)
      | None => ((repeat "r"%char w, repeat "s"%char w), S w)
      end in
  let user1 :=
    fst (User_New nat pbkdf2 generateKeyPair "alice@example.com" "pw1" 0) in
  let user2 :=
    fst (User_New nat pbkdf2 generateKeyPair "alice@example.com" "pw1" 7) in
  let key := fst (fst (generateKeyPair
                         (Some (pbkdf2 "pw1" "alice@example.com" 1000 32)) 0)) in
  id user1 = id user2
  /\ user1 = user2
  /\ publicKey user1 = key
  /\ id user1 = Hex.ofBytes key
  /\ length (id user1) = 2 * length key
  /\ forallb isLowerHexDigit (id user1) = true
  /\ match key with
     | [] => id user1 = []
     | _ :: _ => hexToUint8Array (id user1) = Return key
     end
  /\ forall publicKey' secretKey',
       id (User_constructor publicKey' secretKey') = id user1 ->
       publicKey' = key.
Proof.
  intros pbkdf2 generateKeyPair.
  apply (User_New_deterministic nat pbkdf2 generateKeyPair).
  intros seed w1 w2. reflexivity.
Defined.

Lemma matchPairs_length (n : nat) :
  forall str : jsstring,
    length str <= n -> noLineTerminator str = true ->
    length (matchPairs str) = (length str + 1) / 2.
Proof.
  induction n as [|n IH]; intros str Hn Hlt.
  - destruct str; [reflexivity|cbn in Hn; lia].
  - destruct str as [|c [|d str]]; [reflexivity| |].
    + cbn in Hlt. rewrite andb_true_r in Hlt.
      apply negb_true_iff in Hlt. cbn [matchPairs]. rewrite Hlt.
      reflexivity.
    + cbn in Hlt. apply andb_prop in Hlt. destruct Hlt as [Hc Hlt].
      apply andb_prop in Hlt. destruct Hlt as [Hd Hlt].
      apply negb_true_iff in Hc, Hd.
      cbn [matchPairs]. rewrite Hc, Hd. cbn [length].
      rewrite IH; [|cbn in Hn; lia|exact Hlt].
      replace (S (S (length str)) + 1) with (length str + 1 + 1 * 2) by lia.
      rewrite Nat.div_add by lia. lia.
Qed.

(** X15 ([hexToUint8Array], src/utils.ts): the digits are not validated.
    Every string without a line terminator that is not empty gives an
    array, with one byte for each pair of characters and one more for a
    character left over. *)
Theorem hexToUint8Array_no_validation (str : jsstring) :
  str <> [] -> noLineTerminator str = true ->
  exists byteArray,
    hexToUint8Array str = Return byteArray
    /\ length byteArray = (length str + 1) / 2.
Proof.
  intros Hne Hlt. unfold hexToUint8Array.
  pose proof (matchPairs_length (length str) str (le_n _) Hlt) as Hl.
  destruct (matchPairs str) as [|pair pairs] eqn:E.
  - destruct str as [|c str]; [congruence|]. cbn [length] in Hl.
    exfalso.
    assert (1 <= (S (length str) + 1) / 2).
    { replace (S (length str) + 1) with (length str + 1 * 2) by lia.
      rewrite Nat.div_add by lia. lia. }
    lia.
  - eexists. split; [reflexivity|]. now rewrite length_map.
Qed.

Lemma hexToUint8Array_no_validation_witness :
  exists byteArray,
    hexToUint8Array "xyz" = Return byteArray
    /\ length byteArray = (length ("xyz" : jsstring) + 1) / 2.
Proof.
  apply (hexToUint8Array_no_validation "xyz"); [discriminate|reflexivity].
Defined.

(** ** [getFileMimeType] and [ensureFileObjectConsistency] *)

Lemma includes_In (arr : list jsstring) (str : jsstring) :
  includes arr str = true <-> In str arr.
Proof.
  unfold includes. rewrite existsb_exists. split.
  - intros (x & Hin & Heq). apply str_eqb_eq in Heq. now subst x.
  - intros Hin. exists str. split; [exact Hin|apply str_eqb_refl].
Qed.

Lemma firstTypeWith_some (db : MimeDB) (extension type : jsstring) :
  firstTypeWith db extension = Some type ->
  exists before exts after,
    db = before ++ (type, Some exts) :: after
    /\ In extension exts
    /\ forall t es, In (t, Some es) before -> ~ In extension es.
Proof.
  induction db as [|[t es] db IH]; [discriminate|].
  cbn [firstTypeWith].
  destruct (match es with
            | Some exts => includes exts extension
            | None => false
            end) eqn:E.
  - intros H. injection H as ->. destruct es as [exts|]; [|discriminate E].
    exists [], exts, db. split; [reflexivity|]. split.
    + now apply includes_In.
    + intros t' es' [].
  - intros H. destruct (IH H) as (before & exts & after & -> & Hin & Hb).
    exists ((t, es) :: before), exts, after. split; [reflexivity|].
    split; [exact Hin|]. intros t' es' [Heq | Hin'].
    + injection Heq as -> ->. intros Hc. apply includes_In in Hc.
      rewrite Hc in E. discriminate E.
    + now apply (Hb t' es').
Qed.

Lemma firstTypeWith_none (db : MimeDB) (extension : jsstring) :
  firstTypeWith db extension = None ->
  forall t es, In (t, Some es) db -> ~ In extension es.
Proof.
  induction db as [|[t es] db IH]; [intros _ t es []|].
  cbn [firstTypeWith].
  destruct (match es with
            | Some exts => includes exts extension
            | None => false
            end) eqn:E; [discriminate|].
  intros H t' es' [Heq | Hin].
  - injection Heq as -> ->. intros Hc. apply includes_In in Hc.
    rewrite Hc in E. discriminate E.
  - now apply (IH H t' es').
Qed.

Lemma lastIndexOf_none (str : jsstring) (c : ascii) :
  forallb (fun d => negb (Ascii.eqb d c)) str = true ->
  lastIndexOf str c = None.
Proof.
  induction str as [|d str IH]; [reflexivity|].
  cbn. intros H. apply andb_prop in H. destruct H as [Hd H].
  rewrite (IH H). apply negb_true_iff in Hd. now rewrite Hd.
Qed.

Lemma lastIndexOf_last (a b : jsstring) (c : ascii) :
  forallb (fun d => negb (Ascii.eqb d c)) b = true ->
  lastIndexOf (a ++ c :: b) c = Some (length a).
Proof.
  intros Hb. induction a as [|d a IH].
  - cbn. rewrite (lastIndexOf_none b c Hb), Ascii.eqb_refl. reflexivity.
  - cbn [app lastIndexOf length]. now rewrite IH.
Qed.

(** X16 ([getFileMimeType], src/utils.ts): the extension is what follows
    the last dot of the name, and the whole name when it has no dot. *)
Theorem extensionOf_last_dot (stem extension : jsstring) :
  forallb (fun d => negb (Ascii.eqb d ".")) extension = true ->
  extensionOf (stem ++ "." ++ extension) = extension
  /\ extensionOf extension = extension.
Proof.
  intros H. unfold extensionOf. split.
  - change (stem ++ "." ++ extension) with (stem ++ "."%char :: extension).
    rewrite (lastIndexOf_last stem extension "." H).
    unfold JS.slice. rewrite skipn_app.
    replace (length stem + 1 - length stem) with 1 by lia.
    rewrite skipn_all2 by lia. reflexivity.
  - now rewrite (lastIndexOf_none extension "." H).
Qed.

Lemma extensionOf_last_dot_witness :
  extensionOf ("archive.tar" ++ "." ++ "gz") = ("gz" : jsstring)
  /\ extensionOf "gz" = ("gz" : jsstring).
Proof.
  apply (extensionOf_last_dot "archive.tar" "gz"). reflexivity.
Defined.

Section MimeProperties.

Variable mimeDB : MimeDB.

(** X17 ([getFileMimeType], src/utils.ts): for a file that declares no
    type, the result is the first type of the table whose extensions hold
    the extension of the name; it is the empty string when the extension
    is empty or no type lists it. *)
Theorem getFileMimeType_first_match (file : File) :
  type file = [] ->
  (getFileMimeType mimeDB file = []
   /\ (extensionOf (name file) = []
       \/ forall t es, In (t, Some es) mimeDB ->
            ~ In (extensionOf (name file)) es))
  \/ exists before exts after,
       mimeDB = before ++ (getFileMimeType mimeDB file, Some exts) :: after
       /\ In (extensionOf (name file)) exts
       /\ forall t es, In (t, Some es) before ->
            ~ In (extensionOf (name file)) es.
Proof.
  unfold getFileMimeType. intros ->.
  destruct (extensionOf (name file)) as [|c ext] eqn:Ee.
  - left. split; [reflexivity|]. left. reflexivity.
  - destruct (firstTypeWith mimeDB (c :: ext)) as [t|] eqn:Ef.
    + right. now apply firstTypeWith_some.
    + left. split; [reflexivity|]. right.
      now apply firstTypeWith_none.
Qed.

Lemma normalizeType_printable (t : jsstring) :
  forallb isPrintableAscii (normalizeType t) = true.
Proof.
  unfold normalizeType. destruct (forallb isPrintableAscii t) eqn:E;
    [|reflexivity].
  induction t as [|c t IH]; [reflexivity|].
  cbn [forallb map] in *. apply andb_prop in E. destruct E as [Hc Ht].
  rewrite (IH Ht), andb_true_r. clear -Hc.
  destruct c as [[] [] [] [] [] [] [] []]; vm_compute in Hc |- *;
    try reflexivity; discriminate Hc.
Qed.

Lemma asciiLower_idem (c : ascii) : asciiLower (asciiLower c) = asciiLower c.
Proof.
  destruct c as [[] [] [] [] [] [] [] []]; vm_compute; reflexivity.
Qed.

Lemma normalizeType_idem (t : jsstring) :
  normalizeType (normalizeType t) = normalizeType t.
Proof.
  pose proof (normalizeType_printable t) as Hp.
  unfold normalizeType at 1. rewrite Hp.
  unfold normalizeType. destruct (forallb isPrintableAscii t); [|reflexivity].
  rewrite map_map. apply map_ext. apply asciiLower_idem.
Qed.

Lemma ensureFileObjectConsistency_fixed (file : File) :
  forallb isPrintableAscii (type file) = true ->
  ensureFileObjectConsistency mimeDB (ensureFileObjectConsistency mimeDB file)
  = ensureFileObjectConsistency mimeDB file.
Proof.
  intros Hp. unfold ensureFileObjectConsistency, File_new.
  cbn [name type]. f_equal.
  set (t1 := normalizeType (getFileMimeType mimeDB file)).
  unfold getFileMimeType at 1. cbn [name type].
  destruct t1 as [|c t] eqn:E.
  - unfold getFileMimeType in t1. subst t1.
    destruct (type file) as [|d ty] eqn:Et; [exact E|].
    unfold normalizeType in E. rewrite Hp in E. discriminate E.
  - rewrite <- E. apply normalizeType_idem.
Qed.

(** X18 ([ensureFileObjectConsistency], upload module, with
    [getFileMimeType] and the [File] constructor): the name is kept.  For
    a file whose declared type is empty or made of characters in
    U+0020..U+007E, a second pass changes nothing; for any file the second
    pass gives a file that further passes leave as it is.  The first pass
    alone need not: a type with another character is emptied by the
    constructor, and the second pass then finds the type by the extension
    of the name. *)
Theorem ensureFileObjectConsistency_idempotent (file other : File) :
  forallb isPrintableAscii (type file) = true ->
  name (ensureFileObjectConsistency mimeDB file) = name file
  /\ ensureFileObjectConsistency mimeDB
       (ensureFileObjectConsistency mimeDB file)
     = ensureFileObjectConsistency mimeDB file
  /\ ensureFileObjectConsistency mimeDB
       (ensureFileObjectConsistency mimeDB
          (ensureFileObjectConsistency mimeDB other))
     = ensureFileObjectConsistency mimeDB
         (ensureFileObjectConsistency mimeDB other)
  /\ (let db : MimeDB := [("text/plain" : jsstring, Some ["txt" : jsstring])] in
      let odd := {| name := "a.txt"; type := "text/" ++ [ascii_of_nat 233] |} in
      type (ensureFileObjectConsistency db odd) = []
      /\ type (ensureFileObjectConsistency db
                 (ensureFileObjectConsistency db odd))
         = ("text/plain" : jsstring)).
Proof.
  intros Hp. split; [reflexivity|].
  split; [now apply ensureFileObjectConsistency_fixed|].
  split.
  - apply ensureFileObjectConsistency_fixed.
    unfold ensureFileObjectConsistency at 1. unfold File_new. cbn [type].
    apply normalizeType_printable.
  - split; vm_compute; reflexivity.
Qed.

End MimeProperties.

Lemma getFileMimeType_first_match_witness :
  let db : MimeDB :=
    [("text/plain" : jsstring, None);
     ("application/json" : jsstring,
      Some ["json" : jsstring; "map" : jsstring])] in
  let file := {| name := "data.json"; type := [] |} in
  (getFileMimeType db file = []
   /\ (extensionOf (name file) = []
       \/ forall t es, In (t, Some es) db ->
            ~ In (extensionOf (name file)) es))
  \/ exists before exts after,
       db = before ++ (getFileMimeType db file, Some exts) :: after
       /\ In (extensionOf (name file)) exts
       /\ forall t es, In (t, Some es) before ->
            ~ In (extensionOf (name file)) es.
Proof.
  intros db file. apply (getFileMimeType_first_match db file). reflexivity.
Defined.

Lemma ensureFileObjectConsistency_idempotent_witness :
  let mimeDB : MimeDB :=
    [("text/plain" : jsstring, Some ["txt" : jsstring])] in
  let file := {| name := "a.txt"; type := "Text/Plain" |} in
  let other := {| name := "b.txt"; type := "text/" ++ [ascii_of_nat 233] |} in
  name (ensureFileObjectConsistency mimeDB file) = name file
  /\ ensureFileObjectConsistency mimeDB
       (ensureFileObjectConsistency mimeDB file)
     = ensureFileObjectConsistency mimeDB file
  /\ ensureFileObjectConsistency mimeDB
       (ensureFileObjectConsistency mimeDB
          (ensureFileObjectConsistency mimeDB other))
     = ensureFileObjectConsistency mimeDB
         (ensureFileObjectConsistency mimeDB other)
  /\ (let db : MimeDB := [("text/plain" : jsstring, Some ["txt" : jsstring])] in
      let odd := {| name := "a.txt"; type := "text/" ++ [ascii_of_nat 233] |} in
      type (ensureFileObjectConsistency db odd) = []
      /\ type (ensureFileObjectConsistency db
                 (ensureFileObjectConsistency db odd))
         = ("text/plain" : jsstring)).
Proof.
  intros mimeDB file other.
  apply (ensureFileObjectConsistency_idempotent mimeDB file other).
  reflexivity.
Defined.

(** ** The URLs of the download module *)

Lemma getQuery_setQuery_same (q : Query) (k v : jsstring) :
  getQuery (setQuery q k v) k = Some v.
Proof.
  induction q as [|[k' v'] q IH]; cbn.
  - now rewrite str_eqb_refl.
  - destruct (JS.str_eqb k' k) eqn:E; cbn.
    + now rewrite str_eqb_refl.
    + now rewrite E.
Qed.

Lemma getQuery_setQuery_other (q : Query) (k k0 v : jsstring) :
  JS.str_eqb k k0 = false ->
  getQuery (setQuery q k v) k0 = getQuery q k0.
Proof.
  intros Hk. induction q as [|[k' v'] q IH]; cbn.
  - now rewrite Hk.
  - destruct (JS.str_eqb k' k) eqn:E; cbn.
    + apply str_eqb_eq in E. subst k'. now rewrite Hk.
    + now rewrite IH.
Qed.

Lemma wrapped_parse (w : Wrapping) (skylink p suffix : jsstring)
  (opts : ParseOpts) :
  wellFormedWrapping w = true -> isSkylink skylink = true ->
  isTrailingPath p = true -> isQueryOrFragment suffix = true ->
  includePath opts && onlyPath opts = false -> fromSubdomain opts = false ->
  parseSkylink (wrap w (skylink ++ p) ++ suffix) opts
  = if includePath opts then Return (Some (skylink ++ trimSuffix p "/"))
    else if onlyPath opts then Return (Some (trimSuffix p "/"))
    else Return (Some skylink).
Proof.
  intros Hw Hid Hp Hsuffix Hio Hsub.
  destruct (skylinkAndPathOf_wrap w skylink p Hw Hid Hp)
    as (Hq & pre & Hpre & Hpath).
  rewrite parseSkylink_by_path by assumption.
  rewrite skylinkAndPathOf_suffix by assumption.
  rewrite Hpath. now apply resultFromPath_skylink.
Qed.

Section DownloadProperties.

Variable urljoin : jsstring -> jsstring -> jsstring.
Variable addUrlQuery : jsstring -> Query -> jsstring.
Variable URL : Type.
Variable URL_new : jsstring -> result URL.
Variable URL_hostname : URL -> jsstring.
Variable URL_setHostname : URL -> jsstring -> URL.
Variable URL_toString : URL -> jsstring.

(** [addSubdomain] throws when the [URL] constructor does, and only
    then. *)
Lemma addSubdomain_throws (url subdomain e : jsstring) :
  addSubdomain URL URL_new URL_hostname URL_setHostname URL_toString url subdomain = Throw e
  <-> URL_new url = Throw e.
Proof.
  unfold addSubdomain. destruct (URL_new url) as [urlObj|e'].
  - destruct (JS.endsWith _ "/"); split; discriminate.
  - split; intros H; injection H as ->; reflexivity.
Qed.

(** X19 ([getSkylinkUrl], download module, with [addSubdomain],
    src/utils.ts): for every supported wrapping of a valid identifier with
    a trailing path, the URL is built from the identifier, the trailing
    path without the slashes at its end and the encoded [path] option, and
    from nothing else of the input: the wrapping and the query string or
    fragment of the input leave no trace.  With [subdomain] the identifier
    goes to [addSubdomain] in its 55-character base-32 form, and the call
    throws when [addSubdomain] does, that is when the portal URL is not
    one the [URL] constructor accepts. *)
Theorem getSkylinkUrl_of_wrapping (portalUrl : jsstring) (w : Wrapping)
  (skylink p suffix encoded : jsstring) (opts : DownloadOpts) :
  wellFormedWrapping w = true -> isSkylink skylink = true ->
  isTrailingPath p = true -> isQueryOrFragment suffix = true ->
  encodePathOption (path opts) = Return encoded ->
  exists skylink32,
    convertSkylinkToBase32 skylink = Return skylink32
    /\ isSubdomainLabel skylink32 = true
    /\ getSkylinkUrl urljoin addUrlQuery URL URL_new URL_hostname
         URL_setHostname URL_toString portalUrl
         (wrap w (skylink ++ p) ++ suffix) opts
       = if subdomain opts
         then match addSubdomain URL URL_new URL_hostname URL_setHostname URL_toString
                      portalUrl skylink32 with
              | Throw e => Throw e
              | Return url =>
                  Return (addUrlQuery
                            (makeUrl urljoin [url; trimSuffix p "/"; encoded])
                            (queryOf opts))
              end
         else Return
                (addUrlQuery
                   (makeUrl urljoin [portalUrl; endpointPath opts;
                                     skylink ++ trimSuffix p "/"; encoded])
                   (queryOf opts)).
Proof.
  intros Hw Hid Hp Hsuffix Henc.
  destruct (convert_label skylink Hid) as (y & Hc & Hy).
  exists y. split; [exact Hc|]. split; [exact Hy|].
  unfold getSkylinkUrl. rewrite Henc.
  rewrite !(wrapped_parse w skylink p suffix) by (assumption || reflexivity).
  cbn [includePath onlyPath optsOnlyPath optsIncludePath defaultOpts].
  rewrite Hc. destruct (subdomain opts); [|reflexivity].
  destruct (addSubdomain URL URL_new URL_hostname URL_setHostname URL_toString
              portalUrl y); reflexivity.
Qed.

Lemma getSkylinkUrl_outcome (portalUrl skylinkStr encoded : jsstring)
  (opts : DownloadOpts) :
  encodePathOption (path opts) = Return encoded ->
  (parseSkylink skylinkStr defaultOpts = Return None
   /\ getSkylinkUrl urljoin addUrlQuery URL URL_new URL_hostname
         URL_setHostname URL_toString portalUrl skylinkStr opts
      = Throw (couldNotGetSkylink skylinkStr))
  \/ exists skylink,
       parseSkylink skylinkStr defaultOpts = Return (Some skylink)
       /\ ((exists base,
              getSkylinkUrl urljoin addUrlQuery URL URL_new URL_hostname
         URL_setHostname URL_toString portalUrl skylinkStr opts
              = Return (addUrlQuery base (queryOf opts)))
           \/ (subdomain opts = true
               /\ exists e,
                    URL_new portalUrl = Throw e
                    /\ getSkylinkUrl urljoin addUrlQuery URL URL_new URL_hostname
         URL_setHostname URL_toString portalUrl skylinkStr opts
                       = Throw e)).
Proof.
  intros Henc. unfold getSkylinkUrl. rewrite Henc.
  destruct (parseSkylink_modes skylinkStr) as
    [(Hd & Ho & Hi) | (skylink & p & Hid & _ & _ & Hd & Ho & Hi & _)].
  - left. split; [exact Hd|]. rewrite Hd, Ho, Hi.
    destruct (subdomain opts); reflexivity.
  - right. rewrite Hd, Ho, Hi.
    destruct (convert_label skylink Hid) as (y & Hc & _). rewrite Hc.
    exists skylink. split; [reflexivity|].
    destruct (subdomain opts).
    + destruct (addSubdomain URL URL_new URL_hostname URL_setHostname URL_toString
                  portalUrl y) as [url|e] eqn:Ea.
      * left. eexists. reflexivity.
      * right. split; [reflexivity|]. exists e. split; [|reflexivity].
        now apply (addSubdomain_throws portalUrl y e).
    + left. eexists. reflexivity.
Qed.

(** X20 ([getSkylinkUrl], download module, with [addSubdomain],
    src/utils.ts): an error of the [path] option comes first, whatever the
    input.  Otherwise the call throws the error that quotes the input
    exactly when the input holds no identifier.  When it holds one, the
    call returns a URL, unless [subdomain] is set and the [URL]
    constructor rejects the portal URL, whose error is then thrown. *)
Theorem getSkylinkUrl_throws (portalUrl skylinkStr : jsstring)
  (opts : DownloadOpts) :
  match encodePathOption (path opts), parseSkylink skylinkStr defaultOpts with
  | Throw e, _ =>
      getSkylinkUrl urljoin addUrlQuery URL URL_new URL_hostname
         URL_setHostname URL_toString portalUrl skylinkStr opts = Throw e
  | Return _, Return (Some _) =>
      (exists base,
         getSkylinkUrl urljoin addUrlQuery URL URL_new URL_hostname
         URL_setHostname URL_toString portalUrl skylinkStr opts
         = Return (addUrlQuery base (queryOf opts)))
      \/ (subdomain opts = true
          /\ exists e,
               URL_new portalUrl = Throw e
               /\ getSkylinkUrl urljoin addUrlQuery URL URL_new URL_hostname
         URL_setHostname URL_toString portalUrl skylinkStr opts
                  = Throw e)
  | Return _, _ =>
      getSkylinkUrl urljoin addUrlQuery URL URL_new URL_hostname
         URL_setHostname URL_toString portalUrl skylinkStr opts
      = Throw (couldNotGetSkylink skylinkStr)
  end.
Proof.
  destruct (encodePathOption (path opts)) as [encoded|e] eqn:Henc.
  - destruct (getSkylinkUrl_outcome portalUrl skylinkStr encoded opts Henc)
      as [[Hn Ht] | (skylink & Hs & Hr)].
    + rewrite Hn. exact Ht.
    + rewrite Hs. exact Hr.
  - unfold getSkylinkUrl. now rewrite Henc.
Qed.

Lemma queryOf_withDownload (opts : DownloadOpts) (k : jsstring) :
  getQuery (queryOf (withDownload opts)) k
  = if JS.str_eqb "attachment" k then Some ("true" : jsstring)
    else getQuery (match query opts with Some q => q | None => [] end) k.
Proof.
  unfold queryOf. cbn [download withDownload query].
  destruct (JS.str_eqb "attachment" k) eqn:E.
  - apply str_eqb_eq in E. subst k. apply getQuery_setQuery_same.
  - now apply getQuery_setQuery_other.
Qed.

(** X21 ([downloadFile] and [downloadFileHns], download module): whatever
    the caller's [download] option says, a call that does not throw
    returns the URL it assigns to the location, and builds it with a query
    that has [attachment] set and every other parameter of the caller's
    query unchanged. *)
Theorem downloadFile_sets_attachment (portalUrl skylink domain : jsstring)
  (opts : DownloadOpts) (hnsSubdomain : jsstring) :
  ((exists e,
      downloadFile urljoin addUrlQuery URL URL_new URL_hostname
        URL_setHostname URL_toString portalUrl skylink opts
      = Throw e)
   \/ exists base,
        downloadFile urljoin addUrlQuery URL URL_new URL_hostname
        URL_setHostname URL_toString portalUrl skylink opts
        = Return (addUrlQuery base (queryOf (withDownload opts)),
                  [LocationAssign
                     (addUrlQuery base (queryOf (withDownload opts)))]))
  /\ ((exists e,
        downloadFileHns urljoin addUrlQuery URL URL_new URL_hostname
          URL_setHostname URL_toString portalUrl domain opts hnsSubdomain
        = Throw e)
      \/ exists base,
           downloadFileHns urljoin addUrlQuery URL URL_new URL_hostname
          URL_setHostname URL_toString portalUrl domain opts hnsSubdomain
           = Return (addUrlQuery base (queryOf (withDownload opts)),
                     [LocationAssign
                        (addUrlQuery base (queryOf (withDownload opts)))]))
  /\ forall k,
       getQuery (queryOf (withDownload opts)) k
       = if JS.str_eqb "attachment" k then Some ("true" : jsstring)
         else getQuery (match query opts with Some q => q | None => [] end) k.
Proof.
  split; [|split; [|apply queryOf_withDownload]].
  - unfold downloadFile.
    destruct (encodePathOption (path (withDownload opts))) as [encoded|e]
      eqn:Henc.
    + destruct (getSkylinkUrl_outcome portalUrl skylink encoded
                  (withDownload opts) Henc)
        as [[_ Ht] | (id & _ & [(base & Hr) | (_ & e & _ & Ht)])].
      * left. rewrite Ht. eexists. reflexivity.
      * right. rewrite Hr. now exists base.
      * left. rewrite Ht. eexists. reflexivity.
    + left. unfold getSkylinkUrl. rewrite Henc. eexists. reflexivity.
  - unfold downloadFileHns, getHnsUrl.
    destruct (hnsUrl _ _ _ _ _ _ _ _ _ _) as [url|e].
    + right. eexists. reflexivity.
    + left. eexists. reflexivity.
Qed.

Lemma getHnsUrl_domain (portalUrl domain domain' : jsstring)
  (opts : DownloadOpts) (hnsSubdomain : jsstring) :
  trimUriPrefix domain uriHandshakePrefix
  = trimUriPrefix domain' uriHandshakePrefix ->
  getHnsUrl urljoin addUrlQuery URL URL_new URL_hostname
      URL_setHostname URL_toString portalUrl domain opts hnsSubdomain
  = getHnsUrl urljoin addUrlQuery URL URL_new URL_hostname
      URL_setHostname URL_toString portalUrl domain' opts hnsSubdomain.
Proof. intros H. unfold getHnsUrl. now rewrite H. Qed.

(** X22 ([getHnsUrl], download module, with [addSubdomain],
    src/utils.ts): the prefix [hns:] is optional and may be followed by two
    slashes; the three forms of a domain give the same outcome.  Without
    [subdomain] it is a URL in which the domain stands without the prefix
    as last path component; with [subdomain] the [hnsSubdomain] label and
    then the domain are put in front of the host name by [addSubdomain],
    whose error is thrown when it throws. *)
Theorem getHnsUrl_prefix_optional (portalUrl domain : jsstring)
  (opts : DownloadOpts) (hnsSubdomain : jsstring) :
  JS.startsWith domain "//" = false ->
  JS.startsWith domain uriHandshakePrefix = false ->
  getHnsUrl urljoin addUrlQuery URL URL_new URL_hostname
      URL_setHostname URL_toString portalUrl (uriHandshakePrefix ++ domain) opts hnsSubdomain
  = getHnsUrl urljoin addUrlQuery URL URL_new URL_hostname
      URL_setHostname URL_toString portalUrl domain opts hnsSubdomain
  /\ getHnsUrl urljoin addUrlQuery URL URL_new URL_hostname
      URL_setHostname URL_toString portalUrl (uriHandshakePrefix ++ "//" ++ domain) opts
       hnsSubdomain
     = getHnsUrl urljoin addUrlQuery URL URL_new URL_hostname
      URL_setHostname URL_toString portalUrl domain opts hnsSubdomain
  /\ getHnsUrl urljoin addUrlQuery URL URL_new URL_hostname
      URL_setHostname URL_toString portalUrl domain opts hnsSubdomain
     = if subdomain opts
       then match addSubdomain URL URL_new URL_hostname URL_setHostname URL_toString
                    portalUrl hnsSubdomain with
            | Throw e => Throw e
            | Return url =>
                match addSubdomain URL URL_new URL_hostname URL_setHostname URL_toString
                        url domain with
                | Throw e => Throw e
                | Return url' => Return (addUrlQuery url' (queryOf opts))
                end
            end
       else Return
              (addUrlQuery
                 (makeUrl urljoin [portalUrl; endpointPath opts; domain])
                 (queryOf opts)).
Proof.
  intros Hs Hp.
  destruct (trimUriPrefix_strips_once_parts uriHandshakePrefix domain)
    as (H1 & H2 & H3).
  split; [|split].
  - apply getHnsUrl_domain. now rewrite (H2 Hs), (H3 Hp).
  - apply getHnsUrl_domain. now rewrite H1, (H3 Hp).
  - unfold getHnsUrl, hnsUrl. rewrite (H3 Hp).
    destruct (subdomain opts); [|reflexivity].
    destruct (addSubdomain URL URL_new URL_hostname URL_setHostname URL_toString
                portalUrl hnsSubdomain) as [url|e]; reflexivity.
Qed.

(** X23 ([getHnsresUrl], download module): the prefix [hnsres:] is
    optional and may be followed by two slashes; the three forms of a
    domain give the same URL, whose last component is the domain without
    the prefix. *)
Theorem getHnsresUrl_prefix_optional
  (portalUrl domain endpointPath : jsstring) :
  JS.startsWith domain "//" = false ->
  JS.startsWith domain uriHandshakeResolverPrefix = false ->
  getHnsresUrl urljoin portalUrl (uriHandshakeResolverPrefix ++ domain)
    endpointPath
  = makeUrl urljoin [portalUrl; endpointPath; domain]
  /\ getHnsresUrl urljoin portalUrl
       (uriHandshakeResolverPrefix ++ "//" ++ domain) endpointPath
     = makeUrl urljoin [portalUrl; endpointPath; domain]
  /\ getHnsresUrl urljoin portalUrl domain endpointPath
     = makeUrl urljoin [portalUrl; endpointPath; domain].
Proof.
  intros Hs Hp.
  destruct (trimUriPrefix_strips_once_parts uriHandshakeResolverPrefix domain)
    as (H1 & H2 & H3).
  unfold getHnsresUrl. now rewrite H1, (H2 Hs), (H3 Hp).
Qed.

End DownloadProperties.

(** In the witnesses below plain functions stand for the packages: a
    [URL] object is the host name of an [https] URL without a path. *)

Lemma getSkylinkUrl_of_wrapping_witness :
  let opts := {| endpointPath := "/"; path := PathString "a b";
                 query := None; subdomain := true; download := false |} in
  let urljoin := fun a b : jsstring => a ++ "/" ++ b in
  let addUrlQuery := fun (url : jsstring) (_ : Query) => url in
  let URL_new := fun url : jsstring =>
                   if JS.startsWith url "https://"
                   then Return (JS.slice url 8)
                   else Throw ("Invalid URL" : jsstring) in
  let URL_hostname := fun host : jsstring => host in
  let URL_setHostname := fun (_ host : jsstring) => host in
  let URL_toString := fun host : jsstring => "https://" ++ host ++ "/" in
  let encoded : jsstring := "a%20b" in
  exists skylink32,
    convertSkylinkToBase32 exampleSkylink = Return skylink32
    /\ isSubdomainLabel skylink32 = true
    /\ getSkylinkUrl urljoin addUrlQuery jsstring URL_new URL_hostname
         URL_setHostname URL_toString "https://siasky.net"
         (wrap SiaSlashes (exampleSkylink ++ "/foo/") ++ "?x=1") opts
       = if subdomain opts
         then match addSubdomain jsstring URL_new URL_hostname
                      URL_setHostname URL_toString "https://siasky.net"
                      skylink32 with
              | Throw e => Throw e
              | Return url =>
                  Return (addUrlQuery
                            (makeUrl urljoin
                               [url; trimSuffix "/foo/" "/"; encoded])
                            (queryOf opts))
              end
         else Return
                (addUrlQuery
                   (makeUrl urljoin
                      ["https://siasky.net" : jsstring; endpointPath opts;
                       exampleSkylink ++ trimSuffix "/foo/" "/"; encoded])
                   (queryOf opts)).
Proof.
  intros opts urljoin addUrlQuery URL_new URL_hostname URL_setHostname
    URL_toString encoded.
  apply (getSkylinkUrl_of_wrapping urljoin addUrlQuery jsstring URL_new
           URL_hostname URL_setHostname URL_toString "https://siasky.net"
           SiaSlashes exampleSkylink "/foo/" "?x=1" encoded opts);
    reflexivity.
Defined.

Lemma getHnsUrl_prefix_optional_witness :
  let opts := {| endpointPath := "/hns"; path := PathUndefined;
                 query := None; subdomain := false; download := false |} in
  let urljoin := fun a b : jsstring => a ++ "/" ++ b in
  let addUrlQuery := fun (url : jsstring) (_ : Query) => url in
  let URL_new := fun url : jsstring =>
                   if JS.startsWith url "https://"
                   then Return (JS.slice url 8)
                   else Throw ("Invalid URL" : jsstring) in
  let URL_hostname := fun host : jsstring => host in
  let URL_setHostname := fun (_ host : jsstring) => host in
  let URL_toString := fun host : jsstring => "https://" ++ host ++ "/" in
  getHnsUrl urljoin addUrlQuery jsstring URL_new URL_hostname
    URL_setHostname URL_toString "https://siasky.net"
    (uriHandshakePrefix ++ "doesn") opts "hns"
  = getHnsUrl urljoin addUrlQuery jsstring URL_new URL_hostname
      URL_setHostname URL_toString "https://siasky.net" "doesn" opts "hns"
  /\ getHnsUrl urljoin addUrlQuery jsstring URL_new URL_hostname
       URL_setHostname URL_toString "https://siasky.net"
       (uriHandshakePrefix ++ "//" ++ "doesn") opts "hns"
     = getHnsUrl urljoin addUrlQuery jsstring URL_new URL_hostname
         URL_setHostname URL_toString "https://siasky.net" "doesn" opts "hns"
  /\ getHnsUrl urljoin addUrlQuery jsstring URL_new URL_hostname
       URL_setHostname URL_toString "https://siasky.net" "doesn" opts "hns"
     = if subdomain opts
       then match addSubdomain jsstring URL_new URL_hostname
                    URL_setHostname URL_toString "https://siasky.net"
                    "hns" with
            | Throw e => Throw e
            | Return url =>
                match addSubdomain jsstring URL_new URL_hostname
                        URL_setHostname URL_toString url "doesn" with
                | Throw e => Throw e
                | Return url' => Return (addUrlQuery url' (queryOf opts))
                end
            end
       else Return
              (addUrlQuery
                 (makeUrl urljoin ["https://siasky.net" : jsstring;
                                   endpointPath opts; "doesn" : jsstring])
                 (queryOf opts)).
Proof.
  intros opts urljoin addUrlQuery URL_new URL_hostname URL_setHostname
    URL_toString.
  apply (getHnsUrl_prefix_optional urljoin addUrlQuery jsstring URL_new
           URL_hostname URL_setHostname URL_toString "https://siasky.net"
           "doesn" opts "hns"); reflexivity.
Defined.

Lemma getHnsresUrl_prefix_optional_witness :
  let urljoin := fun a b : jsstring => a ++ "/" ++ b in
  getHnsresUrl urljoin "https://siasky.net"
    (uriHandshakeResolverPrefix ++ "doesn") "/hnsres"
  = makeUrl urljoin ["https://siasky.net" : jsstring; "/hnsres" : jsstring;
                     "doesn" : jsstring]
  /\ getHnsresUrl urljoin "https://siasky.net"
       (uriHandshakeResolverPrefix ++ "//" ++ "doesn") "/hnsres"
     = makeUrl urljoin ["https://siasky.net" : jsstring; "/hnsres" : jsstring;
                        "doesn" : jsstring]
  /\ getHnsresUrl urljoin "https://siasky.net" "doesn" "/hnsres"
     = makeUrl urljoin ["https://siasky.net" : jsstring; "/hnsres" : jsstring;
                        "doesn" : jsstring].
Proof.
  intros urljoin.
  apply (getHnsresUrl_prefix_optional urljoin "https://siasky.net" "doesn"
           "/hnsres"); reflexivity.
Defined.

(** ** The segments of the encoded path *)

Lemma split_no_sep (a : jsstring) (sep : ascii) :
  forallb (fun c => negb (Ascii.eqb c sep)) a = true -> JS.split a sep = [a].
Proof.
  induction a as [|c a IH]; [reflexivity|].
  cbn. intros H. apply andb_prop in H. destruct H as [Hc H].
  apply negb_true_iff in Hc. rewrite Hc, (IH H). reflexivity.
Qed.

Lemma split_app_sep (a b : jsstring) (sep : ascii) :
  forallb (fun c => negb (Ascii.eqb c sep)) a = true ->
  JS.split (a ++ sep :: b) sep = a :: JS.split b sep.
Proof.
  induction a as [|c a IH]; intros H.
  - cbn. now rewrite Ascii.eqb_refl.
  - cbn in H. apply andb_prop in H. destruct H as [Hc H].
    apply negb_true_iff in Hc. cbn [app JS.split]. rewrite Hc, (IH H).
    reflexivity.
Qed.

Lemma split_join (segs : list jsstring) :
  segs <> [] ->
  Forall (fun seg => forallb (fun c => negb (Ascii.eqb c "/")) seg = true)
    segs ->
  JS.split (JS.join segs "/") "/" = segs.
Proof.
  intros Hne H. revert Hne.
  induction H as [|seg segs Hseg Hsegs IH]; intros Hne;
    [exfalso; apply Hne; reflexivity|].
  destruct segs as [|seg' segs].
  - cbn [JS.join]. now apply split_no_sep.
  - change (JS.join (seg :: seg' :: segs) "/")
      with (seg ++ "/"%char :: JS.join (seg' :: segs) "/").
    rewrite (split_app_sep seg _ "/" Hseg). f_equal.
    apply IH. discriminate.
Qed.

Lemma encodeChar_no_slash (c : ascii) :
  forallb (fun d => negb (Ascii.eqb d "/")) (URI.encodeChar c) = true.
Proof.
  destruct c as [[] [] [] [] [] [] [] []]; vm_compute; reflexivity.
Qed.

Lemma encodeURIComponent_no_slash (str : jsstring) :
  forallb (fun d => negb (Ascii.eqb d "/")) (URI.encodeURIComponent str)
  = true.
Proof.
  unfold URI.encodeURIComponent. induction str as [|c str IH]; [reflexivity|].
  cbn [flat_map]. now rewrite forallb_app, encodeChar_no_slash, IH.
Qed.

Lemma encodeURIComponent_unreserved (str : jsstring) :
  forallb URI.isUnreserved str = true -> URI.encodeURIComponent str = str.
Proof.
  unfold URI.encodeURIComponent. induction str as [|c str IH]; [reflexivity|].
  cbn [forallb flat_map]. intros H. apply andb_prop in H.
  destruct H as [Hc H]. rewrite (IH H). unfold URI.encodeChar.
  rewrite Hc. reflexivity.
Qed.

(** X25 ([getSkylinkUrl], download module): encoding keeps the structure of
    the [path] option.  The slashes of the encoded path are exactly the
    separators of the option: split on slashes, the encoded path gives the
    encoded segments, one for each segment of the option; and unreserved
    characters are their own encoding. *)
Theorem encodePathOption_keeps_segments (p seg : jsstring) :
  exists encoded,
    encodePathOption (PathString p) = Return encoded
    /\ JS.split encoded "/" = map URI.encodeURIComponent (JS.split p "/")
    /\ length (JS.split encoded "/") = length (JS.split p "/")
    /\ URI.encodeURIComponent (filter URI.isUnreserved seg)
       = filter URI.isUnreserved seg.
Proof.
  assert (Hs : JS.split
                 (JS.join (map URI.encodeURIComponent (JS.split p "/")) "/")
                 "/"
               = map URI.encodeURIComponent (JS.split p "/")).
  { apply split_join.
    - destruct (JS.split p "/") eqn:E; [|discriminate].
      exfalso. exact (split_not_nil p "/" E).
    - apply Forall_forall. intros x Hin. apply in_map_iff in Hin.
      destruct Hin as (y & <- & _). apply encodeURIComponent_no_slash. }
  assert (Hu : URI.encodeURIComponent (filter URI.isUnreserved seg)
               = filter URI.isUnreserved seg).
  { apply encodeURIComponent_unreserved. apply forallb_forall.
    intros c Hc. apply filter_In in Hc. tauto. }
  destruct p as [|c p].
  - exists []. repeat split; try reflexivity. exact Hu.
  - eexists. split; [reflexivity|]. split; [exact Hs|].
    split; [|exact Hu]. rewrite Hs. apply length_map.
Qed.
